(** * The image compositor of python-agentic-content-creator

    A shallow embedding of [src/image_compositor/compositor.py]: font
    lookup ([_find_font_file]), the branded headline slide
    ([create_branded_headline_slide]) and the text overlay
    ([add_text_to_image]), together with the parts of the Python standard
    library the module calls ([os.path.join], [os.path.dirname],
    [textwrap.wrap]) and a call-level model of the Pillow objects it
    manipulates.

    Conventions.
    - A Python [str] is a [string]; inside [textwrap] it is the list of its
      characters.  Text is ASCII: the character classes of [textwrap]'s
      regular expression are given on code points below 128.
    - A Python [int] is a [Z].  A Python [float] is the rational it denotes
      ([Q]); the floats of this module are pixel lengths and small
      quotients of them, far from the range where rounding could move
      [int(...)] across an integer.
    - Exceptions are an explicit result ([Ok] / [Raise]); the file system
      and the printed diagnostics are threaded as explicit state.
    - An image is the history of the Pillow calls that built it; a font is
      the measurements the drawing context takes with it. *)

From Stdlib Require Import ZArith QArith Qround Lqa String Ascii List Lia Bool.
From stdpp Require Import gmap strings list.
From Equations Require Import Equations.
Import ListNotations.

Local Open Scope string_scope.
Local Open Scope list_scope.
Local Open Scope Z_scope.

(* ===================================================================== *)
(** ** Python values *)
(* ===================================================================== *)

Module Py.

(** [int(x)] on a float: truncation toward zero. *)
Definition int (x : Q) : Z := Z.quot (Qnum x) (Z.pos (Qden x)).

(** [x > 0] on a float. *)
Definition gt0 (x : Q) : bool := 0 <? Qnum x.

(** Truthiness of an [Optional[str]]: [None] and [""] are falsy. *)
Definition truthy (p : option string) : bool :=
  match p with
  | Some s => negb (String.eqb s "")
  | None => false
  end.

Definition newline : string := String (ascii_of_nat 10) EmptyString.

Definition chars (s : string) : list ascii := list_ascii_of_string s.
Definition str (l : list ascii) : string := string_of_list_ascii l.

(** [max(xs)] on a non-empty list of floats: the first maximal element. *)
Definition max2 (a b : Q) : Q := if Qlt_le_dec a b then b else a.
Definition max (x : Q) (xs : list Q) : Q := fold_left max2 xs x.

End Py.

(* ===================================================================== *)
(** ** Exceptions *)
(* ===================================================================== *)

Inductive exn : Type :=
| FileNotFoundError
| UnidentifiedImageError
| OSError
| ValueError.

Inductive res (A : Type) : Type :=
| Ok (a : A)
| Raise (e : exn).
Arguments Ok {A} a.
Arguments Raise {A} e.

(* ===================================================================== *)
(** ** posixpath *)
(* ===================================================================== *)

(** [os.path] on a POSIX system. *)

Module posixpath.

Definition sep : ascii := "/"%char.

Definition startswith_sep (b : string) : bool :=
  match b with
  | String c _ => Ascii.eqb c sep
  | EmptyString => false
  end.

Fixpoint endswith_sep (p : string) : bool :=
  match p with
  | EmptyString => false
  | String c EmptyString => Ascii.eqb c sep
  | String _ rest => endswith_sep rest
  end.

(** One round of the loop of [join(a, *p)]. *)
Definition join2 (path b : string) : string :=
  if startswith_sep b then b
  else if String.eqb path "" || endswith_sep path then path +:+ b
  else path +:+ String sep b.

Definition join (a : string) (p : list string) : string :=
  fold_left join2 p a.

(** [p.rfind(sep) + 1]. *)
Fixpoint rfind_sep_succ (p : list ascii) : nat :=
  match p with
  | [] => 0%nat
  | c :: rest =>
      match rfind_sep_succ rest with
      | O => if Ascii.eqb c sep then 1%nat else 0%nat
      | S r => S (S r)
      end
  end.

Definition all_sep (l : list ascii) : bool :=
  forallb (fun c => Ascii.eqb c sep) l.

Fixpoint lstrip_sep (l : list ascii) : list ascii :=
  match l with
  | c :: rest => if Ascii.eqb c sep then lstrip_sep rest else l
  | [] => []
  end.

Definition rstrip_sep (l : list ascii) : list ascii :=
  rev (lstrip_sep (rev l)).

Definition dirname (p : string) : string :=
  let l := Py.chars p in
  let head := take (rfind_sep_succ l) l in
  Py.str (if negb (Nat.eqb (List.length head) 0) && negb (all_sep head)
          then rstrip_sep head else head).

End posixpath.

(* ===================================================================== *)
(** ** textwrap *)
(* ===================================================================== *)

(** [textwrap.wrap(text, width=w)], after [Lib/textwrap.py] of CPython
    3.11: a [TextWrapper] with every option at its default ([expand_tabs],
    [replace_whitespace], [drop_whitespace], [break_long_words] and
    [break_on_hyphens] on; [tabsize] 8; no indent, no
    [fix_sentence_endings], no [max_lines]). *)

Module textwrap.

(** Inside the module a [str] is the list of its characters. *)
Abbreviation str := (list ascii).

Definition len (s : str) : Z := Z.of_nat (List.length s).

Definition between (lo hi : nat) (c : ascii) : bool :=
  let n := nat_of_ascii c in (Nat.leb lo n && Nat.leb n hi)%bool.

(** [_whitespace = '\t\n\x0b\x0c\r '] *)
Definition whitespace (c : ascii) : bool := between 9 13 c || between 32 32 c.

(** [str.isspace], which [str.strip()] goes by: the file, group, record
    and unit separators count as well. *)
Definition isspace (c : ascii) : bool := between 9 13 c || between 28 32 c.

(** The classes [\d], [\w], [letter] (a word character that is no digit)
    and [word_punct] (a word character or one of ! double-quote ' & . , ?). *)
Definition digit (c : ascii) : bool := between 48 57 c.
Definition word (c : ascii) : bool :=
  digit c || between 65 90 c || between 97 122 c || between 95 95 c.
Definition letter (c : ascii) : bool := word c && negb (digit c).
Definition word_punct (c : ascii) : bool :=
  word c || between 33 34 c || between 38 39 c || between 44 44 c
  || between 46 46 c || between 63 63 c.

Definition hyphen : ascii := "-"%char.
Definition space : ascii := " "%char.

(** [text.expandtabs(tabsize)], at column [line_pos]. *)
Fixpoint expandtabs (tabsize line_pos : nat) (text : str) : str :=
  match text with
  | [] => []
  | c :: rest =>
      if Ascii.eqb c "009"%char then
        if Nat.ltb 0 tabsize then
          let incr := (tabsize - line_pos mod tabsize)%nat in
          repeat space incr ++ expandtabs tabsize (line_pos + incr) rest
        else expandtabs tabsize line_pos rest
      else if Ascii.eqb c "010"%char || Ascii.eqb c "013"%char then
        c :: expandtabs tabsize 0 rest
      else c :: expandtabs tabsize (S line_pos) rest
  end.

Definition _munge_whitespace (text : str) : str :=
  map (fun c => if whitespace c then space else c) (expandtabs 8 0 text).

(** *** [wordsep_re]

    The expression is one group of three alternatives, tried in order at
    each position; each consumes at least one character and one of them
    matches wherever text is left, so [wordsep_re.split] returns the
    successive matches (with empty strings between them, which [_split]
    filters out).  A position is the reversed text [before] it, for the
    look-behinds, and the text from it on. *)

(** The run of hyphens at the head of [s]. *)
Fixpoint hyphens (s : str) : nat :=
  match s with
  | c :: rest => if Ascii.eqb c hyphen then S (hyphens rest) else O
  | [] => O
  end.

(** [-{2,}(?=\w)]: the run is the match when it has two hyphens or more
    and a word character follows. *)
Definition em_dash (s : str) : option nat :=
  let n := hyphens s in
  if Nat.leb 2 n && match drop n s with c :: _ => word c | [] => false end
  then Some n else None.

Definition after_word_punct (before : str) : bool :=
  match before with
  | p :: _ => word_punct p
  | [] => false
  end.

(** [-(?: (?<=lt{2}-) | (?<=lt-lt-)) (?= lt -? lt)]: the hyphen of a
    hyphenated word. *)
Definition hyphenated (before s : str) : bool :=
  match s with
  | h :: after =>
      Ascii.eqb h hyphen
      && match before with
         | c1 :: c2 :: more =>
             (letter c2 && letter c1)
             || match more with
                | c3 :: _ => letter c3 && Ascii.eqb c2 hyphen && letter c1
                | [] => false
                end
         | _ => false
         end
      && match after with
         | a :: b :: more =>
             letter a
             && ((Ascii.eqb b hyphen
                  && match more with c :: _ => letter c | [] => false end)
                 || letter b)
         | _ => false
         end
  | [] => false
  end.

(** The third alternative, [nws+? (?: hyphen | (?=ws|\Z) | em-dash ahead)],
    once a first character is taken: how many further characters the
    match takes.  The quantifier is lazy: it stops at the first position
    where one of the three endings applies. *)
Fixpoint word_end (before s : str) {struct s} : nat :=
  if hyphenated before s then 1%nat
  else
    match s with
    | [] => O
    | c :: rest =>
        if whitespace c then O
        else if after_word_punct before && bool_decide (is_Some (em_dash s))
        then O
        else S (word_end (c :: before) rest)
    end.

Fixpoint whitespaces (s : str) : nat :=
  match s with
  | c :: rest => if whitespace c then S (whitespaces rest) else O
  | [] => O
  end.

(** The length of the match of [wordsep_re] at a position. *)
Definition wordsep (before s : str) : nat :=
  match s with
  | [] => O
  | c :: rest =>
      if whitespace c then whitespaces s
      else
        match (if after_word_punct before then em_dash s else None) with
        | Some n => n
        | None => S (word_end (c :: before) rest)
        end
  end.

(** [wordsep_re.split(text)] from a position on, empty strings dropped.
    [fuel] bounds the number of matches; the length of the text is
    enough, since every match takes a character. *)
Fixpoint split_from (fuel : nat) (before s : str) : list str :=
  match fuel, s with
  | S fuel', _ :: _ =>
      let n := wordsep before s in
      take n s :: split_from fuel' (rev (take n s) ++ before) (drop n s)
  | _, _ => []
  end.

Definition _split (text : str) : list str :=
  split_from (List.length text) [] text.

Definition _split_chunks (text : str) : list str :=
  _split (_munge_whitespace text).

(** *** [_wrap_chunks] *)

(** [chunk.strip() == ''] *)
Definition blank (chunk : str) : bool := forallb isspace chunk.

(** [chunk.rfind('-', 0, stop)], for [0 <= stop]. *)
Fixpoint rfind_hyphen (chunk : str) (stop : nat) : Z :=
  match stop, chunk with
  | S stop', c :: rest =>
      let r := rfind_hyphen rest stop' in
      if 0 <=? r then r + 1
      else if Ascii.eqb c hyphen then 0 else -1
  | _, _ => -1
  end.

(** [any(c != '-' for c in s)] *)
Definition any_not_hyphen (s : str) : bool :=
  existsb (fun c => negb (Ascii.eqb c hyphen)) s.

(** [_handle_long_word(reversed_chunks, cur_line, cur_len, width)], with
    [break_long_words] and [break_on_hyphens] on.  The chunks are kept in
    reading order: the top of the reversed stack is the head of the list.
    Returns the chunks and the current line as the call leaves them. *)
Definition _handle_long_word (chunks cur_line : list str) (cur_len width : Z)
  : list str * list str :=
  let space_left := if width <? 1 then 1 else width - cur_len in
  match chunks with
  | chunk :: rest =>
      let end_ :=
        if space_left <? len chunk then
          let hyphen := rfind_hyphen chunk (Z.to_nat space_left) in
          if (0 <? hyphen) && any_not_hyphen (take (Z.to_nat hyphen) chunk)
          then hyphen + 1 else space_left
        else space_left in
      (drop (Z.to_nat end_) chunk :: rest,
       cur_line ++ [take (Z.to_nat end_) chunk])
  | [] => (chunks, cur_line)
  end.

(** The inner [while chunks:] loop: chunks move to the current line as
    long as they fit. *)
Fixpoint fill_line (width : Z) (chunks cur_line : list str) (cur_len : Z)
  : list str * Z * list str :=
  match chunks with
  | chunk :: rest =>
      let l := len chunk in
      if cur_len + l <=? width
      then fill_line width rest (cur_line ++ [chunk]) (cur_len + l)
      else (cur_line, cur_len, chunks)
  | [] => (cur_line, cur_len, chunks)
  end.

(** [del cur_line[-1]] when the last chunk of the line is blank. *)
Definition drop_trailing_blank (cur_line : list str) : list str :=
  match last cur_line with
  | Some chunk => if blank chunk then removelast cur_line else cur_line
  | None => cur_line
  end.

(** One round of the outer [while chunks:] loop: the chunks of the line
    it builds, and the chunks left.  [started] is the truth value of
    [lines].  ([cur_len] is not tracked past the long word: without
    [max_lines] nothing reads it.) *)
Definition wrap_line (width : Z) (chunks : list str) (started : bool)
  : list str * list str :=
  let chunks :=
    match chunks with
    | chunk :: rest => if blank chunk && started then rest else chunks
    | [] => chunks
    end in
  let '(cur_line, cur_len, chunks) := fill_line width chunks [] 0 in
  let '(chunks, cur_line) :=
    match chunks with
    | chunk :: _ =>
        if width <? len chunk
        then _handle_long_word chunks cur_line cur_len width
        else (chunks, cur_line)
    | [] => (chunks, cur_line)
    end in
  (drop_trailing_blank cur_line, chunks).

(** [lines.append(''.join(cur_line))] when [cur_line] is not empty. *)
Definition append_line (lines : list str) (cur_line : list str) : list str :=
  match cur_line with
  | [] => lines
  | _ :: _ => lines ++ [concat cur_line]
  end.

Definition nonempty {A} (l : list A) : bool :=
  match l with [] => false | _ :: _ => true end.

(** What is left to wrap: every round of the outer loop takes a chunk or
    a character off. *)
Definition todo (chunks : list str) : nat :=
  (List.length chunks + List.length (concat chunks))%nat.

Equations? wrap_loop (width : positive) (chunks lines : list str) : list str
  by wf (todo chunks) lt :=
  wrap_loop width [] lines := lines;
  wrap_loop width (chunk :: chunks) lines :=
    wrap_loop width
      (wrap_line (Z.pos width) (chunk :: chunks) (nonempty lines)).2
      (append_line lines
         (wrap_line (Z.pos width) (chunk :: chunks) (nonempty lines)).1).
Proof.
  (* Each round takes at least one chunk or one character off [chunks]. *)
  generalize (nonempty lines). intros started.
  assert (Hw : 1 <= Z.pos width) by lia.
  generalize dependent (Z.pos width). clear wrap_loop width. intros width Hw.
  assert (Hcons : forall (c : str) cs,
            todo (c :: cs) = (S (List.length c) + todo cs)%nat).
  { intros c cs. unfold todo. simpl. rewrite length_app. lia. }
  assert (Hfill : forall chs cl n,
            (todo (fill_line width chs cl n).2 <= todo chs)%nat).
  { induction chs as [|c cs IH]; intros cl n; simpl; [lia|].
    destruct (_ <=? _); simpl; [|lia].
    specialize (IH (cl ++ [c]) (n + len c)). rewrite Hcons. lia. }
  assert (Hlong : forall (chs cl : list str) (n : Z),
    (todo (match chs with
           | c :: _ => if (width <? len c)%Z
                       then _handle_long_word chs cl n width
                       else (chs, cl)
           | [] => (chs, cl)
           end).1 <= todo chs)%nat).
  { intros [|c cs] cl n; cbv beta iota; [simpl; lia|].
    destruct (width <? len c); simpl; [|lia].
    rewrite !Hcons, length_drop. lia. }
  unfold wrap_line. destruct (blank chunk && started).
  - pose proof (Hfill chunks [] 0) as H1.
    destruct (fill_line width chunks [] 0) as [[cl n] chs].
    specialize (Hlong chs cl n).
    destruct (match chs with [] => _ | _ => _ end) as [chs' cl']. simpl in *.
    rewrite Hcons. lia.
  - simpl. destruct (0 + len chunk <=? width) eqn:Efit.
    + match goal with
      | |- context [fill_line width chunks ?a ?b] =>
          pose proof (Hfill chunks a b) as H1;
          destruct (fill_line width chunks a b) as [[cl n] chs]
      end.
      specialize (Hlong chs cl n).
      destruct (match chs with [] => _ | _ => _ end) as [chs' cl']. simpl in *.
      rewrite Hcons. lia.
    + apply Z.leb_gt in Efit.
      assert (Hlt : (width <? len chunk) = true) by (apply Z.ltb_lt; lia).
      rewrite Hlt. unfold _handle_long_word.
      assert (Hsl : (width <? 1) = false) by (apply Z.ltb_ge; lia).
      rewrite Hsl, Z.sub_0_r, Hlt.
      set (e := if andb _ _ then _ + 1 else width).
      assert (He : 1 <= e).
      { subst e. destruct (_ && _) eqn:Eh; [|lia].
        apply andb_prop in Eh as [Eh _]. apply Z.ltb_lt in Eh. lia. }
      simpl. rewrite !Hcons, length_drop. unfold len in *. lia.
Qed.

(** [_wrap_chunks(chunks)] for [self.width = width]. *)
Definition _wrap_chunks (width : Z) (chunks : list str) : res (list str) :=
  if width <=? 0 then Raise ValueError
  else Ok (wrap_loop (Z.to_pos width) chunks []).

(** [textwrap.wrap(text, width=width)] *)
Definition wrap (text : string) (width : Z) : res (list string) :=
  match _wrap_chunks width (_split_chunks (Py.chars text)) with
  | Ok lines => Ok (map Py.str lines)
  | Raise e => Raise e
  end.


End textwrap.

(* ===================================================================== *)
(** ** Pillow: fonts, drawing calls, images *)
(* ===================================================================== *)

Module PIL.

Definition bbox : Type := Z * Z * Z * Z.

Definition bbox_left (b : bbox) : Z := b.1.1.1.
Definition bbox_top (b : bbox) : Z := b.1.1.2.
Definition bbox_right (b : bbox) : Z := b.1.2.
Definition bbox_bottom (b : bbox) : Z := b.2.

(** A font loaded at one size ([ImageFont.FreeTypeFont]), seen through
    the measurements the drawing context takes with it:
    [draw.textlength(s, font)], [draw.textbbox((0, 0), s, font)] and
    [draw.multiline_textbbox(xy, s, font, align="left")]. *)
Record font : Type := {
  textlength : string -> Q;
  textbbox : string -> bbox;
  multiline_textbbox : Z * Z -> string -> bbox
}.

Inductive mode : Type := RGB | RGBA.

Inductive color : Type :=
| Named (name : string)
| Tuple (r g b a : Z).

(** The calls made on an [ImageDraw.Draw] object. *)
Inductive draw_op : Type :=
| rectangle (xy : Q * Q * Q * Q) (fill : color)
| text (xy : Q * Q) (s : string) (f : font) (fill : color)
       (anchor : option string).

(** The contents of an image, as the history of the calls that built it.
    [Photo n] is raster data that came from outside (a generated
    background). *)
Inductive picture : Type :=
| Photo (n : N)
| Fill (c : color)
| Convert (m : mode) (p : picture)
| Drawn (p : picture) (ops : list draw_op)
| AlphaComposite (im1 im2 : picture).

Record image : Type := {
  im_mode : mode;
  size : Z * Z;
  pixels : picture
}.

Definition new (m : mode) (sz : Z * Z) (c : color) : image :=
  {| im_mode := m; size := sz; pixels := Fill c |}.

Definition convert (m : mode) (im : image) : image :=
  {| im_mode := m; size := size im; pixels := Convert m (pixels im) |}.

(** [ImageDraw.Draw(im)] followed by the calls [ops] on it, in order:
    they paint into [im] itself. *)
Definition draw (im : image) (ops : list draw_op) : image :=
  {| im_mode := im_mode im; size := size im;
     pixels := Drawn (pixels im) ops |}.

End PIL.

(* ===================================================================== *)
(** ** The world and the monad of a call *)
(* ===================================================================== *)

(** What a path of the file system holds. *)
Inductive file : Type :=
| FontFile (face : Z -> option PIL.font)
(** a font file: the font it gives at each size, [None] where FreeType
    refuses *)
| ImageFile (im : PIL.image)
| OtherFile.

(** The diagnostics the module prints. *)
Inductive message : Type :=
| FontFound (font_path : string)
| FontWarning (font_names : list string)
| HeadlineFontError
| OverlayFontError
| HeadlineSaved (output_path : string)
| OverlaySaved (output_path : string)
| HeadlineUnexpected (e : exn)
| OverlayUnexpected (e : exn).

Record world : Type := {
fs : gmap string file;
(** whether [Image.save] to a path succeeds (directory present, format
    known from the extension, permission) *)
writable : string -> bool;
(** [__file__] of the compositor module *)
module_file : string;
stdout : list message
}.

Definition M (A : Type) : Type := world -> res A * world.

Definition ret {A} (a : A) : M A := fun w => (Ok a, w).
Definition raise {A} (e : exn) : M A := fun w => (Raise e, w).

Definition bind {A B} (m : M A) (k : A -> M B) : M B :=
fun w =>
  match m w with
  | (Ok a, w') => k a w'
  | (Raise e, w') => (Raise e, w')
  end.

(** [try: body  except Exception as e: handler(e)]. *)
Definition try_except {A} (body : M A) (handler : exn -> M A) : M A :=
fun w =>
  match body w with
  | (Ok a, w') => (Ok a, w')
  | (Raise e, w') => handler e w'
  end.

Notation "x <- m ;; k" := (bind m (fun x => k))
(at level 100, m at next level, right associativity).
Notation "m ;;; k" := (bind m (fun _ => k))
(at level 100, right associativity).

(** [print(msg)], on a standard output that takes every message (a
    console that cannot encode one would make [print] raise). *)
Definition print (msg : message) : M unit :=
fun w => (Ok tt, {| fs := fs w; writable := writable w;
                    module_file := module_file w;
                    stdout := stdout w ++ [msg] |}).

Definition exists_ (path : string) : M bool :=
fun w => (Ok (bool_decide (is_Some (fs w !! path))), w).

Definition get_file : M string := fun w => (Ok (module_file w), w).

(** What [Image.open] makes of the contents of a path. *)
Definition decode (f : option file) : res PIL.image :=
  match f with
  | Some (ImageFile im) => Ok im
  | Some _ => Raise UnidentifiedImageError
  | None => Raise FileNotFoundError
  end.

(** [Image.open(path)]. *)
Definition Image_open (path : string) : M PIL.image :=
  fun w => (decode (fs w !! path), w).

(** What [ImageFont.truetype] makes of the contents of a path. *)
Definition load_face (f : option file) (sz : Z) : res PIL.font :=
  match f with
  | Some (FontFile face) =>
      match face sz with
      | Some f => Ok f
      | None => Raise OSError
      end
  | _ => Raise OSError
  end.

(** [ImageFont.truetype(path, size)]. *)
Definition truetype (path : string) (sz : Z) : M PIL.font :=
  fun w => (load_face (fs w !! path) sz, w).

(** [im.save(path)]: the path takes the image, or the save is refused
    before anything is written (a save that fails once the file is open
    would leave it empty). *)
Definition save (im : PIL.image) (path : string) : M unit :=
fun w =>
  if writable w path
  then (Ok tt, {| fs := <[path := ImageFile im]> (fs w);
                  writable := writable w;
                  module_file := module_file w;
                  stdout := stdout w |})
  else (Raise OSError, w).

(** [Image.alpha_composite(im1, im2)]: both images must be RGBA and of
    one size. *)
Definition alpha_composite (im1 im2 : PIL.image) : res PIL.image :=
  match PIL.im_mode im1, PIL.im_mode im2 with
  | PIL.RGBA, PIL.RGBA =>
      if bool_decide (PIL.size im1 = PIL.size im2)
      then Ok {| PIL.im_mode := PIL.RGBA; PIL.size := PIL.size im1;
                 PIL.pixels := PIL.AlphaComposite (PIL.pixels im1)
                                                  (PIL.pixels im2) |}
      else Raise ValueError
  | _, _ => Raise ValueError
  end.

(** A pure computation that may raise, inside a call. *)
Definition lift {A} (r : res A) : M A := fun w => (r, w).

(* ===================================================================== *)
(** ** src/image_compositor/compositor.py *)
(* ===================================================================== *)

Module compositor.

Import PIL.

(** An [int] where a [float] is expected. *)
Abbreviation px := inject_Z.

(** [os.path.join(os.path.dirname(__file__), "..", "..", "fonts")] *)
Definition project_font_dir (file : string) : string :=
  posixpath.join (posixpath.dirname file) [".."; ".."; "fonts"].

(** The [for font_name in font_names:] loop of [_find_font_file]; [None]
    when it runs to its end. *)
Fixpoint find_font_loop (project_font_dir : string) (font_names : list string)
  : M (option string) :=
  match font_names with
  | [] => ret None
  | font_name :: rest =>
      let font_path := posixpath.join project_font_dir [font_name] in
      found <- exists_ font_path ;;
      if found then print (FontFound font_path) ;;; ret (Some font_path)
      else find_font_loop project_font_dir rest
  end.

Definition _find_font_file (font_names : list string) : M (option string) :=
  file <- get_file ;;
  let project_font_dir := project_font_dir file in
  found <- find_font_loop project_font_dir font_names ;;
  match found with
  | Some font_path => ret (Some font_path)
  | None => print (FontWarning font_names) ;;; ret None
  end.

(** [int(pixels / avg_char_width) if avg_char_width > 0 else default]:
    the wrap width, written out three times in the module. *)
Definition chars_per_line (pixels : Z) (avg_char_width : Q) (default : Z) : Z :=
  if Py.gt0 avg_char_width then Py.int (px pixels / avg_char_width)
  else default.

Definition path_of (p : option string) : string := default "" p.

(** Lines 44-84 of [create_branded_headline_slide]: from the loaded fonts
    to the image that is saved. *)
Definition headline_slide (main_font tag_font footer_font : font)
    (headline_text : string) : res image :=
  let width := 1024 in
  let height := 1024 in
  let background_color := Named "#F8F9FA" in
  let news_tag_bg := Named "#D92D20" in
  let news_tag_text := "LATEST NEWS" in
  let footer_text := "Finance & Politics Brief" in
  let img := new RGB (width, height) background_color in
  let margin := Py.int (px width * (1 # 10)) in
  let tag_box :=
    rectangle (px margin, px margin, px (margin + 180), px (margin + 40))
              news_tag_bg in
  let tag :=
    text (px (margin + 90), px (margin + 20)) news_tag_text tag_font
         (Named "white") (Some "mm") in
  let avg_char_width := textlength main_font "A" in
  let wrap_at_char_count :=
    chars_per_line (width - 2 * margin) avg_char_width 20 in
  match textwrap.wrap headline_text wrap_at_char_count with
  | Raise e => Raise e
  | Ok lines =>
      let wrapped_text := String.concat Py.newline lines in
      let text_bbox := multiline_textbbox main_font (margin, 0) wrapped_text in
      let text_height := bbox_bottom text_bbox - bbox_top text_bbox in
      let text_y := (px (height - text_height) / 2)%Q in
      let headline :=
        text (px margin, text_y) wrapped_text main_font (Named "black") None in
      let footer :=
        text (px (width - margin), px (height - margin)) footer_text footer_font
             (Named "#6C757D") (Some "rs") in
      Ok (draw img [tag_box; tag; headline; footer])
  end.

Definition create_branded_headline_slide (headline_text output_path : string)
  : M bool :=
  try_except
    (main_font_path <- _find_font_file ["PlayfairDisplay-ExtraBold.ttf"] ;;
     tag_font_path <- _find_font_file ["Inter-Bold.ttf"] ;;
     if negb (Py.truthy main_font_path) || negb (Py.truthy tag_font_path)
     then print HeadlineFontError ;;; ret false
     else
       main_font <- truetype (path_of main_font_path) 80 ;;
       tag_font <- truetype (path_of tag_font_path) 24 ;;
       footer_font <- truetype (path_of tag_font_path) 20 ;;
       img <- lift (headline_slide main_font tag_font footer_font
                                   headline_text) ;;
       save img output_path ;;;
       print (HeadlineSaved output_path) ;;;
       ret true)
    (fun e => print (HeadlineUnexpected e) ;;; ret false).

(** *** The overlay: lines 117-194 of [add_text_to_image] *)

Definition title_spacing : Z := Py.int (80 * (2 # 10)).
Definition exp_spacing : Z := Py.int (45 * (2 # 10)).
Definition space_between_blocks : Z := 60.
Definition padding : Z := 30.

(** [bbox[3] - bbox[1]] for [bbox = draw.textbbox((0, 0), line, font)] *)
Definition line_height (f : font) (line : string) : Z :=
  let bbox := textbbox f line in bbox_bottom bbox - bbox_top bbox.

(** [for line in lines: acc += (bbox[3] - bbox[1]) + spacing], the loop
    that advances [total_height] and, when drawing, [current_y]. *)
Definition advance (f : font) (spacing : Z) (lines : list string) (acc : Z) : Z :=
  fold_left (fun acc line => acc + (line_height f line + spacing)) lines acc.

Definition total_height (title_font explanation_font : font)
    (wrapped_title wrapped_explanation : list string) : Z :=
  let total_height := - title_spacing in
  let total_height := advance title_font title_spacing wrapped_title total_height in
  let total_height := total_height + space_between_blocks in
  advance explanation_font exp_spacing wrapped_explanation total_height.

Definition max_line_width (title_font explanation_font : font)
    (wrapped_title wrapped_explanation : list string) : Q :=
  match map (textlength title_font) wrapped_title
        ++ map (textlength explanation_font) wrapped_explanation with
  | w :: ws => Py.max w ws
  | [] => 0%Q
  end.

(** The box passed to [draw.rectangle]. *)
Definition bg_bbox (margin : Z) (max_line_width : Q) (total_height : Z)
  : Q * Q * Q * Q :=
  (px (margin - padding), px (margin - padding),
   (px margin + max_line_width + px padding)%Q,
   px (margin + total_height + padding)).

(** A drawing loop: [draw.text((margin, current_y), line, ...)], then
    [current_y] moves down by the height of the line and the spacing. *)
Fixpoint draw_lines (f : font) (spacing margin : Z) (lines : list string)
    (current_y : Z) : list draw_op :=
  match lines with
  | [] => []
  | line :: rest =>
      text (px margin, px current_y) line f (Named "white") None
      :: draw_lines f spacing margin rest
           (current_y + (line_height f line + spacing))
  end.

(** The calls on [draw], in order: the backing rectangle, the title lines,
    the explanation lines. *)
Definition overlay_ops (title_font explanation_font : font) (margin : Z)
    (wrapped_title wrapped_explanation : list string) : list draw_op :=
  let total_height :=
    total_height title_font explanation_font wrapped_title wrapped_explanation in
  let max_line_width :=
    max_line_width title_font explanation_font wrapped_title wrapped_explanation in
  let current_y := margin in
  let title_ops :=
    draw_lines title_font title_spacing margin wrapped_title current_y in
  let current_y := advance title_font title_spacing wrapped_title current_y in
  let current_y := current_y + space_between_blocks in
  let explanation_ops :=
    draw_lines explanation_font exp_spacing margin wrapped_explanation current_y in
  rectangle (bg_bbox margin max_line_width total_height) (Tuple 0 0 0 153)
  :: title_ops ++ explanation_ops.

Definition margin_of (img_width : Z) : Z := Py.int (px img_width * (8 # 100)).

(** The two wrapped blocks. *)
Definition wrap_blocks (title_font explanation_font : font) (img_width : Z)
    (slide_title slide_text : string) : res (list string * list string) :=
  let margin := margin_of img_width in
  let max_text_width_pixels := img_width - 2 * margin in
  let avg_char_width_title := textlength title_font "a" in
  let wrap_title_at :=
    chars_per_line max_text_width_pixels avg_char_width_title 30 in
  match textwrap.wrap slide_title wrap_title_at with
  | Raise e => Raise e
  | Ok wrapped_title =>
      let avg_char_width_exp := textlength explanation_font "a" in
      let wrap_exp_at :=
        chars_per_line max_text_width_pixels avg_char_width_exp 50 in
      match textwrap.wrap slide_text wrap_exp_at with
      | Raise e => Raise e
      | Ok wrapped_explanation => Ok (wrapped_title, wrapped_explanation)
      end
  end.

(** The text layer after the drawing calls. *)
Definition text_layer (title_font explanation_font : font) (img : image)
    (slide_title slide_text : string) : res image :=
  let txt_layer := new RGBA (size img) (Tuple 255 255 255 0) in
  let img_width := (size img).1 in
  match wrap_blocks title_font explanation_font img_width
                    slide_title slide_text with
  | Raise e => Raise e
  | Ok (wrapped_title, wrapped_explanation) =>
      Ok (draw txt_layer
            (overlay_ops title_font explanation_font (margin_of img_width)
                         wrapped_title wrapped_explanation))
  end.

Definition add_text_to_image
    (image_path slide_title slide_text output_path : string) : M bool :=
  try_except
    (opened <- Image_open image_path ;;
     let img := convert RGBA opened in
     title_font_path <- _find_font_file ["Inter-Bold.ttf"] ;;
     explanation_font_path <- _find_font_file ["Inter-Regular.ttf"] ;;
     if negb (Py.truthy title_font_path)
        || negb (Py.truthy explanation_font_path)
     then print OverlayFontError ;;; ret false
     else
       title_font <- truetype (path_of title_font_path) 80 ;;
       explanation_font <- truetype (path_of explanation_font_path) 45 ;;
       txt_layer <- lift (text_layer title_font explanation_font img
                                     slide_title slide_text) ;;
       out <- lift (alpha_composite img txt_layer) ;;
       save (convert RGB out) output_path ;;;
       print (OverlaySaved output_path) ;;;
       ret true)
    (fun e => print (OverlayUnexpected e) ;;; ret false).

End compositor.

(* ===================================================================== *)
(** ** Vocabulary of the statements *)
(* ===================================================================== *)

(** The words of a text: its maximal runs of characters that are not
    whitespace. *)
Definition starts_word (s : list ascii) : bool :=
  match s with
  | c :: _ => negb (textwrap.whitespace c)
  | [] => false
  end.

Definition cons_word (c : ascii) (ws : list (list ascii)) : list (list ascii) :=
  match ws with
  | w :: rest => (c :: w) :: rest
  | [] => [[c]]
  end.

Fixpoint words (s : list ascii) : list (list ascii) :=
  match s with
  | [] => []
  | c :: rest =>
      if textwrap.whitespace c then words rest
      else if starts_word rest then cons_word c (words rest)
      else [c] :: words rest
  end.

Definition words_of (s : string) : list string :=
  map Py.str (words (Py.chars s)).

(** A character that brings in none of the special cases of wrapping: it
    is no hyphen, and it is white for [str.strip] only if it is whitespace
    for [textwrap] (it is none of the four ASCII separators 28 to 31). *)
Definition plain (c : ascii) : bool :=
  negb (Ascii.eqb c textwrap.hyphen)
  && implb (textwrap.isspace c) (textwrap.whitespace c).

(** A character of ASCII.  On these the character classes above are
    Python's. *)
Definition seven_bit (c : ascii) : bool := Nat.ltb (nat_of_ascii c) 128.

(** A chunk of whitespace, and a chunk that is a word. *)
Definition white (chunk : list ascii) : Prop :=
  Forall (fun c => textwrap.whitespace c = true) chunk.
Definition wordy (chunk : list ascii) : Prop :=
  chunk <> [] /\ Forall (fun c => textwrap.whitespace c = false) chunk.

(** Chunks as [_split] makes them of a text without hyphens: runs of
    whitespace and words, no two words in a row. *)
Inductive runs : list (list ascii) -> Prop :=
| runs_nil : runs []
| runs_white chunk chunks :
    chunk <> [] -> white chunk -> runs chunks -> runs (chunk :: chunks)
| runs_word chunk chunks :
    wordy chunk -> starts_word (concat chunks) = false -> runs chunks ->
    runs (chunk :: chunks).

(** The words of the chunks, chunk by chunk. *)
Definition chunk_words (chunks : list (list ascii)) : list (list ascii) :=
  concat (map words chunks).

(** Chunks of plain characters, and chunks whose words fit a width. *)
Definition plain_chunks (chunks : list (list ascii)) : Prop :=
  Forall (Forall (fun c => plain c = true)) chunks.

Definition fits (width : Z) (chunks : list (list ascii)) : Prop :=
  Forall (fun chunk => wordy chunk -> textwrap.len chunk <= width) chunks.

(** The run of characters other than whitespace at the head of [s]. *)
Fixpoint nonwhites (s : list ascii) : nat :=
  match s with
  | c :: rest => if textwrap.whitespace c then O else S (nonwhites rest)
  | [] => O
  end.

(** The path [_find_font_file] probes for a candidate. *)
Definition font_path (w : world) (font_name : string) : string :=
  posixpath.join (compositor.project_font_dir (module_file w)) [font_name].

Definition present (w : world) (font_name : string) : Prop :=
  is_Some (fs w !! font_path w font_name).

(** The font file of that name is in the fonts directory and gives [f] at
    size [sz]. *)
Definition loads (w : world) (font_name : string) (sz : Z) (f : PIL.font)
  : Prop :=
  exists face,
    fs w !! font_path w font_name = Some (FontFile face) /\ face sz = Some f.

(** [w'] is [w] but for what was printed. *)
Definition frame (w w' : world) : Prop :=
  fs w' = fs w /\ writable w' = writable w /\ module_file w' = module_file w.

(** The height of a block of lines set one under the other: the lines and
    the spacing between consecutive lines; nothing for no line. *)
Definition block_height (f : PIL.font) (spacing : Z) (lines : list string) : Z :=
  match lines with
  | [] => 0
  | _ :: _ =>
      fold_right Z.add 0 (map (compositor.line_height f) lines)
      + spacing * (Z.of_nat (List.length lines) - 1)
  end.

(** The image [add_text_to_image] saves, as a function of what the three
    paths it reads hold; [None] where the call fails before saving. *)
Definition overlay_image (background title_file explanation_file : option file)
    (slide_title slide_text : string) : option PIL.image :=
  match decode background, load_face title_file 80,
        load_face explanation_file 45 with
  | Ok opened, Ok title_font, Ok explanation_font =>
      let img := PIL.convert PIL.RGBA opened in
      match compositor.text_layer title_font explanation_font img
                                  slide_title slide_text with
      | Ok txt_layer =>
          match alpha_composite img txt_layer with
          | Ok out => Some (PIL.convert PIL.RGB out)
          | Raise _ => None
          end
      | Raise _ => None
      end
  | _, _, _ => None
  end.

(** The image [create_branded_headline_slide] saves, likewise. *)
Definition headline_image (main_file tag_file : option file)
    (headline_text : string) : option PIL.image :=
  match load_face main_file 80, load_face tag_file 24,
        load_face tag_file 20 with
  | Ok main_font, Ok tag_font, Ok footer_font =>
      match compositor.headline_slide main_font tag_font footer_font
                                      headline_text with
      | Ok img => Some img
      | Raise _ => None
      end
  | _, _, _ => None
  end.

(** What a call that saves [image] at [path] when it can leaves behind. *)
Definition saved (w : world) (path : string) (image : option PIL.image)
  : bool * gmap string file :=
  match image with
  | Some im =>
      if writable w path then (true, <[path := ImageFile im]> (fs w))
      else (false, fs w)
  | None => (false, fs w)
  end.

(** Two worlds hold the same module, the same contents at the paths a call
    reads, and agree on whether its output path can be written. *)
Definition same_inputs (paths : list string) (output_path : string)
    (w1 w2 : world) : Prop :=
  module_file w1 = module_file w2
  /\ writable w1 output_path = writable w2 output_path
  /\ Forall (fun p => fs w1 !! p = fs w2 !! p) paths.

(** The box the layout gives a line drawn at [xy]: as wide as the measured
    length of the line, as high as its ink.  It lies inside [box], with
    [padding] to spare on the left, at the top and on the right. *)
Definition layout_box_inside (box : Q * Q * Q * Q) (xy : Q * Q)
    (f : PIL.font) (line : string) : Prop :=
  let '(x0, y0, x1, y1) := box in
  let pad := inject_Z compositor.padding in
  (x0 + pad == xy.1
   /\ xy.1 + PIL.textlength f line <= x1 - pad
   /\ y0 + pad <= xy.2
   /\ xy.2 + inject_Z (compositor.line_height f line) <= y1)%Q.

(** The bounding box of the ink of a line drawn at [xy],
    [draw.textbbox(xy, line, font)], lies inside [box]. *)
Definition ink_inside (box : Q * Q * Q * Q) (xy : Q * Q)
    (f : PIL.font) (line : string) : Prop :=
  let '(x0, y0, x1, y1) := box in
  let ink := PIL.textbbox f line in
  (x0 <= xy.1 + inject_Z (PIL.bbox_left ink)
   /\ xy.1 + inject_Z (PIL.bbox_right ink) <= x1
   /\ y0 <= xy.2 + inject_Z (PIL.bbox_top ink)
   /\ xy.2 + inject_Z (PIL.bbox_bottom ink) <= y1)%Q.

(** The same on three sides: the ink does not pass the left, the top and
    the right edge of [box]. *)
Definition ink_within_sides (box : Q * Q * Q * Q) (xy : Q * Q)
    (f : PIL.font) (line : string) : Prop :=
  let '(x0, y0, x1, y1) := box in
  let ink := PIL.textbbox f line in
  (x0 <= xy.1 + inject_Z (PIL.bbox_left ink)
   /\ xy.1 + inject_Z (PIL.bbox_right ink) <= x1
   /\ y0 <= xy.2 + inject_Z (PIL.bbox_top ink))%Q.

(** The bearings of a line: how far its ink is set off from the point it
    is drawn at, to the left, to the right and upwards, within the slack
    the padding leaves. *)
Definition bearings_within_padding (f : PIL.font) (line : string) : Prop :=
  let ink := PIL.textbbox f line in
  - compositor.padding <= PIL.bbox_left ink
  /\ (inject_Z (PIL.bbox_right ink)
      <= PIL.textlength f line + inject_Z compositor.padding)%Q
  /\ - compositor.padding <= PIL.bbox_top ink.

Definition box_height (b : Q * Q * Q * Q) : Q := (b.2 - b.1.1.2)%Q.
Definition box_width (b : Q * Q * Q * Q) : Q := (b.1.2 - b.1.1.1)%Q.

(* ===================================================================== *)
(** ** A concrete installation, for running the model *)
(* ===================================================================== *)

Module demo.

Import PIL.

(** A font with one advance for every glyph.  Glyphs stand on a baseline
    at nine tenths of the size; full stops, commas and underscores are
    low marks near the baseline, every other glyph rises to two tenths of
    the size. *)
Definition low_mark (c : ascii) : bool :=
  Ascii.eqb c "."%char || Ascii.eqb c ","%char || Ascii.eqb c "_"%char.

Definition glyph_top (sz : Z) (c : ascii) : Z :=
  if low_mark c then 8 * sz / 10 else 2 * sz / 10.

Definition ink_top (sz : Z) (s : string) : Z :=
  match Py.chars s with
  | c :: rest => fold_left (fun t c => Z.min t (glyph_top sz c)) rest (glyph_top sz c)
  | [] => 0
  end.

Definition ink_bottom (sz : Z) (s : string) : Z :=
  match Py.chars s with
  | _ :: _ => 9 * sz / 10
  | [] => 0
  end.

Definition advance_width (sz : Z) (s : string) : Q :=
  (6 * sz * Z.of_nat (String.length s)) # 10.

Definition face (sz : Z) : font :=
  {| textlength := advance_width sz;
     textbbox := fun s =>
       (0, ink_top sz s, Py.int (advance_width sz s), ink_bottom sz s);
     multiline_textbbox := fun xy s =>
       (xy.1, xy.2 + ink_top sz s, xy.1 + Py.int (advance_width sz s),
        xy.2 + ink_bottom sz s) |}.

Definition font_file : file := FontFile (fun sz => Some (face sz)).

Definition here : string := "/app/src/image_compositor/compositor.py".
Definition fonts : string := "/app/src/image_compositor/../../fonts".

(** The background the module's own test creates:
    [Image.new("RGB", (1024, 1024), color="gray")]. *)
Definition gray : image := new RGB (1024, 1024) (Named "gray").

Definition installed : gmap string file :=
  <[fonts +:+ "/PlayfairDisplay-ExtraBold.ttf" := font_file]>
  (<[fonts +:+ "/Inter-Bold.ttf" := font_file]>
  (<[fonts +:+ "/Inter-Regular.ttf" := font_file]>
  (<["test_image_google.png" := ImageFile gray]> ∅))).

Definition world_with (files : gmap string file) : world :=
  {| fs := files; writable := fun _ => true; module_file := here;
     stdout := [] |}.

Definition w0 : world := world_with installed.

(** The same installation with a background 40 pixels wide. *)
Definition narrow : world :=
  world_with (<["small.png" := ImageFile (new RGB (40, 40) (Named "gray"))]>
              installed).

(** The installation on another day: an earlier slide is at the output
    path, another file lies about, and something was printed before. *)
Definition later : world :=
  {| fs := <["out.png" := ImageFile gray]>
           (<["notes.txt" := OtherFile]> installed);
     writable := fun _ => true; module_file := here;
     stdout := [HeadlineFontError] |}.

(** A machine with the background and no fonts directory. *)
Definition no_fonts : world :=
  world_with (<["test_image_google.png" := ImageFile gray]> ∅).

(** The installation with a read-only output directory. *)
Definition read_only : world :=
  {| fs := installed; writable := fun _ => false; module_file := here;
     stdout := [] |}.

End demo.

(* ===================================================================== *)
(** ** Vocabulary of the further properties *)
(* ===================================================================== *)

(** The characters of a text that are not white space ([str.isspace]). *)
Definition visible (s : list ascii) : list ascii :=
  List.filter (fun c => negb (textwrap.isspace c)) s.

(** A text of whitespace only (the empty text is one). *)
Definition whitespace_only (s : string) : Prop := white (Py.chars s).

(** A character that is a space if it is whitespace at all: no tab, line
    feed, vertical tab, form feed or carriage return. *)
Definition no_control (c : ascii) : Prop :=
  textwrap.whitespace c = true -> c = textwrap.space.

(** The point the line of [b] is drawn at lies below the point the line
    of [a] is drawn at, by the height of the ink of [a] and [gap] pixels
    at least. *)
Definition drawn_below (gap : Z) (a b : PIL.draw_op) : Prop :=
  match a, b with
  | PIL.text (_, ya) line f _ _, PIL.text (_, yb) _ _ _ _ =>
      (ya + inject_Z (compositor.line_height f line) + inject_Z gap <= yb)%Q
  | _, _ => True
  end.

(** [max_text_width_pixels] of [add_text_to_image] for an image that wide. *)
Definition usable_width (img_width : Z) : Z :=
  img_width - 2 * compositor.margin_of img_width.

(** A chunk or a line that is not empty and holds no control whitespace. *)
Definition clean (chunk : list ascii) : Prop :=
  chunk <> [] /\ Forall no_control chunk.

(* ===================================================================== *)
(** * The callers of the compositor

    [main.py] drives the compositor: [run_workflow] fetches articles
    ([src/news_fetcher/news_api.py]), asks for a content strategy for each
    ([src/content_creation/strategist.py]), has a background generated for
    every slide ([src/image_generator/imagen_api.py]) and hands it to
    [add_text_to_image]; [app.py] starts the workflow from a Telegram
    message.  What these modules compute is embedded here; what lies
    outside the program (NewsAPI, the scraped page, Gemini, Imagen, the
    clock) answers through a record of functions, one answer for each
    call made, so that every behaviour of the outside is one such
    record.

    Conventions, beyond those of the compositor.
    - Data that comes from [json.loads] or [response.json()] is a [value];
      an object is the list of its members and [d.get(k)] takes the first
      member of that name.
    - An exception is an [error]; those of the compositor are kept
      ([Builtin]).  CPython 3.11 decides which exception an ill-typed
      operation raises.
    - What these modules print is not kept: the text of a message enters
      the model only where building it can raise. *)
(* ===================================================================== *)

From Stdlib Require Import DecimalString DecimalN DecimalPos DecimalZ.
From Stdlib Require Import Sorted.
From Stdlib Require OrderedTypeEx.

(** ** Python values *)

#[warnings="-register-all"]
Inductive value : Type :=
| VNone
| VBool (b : bool)
| VInt (n : Z)
| VFloat (x : Q)
| VStr (s : string)
| VList (items : list value)
| VDict (members : list (string * value)).

Inductive error : Type :=
| Builtin (e : exn)
| TypeError
| AttributeError
| KeyError
| IndexError
(** [requests.exceptions.RequestException] and its subclasses
    ([HTTPError], [ConnectionError], [Timeout]) *)
| RequestException
(** [google.api_core.exceptions.ResourceExhausted] *)
| ResourceExhausted
(** [tenacity.RetryError] *)
| RetryError
(** any other subclass of [Exception] the outside raises *)
| OtherError (name : string).

Inductive result (A : Type) : Type :=
| Return (a : A)
| Throw (e : error).
Arguments Return {A} a.
Arguments Throw {A} e.

Definition and_then {A B} (r : result A) (k : A -> result B) : result B :=
  match r with
  | Return a => k a
  | Throw e => Throw e
  end.

Module builtins.

(** [bool(v)] *)
Definition truthy (v : value) : bool :=
  match v with
  | VNone => false
  | VBool b => b
  | VInt n => negb (n =? 0)
  | VFloat x => negb (Qnum x =? 0)
  | VStr s => negb (String.eqb s "")
  | VList items => textwrap.nonempty items
  | VDict members => textwrap.nonempty members
  end.

(** The member of that name in an object. *)
Fixpoint lookup (key : string) (members : list (string * value))
  : option value :=
  match members with
  | [] => None
  | (k, v) :: rest => if String.eqb k key then Some v else lookup key rest
  end.

(** [d.get(key, default)]: only a [dict] has the method. *)
Definition get (d : value) (key : string) (fallback : value) : result value :=
  match d with
  | VDict members => Return (default fallback (lookup key members))
  | _ => Throw AttributeError
  end.

(** [d[key]] for a [str] key: [KeyError] on a [dict] without the key; a
    [str] and a [list] take no [str] index, and the other values take no
    index at all. *)
Definition getitem (d : value) (key : string) : result value :=
  match d with
  | VDict members =>
      match lookup key members with
      | Some v => Return v
      | None => Throw KeyError
      end
  | _ => Throw TypeError
  end.

(** [needle in hay] on strings. *)
Fixpoint occurs (needle hay : string) : bool :=
  String.prefix needle hay
  || match hay with
     | String _ rest => occurs needle rest
     | EmptyString => false
     end.

(** [key in v] for a [str] key: a key of a [dict], an item of a [list], a
    substring of a [str]; the other values are not containers. *)
Definition contains (key : string) (v : value) : result bool :=
  match v with
  | VDict members => Return (bool_decide (is_Some (lookup key members)))
  | VList items =>
      Return (existsb (fun item => match item with
                                   | VStr s => String.eqb s key
                                   | _ => false
                                   end) items)
  | VStr s => Return (occurs key s)
  | _ => Throw TypeError
  end.

(** [v[:n]], for [0 <= n]: a [str] and a [list] can be sliced. *)
Definition slice_to (n : nat) (v : value) : result value :=
  match v with
  | VStr s => Return (VStr (Py.str (take n (Py.chars s))))
  | VList items => Return (VList (take n items))
  | _ => Throw TypeError
  end.

(** The items [for x in v] and [enumerate(v)] go through: the items of a
    [list], the characters of a [str], the keys of a [dict]. *)
Definition iterate (v : value) : result (list value) :=
  match v with
  | VList items => Return items
  | VStr s => Return (map (fun c => VStr (String c EmptyString)) (Py.chars s))
  | VDict members => Return (map (fun kv => VStr kv.1) members)
  | _ => Throw TypeError
  end.

(** The strings of a list of values that are all [str]. *)
Fixpoint strings (items : list value) : result (list string) :=
  match items with
  | [] => Return []
  | VStr s :: rest => and_then (strings rest) (fun l => Return (s :: l))
  | _ :: _ => Throw TypeError
  end.

(** [sep.join(v)] *)
Definition join (sep : string) (v : value) : result string :=
  and_then (iterate v) (fun items =>
  and_then (strings items) (fun l => Return (String.concat sep l))).

(** [x in xs] on a list of [str]. *)
Definition mem (x : string) (xs : list string) : bool :=
  existsb (String.eqb x) xs.

(** [xs.remove(x)]: the first item equal to [x] goes; [ValueError] when
    there is none. *)
Fixpoint remove (x : string) (xs : list string) : result (list string) :=
  match xs with
  | [] => Throw (Builtin ValueError)
  | y :: rest =>
      if String.eqb y x then Return rest
      else and_then (remove x rest) (fun l => Return (y :: l))
  end.

(** [s.lower()] *)
Definition lower_char (c : ascii) : ascii :=
  if textwrap.between 65 90 c then ascii_of_nat (nat_of_ascii c + 32) else c.

Definition lower (s : string) : string :=
  Py.str (map lower_char (Py.chars s)).

(** [s.split()]: the maximal runs of characters that are not white space
    ([str.isspace]). *)
Fixpoint fields (s : list ascii) : list (list ascii) :=
  match s with
  | [] => []
  | c :: rest =>
      if textwrap.isspace c then fields rest
      else
        match rest with
        | c' :: _ =>
            if textwrap.isspace c' then [c] :: fields rest
            else cons_word c (fields rest)
        | [] => [[c]]
        end
  end.

Definition split (s : string) : list string :=
  map Py.str (fields (Py.chars s)).

(** [str(n)] for an [int]. *)
Definition str (n : Z) : string := NilZero.string_of_int (Z.to_int n).

(** [f"{n:02d}"]: at least two characters, zeros on the left (after the
    sign, which counts for one). *)
Definition format_02d (n : Z) : string :=
  if (0 <=? n) && (n <? 10) then String "0"%char (str n) else str n.

(** [s.split(sep)] for a separator of one character: the fields between
    the separators, empty ones included. *)
Fixpoint split_on (sep : ascii) (s : list ascii) : list (list ascii) :=
  match s with
  | [] => [[]]
  | c :: rest =>
      if Ascii.eqb c sep then [] :: split_on sep rest
      else
        match split_on sep rest with
        | field :: fields => (c :: field) :: fields
        | [] => [[c]]
        end
  end.

(** The white space [int()] skips at both ends of its argument: for ASCII
    text the characters tab to carriage return and the space, not the
    separators 28 to 31 that [str.isspace] also accepts. *)
Fixpoint skip_space (s : list ascii) : list ascii :=
  match s with
  | c :: rest => if textwrap.whitespace c then skip_space rest else s
  | [] => []
  end.

Definition strip (s : list ascii) : list ascii :=
  rev (skip_space (rev (skip_space s))).

(** The digits of the argument of [int()], once stripped and without its
    sign: digits, with single underscores between them allowed. *)
Fixpoint literal_digits (s : list ascii) (after_digit : bool)
  : option (list ascii) :=
  match s with
  | [] => if after_digit then Some [] else None
  | c :: rest =>
      if textwrap.digit c
      then option_map (cons c) (literal_digits rest true)
      else if Ascii.eqb c "_"%char && after_digit
      then literal_digits rest false
      else None
  end.

(** [int(s)] for a [str], in base ten. *)
Definition int (s : string) : result Z :=
  let body := strip (Py.chars s) in
  let '(negative, unsigned) :=
    match body with
    | c :: rest =>
        if Ascii.eqb c "-"%char then (true, rest)
        else if Ascii.eqb c "+"%char then (false, rest)
        else (false, body)
    | [] => (false, body)
    end in
  match literal_digits unsigned false with
  | Some digits =>
      match NilZero.uint_of_string (Py.str digits) with
      | Some d => Return (if negative then - Z.of_uint d else Z.of_uint d)
      | None => Throw (Builtin ValueError)
      end
  | None => Throw (Builtin ValueError)
  end.

(** [sorted(l)] for strings: they are compared character by character, by
    code point. *)
Fixpoint insert_sorted (x : string) (l : list string) : list string :=
  match l with
  | [] => [x]
  | y :: rest =>
      if String.leb x y then x :: l else y :: insert_sorted x rest
  end.

Definition sorted (l : list string) : list string :=
  fold_right insert_sorted [] l.

(** [list(set(l))]: the members of [l], each once.  Python leaves their
    order open; it is sorted away wherever the program builds one. *)
Definition distinct (l : list string) : list string := remove_dups l.

(** [f(x) for x in l], up to the first [x] on which [f] raises. *)
Fixpoint each {A B} (f : A -> result B) (l : list A) : result (list B) :=
  match l with
  | [] => Return []
  | x :: rest =>
      and_then (f x) (fun y =>
      and_then (each f rest) (fun ys => Return (y :: ys)))
  end.

End builtins.

(** ** The clock *)

(** What [datetime.now()] gives, in a year of four digits. *)
Record datetime : Type := {
  year : N; month : N; day : N; hour : N; minute : N; second : N
}.

(** [t.strftime("%Y-%m-%d_%H-%M-%S")] *)
Definition strftime (t : datetime) : string :=
  builtins.str (Z.of_N (year t)) +:+ "-"
  +:+ builtins.format_02d (Z.of_N (month t)) +:+ "-"
  +:+ builtins.format_02d (Z.of_N (day t)) +:+ "_"
  +:+ builtins.format_02d (Z.of_N (hour t)) +:+ "-"
  +:+ builtins.format_02d (Z.of_N (minute t)) +:+ "-"
  +:+ builtins.format_02d (Z.of_N (second t)).

(** ** The machine and the outside *)

(** The answer of an HTTP server: [response.status_code] and what
    [response.json()] gives. *)
Record response : Type := {
  status_code : Z;
  json : result value
}.

(** What is outside the program.  Each function takes the number of calls
    made to the outside so far. *)
Record outside : Type := {
  (** [os.getenv("NEWS_API_KEY")] *)
  NEWS_API_KEY : option string;
  (** [requests.get(url, params=params)] *)
  requests_get : nat -> string -> list (string * value) -> result response;
  (** The text of the paragraphs of a page: [requests.get(url, ...)],
      [raise_for_status()], [BeautifulSoup(...).find_all("p")] and
      [get_text()] on each. *)
  page_paragraphs : nat -> value -> result (list string);
  (** whether [strategist.model] was configured *)
  gemini_model : bool;
  (** [json.loads(model.generate_content(prompt, ...).text)], for the
      prompt [PROMPT_TEMPLATE.format(headline=..., article_content=...)] *)
  generate_content : nat -> value -> value -> result value;
  (** whether [imagen_api.model] was configured *)
  imagen_model : bool;
  (** [model.generate_images(prompt=prompt, number_of_images=1)]: the
      images, each as the file its bytes make *)
  generate_images : nat -> value -> result (list file);
  (** [datetime.now()] *)
  now : nat -> datetime
}.

(** The calls made to the outside. *)
Inductive call : Type :=
| NewsRequest (url : string) (params : list (string * value))
| PageRequest (url : value)
| GeminiRequest (headline article_content : value)
| ImagenRequest (prompt : value).

(** What was handed to Telegram, and the threads started. *)
Inductive reply : Type :=
| Welcome
| DefaultTopics (topics : list string)
| Searching (topics : list string)
| UnknownCommand
| GenerationFailed
| NoPackages
| PostHeader (post_num : Z)
| Caption (text : string)
| Delivered
| Unexpected (e : error).

Inductive action : Type :=
| SendMessage (chat_id : value) (text : reply)
| SendPhoto (chat_id : value) (photo_path : string)
| StartWorkflow (chat_id : value) (topics : list string)
                (date_filter : option string).

Record machine : Type := {
files : gmap string file;
(** the text of the files written as text *)
texts : gmap string string;
(** whether [Image.save] to a path succeeds *)
image_writable : string -> bool;
(** whether [open(path, "w")] and [write_bytes] to a path succeed *)
raw_writable : string -> bool;
(** whether [os.makedirs(path, exist_ok=True)] succeeds *)
dir_creatable : string -> bool;
(** [__file__] of the compositor module *)
compositor_file : string;
world_outside : outside;
calls : list call
}.

Definition with_files (st : machine) (f : gmap string file)
    (t : gmap string string) : machine :=
  {| files := f; texts := t;
     image_writable := image_writable st; raw_writable := raw_writable st;
     dir_creatable := dir_creatable st;
     compositor_file := compositor_file st;
     world_outside := world_outside st; calls := calls st |}.

Definition with_call (st : machine) (c : call) : machine :=
  {| files := files st; texts := texts st;
     image_writable := image_writable st; raw_writable := raw_writable st;
     dir_creatable := dir_creatable st;
     compositor_file := compositor_file st;
     world_outside := world_outside st; calls := calls st ++ [c] |}.

Definition W (A : Type) : Type := machine -> result A * machine.

Definition wret {A} (a : A) : W A := fun st => (Return a, st).
Definition wraise {A} (e : error) : W A := fun st => (Throw e, st).
Definition wlift {A} (r : result A) : W A := fun st => (r, st).

Definition wbind {A B} (m : W A) (k : A -> W B) : W B :=
fun st =>
  match m st with
  | (Return a, st') => k a st'
  | (Throw e, st') => (Throw e, st')
  end.

(** [try: body  except <classes> as e: handler(e)] *)
Definition wtry {A} (body : W A) (catches : error -> bool)
    (handler : error -> W A) : W A :=
fun st =>
  match body st with
  | (Return a, st') => (Return a, st')
  | (Throw e, st') => if catches e then handler e st' else (Throw e, st')
  end.

Declare Scope workflow_scope.
Notation "x <- m ;; k" := (wbind m (fun x => k))
(at level 100, m at next level, right associativity) : workflow_scope.
Notation "m ;;; k" := (wbind m (fun _ => k))
(at level 100, right associativity) : workflow_scope.

(** [except Exception]: every [error] is one. *)
Definition Exception (e : error) : bool := true.

(** [except IOError]: [OSError] and its subclasses, which the exceptions
    of Pillow and of [requests] are. *)
Definition IOError (e : error) : bool :=
  match e with
  | Builtin FileNotFoundError | Builtin UnidentifiedImageError
  | Builtin OSError | RequestException => true
  | _ => false
  end.

(** A call to the outside: it is recorded, and answered by its number. *)
Definition ask {A} (c : call) (answer : outside -> nat -> result A) : W A :=
fun st =>
  (answer (world_outside st) (List.length (calls st)), with_call st c).

(** A call of an entry point of the compositor, on the files of the
    machine; what it prints is dropped. *)
Definition compositor_world (st : machine) : world :=
  {| fs := files st; writable := image_writable st;
     module_file := compositor_file st; stdout := [] |}.

Definition compositor_call (m : M bool) : W bool :=
fun st =>
  match m (compositor_world st) with
  | (Ok b, w') => (Return b, with_files st (fs w') (texts st))
  | (Raise e, w') => (Throw (Builtin e), with_files st (fs w') (texts st))
  end.

(** [open(path, "w", encoding="utf-8")]: the file is there and empty. *)
Definition open_w (path : string) : W unit :=
fun st =>
  if raw_writable st path
  then (Return tt, with_files st (<[path := OtherFile]> (files st))
                              (<[path := ""]> (texts st)))
  else (Throw (Builtin OSError), st).

(** [f.write(v)] on the file opened at [path]: only a [str] is written. *)
Definition write (path : string) (v : value) : W unit :=
  match v with
  | VStr s =>
      fun st =>
        (Return tt,
         with_files st (files st)
           (<[path := default "" (texts st !! path) +:+ s]> (texts st)))
  | _ => wraise TypeError
  end.

(** [pathlib.Path(path).write_bytes(...)] with the bytes of [f]. *)
Definition write_bytes (path : string) (f : file) : W unit :=
fun st =>
  if raw_writable st path
  then (Return tt, with_files st (<[path := f]> (files st))
                              (delete path (texts st)))
  else (Throw (Builtin OSError), st).

(** [os.remove(path)] *)
Definition os_remove (path : string) : W unit :=
fun st =>
  match files st !! path with
  | Some _ => (Return tt, with_files st (delete path (files st))
                                     (delete path (texts st)))
  | None => (Throw (Builtin FileNotFoundError), st)
  end.

(** [os.makedirs(path, exist_ok=True)] *)
Definition os_makedirs (path : string) : W unit :=
fun st =>
  if dir_creatable st path then (Return tt, st)
  else (Throw (Builtin OSError), st).

(** *** Reading the file system

    A directory is the paths below it; paths are taken as they are
    written. *)

(** A directory's path, with the separator after it. *)
Definition directory_prefix (folder : string) : string :=
  posixpath.join folder [""].

Fixpoint strip_prefix (prefix s : list ascii) : option (list ascii) :=
  match prefix, s with
  | [], _ => Some s
  | c :: prefix, d :: s =>
      if Ascii.eqb c d then strip_prefix prefix s else None
  | _ :: _, [] => None
  end.

Definition endswith (suffix s : list ascii) : bool :=
  match strip_prefix (rev suffix) (rev s) with
  | Some _ => true
  | None => false
  end.

Fixpoint first_component (rest : list ascii) : list ascii :=
  match rest with
  | c :: rest =>
      if Ascii.eqb c posixpath.sep then [] else c :: first_component rest
  | [] => []
  end.

(** The entry of [folder] that [path] is, or lies in. *)
Definition entry_of (folder path : string) : option string :=
  match strip_prefix (Py.chars (directory_prefix folder)) (Py.chars path) with
  | Some rest =>
      match first_component rest with
      | [] => None
      | name => Some (Py.str name)
      end
  | None => None
  end.

(** [os.listdir(folder)] for a directory that exists: the names of its
    entries, in some order. *)
Definition os_listdir (folder : string) (st : machine) : list string :=
  remove_dups (omap (entry_of folder) (map_to_list (files st)).*1).

(** [os.path.exists(path)]: a file, or a directory. *)
Definition os_path_exists (path : string) (st : machine) : bool :=
  match files st !! path with
  | Some _ => true
  | None =>
      match os_listdir path st with
      | [] => false
      | _ => true
      end
  end.

(** [open(path, "r", encoding="utf-8")] and [f.read()] on a path that
    exists: the text of a file that holds text.  A directory cannot be
    opened ([IsADirectoryError], an [OSError]); an image, a font or
    another file without text cannot be decoded ([UnicodeDecodeError], a
    [ValueError]). *)
Definition read_text (path : string) (st : machine) : result string :=
  match files st !! path with
  | Some OtherFile =>
      match texts st !! path with
      | Some text => Return text
      | None => Throw (Builtin ValueError)
      end
  | Some _ => Throw (Builtin ValueError)
  | None => Throw (Builtin OSError)
  end.

(** [for i, x in enumerate(items, start): body(i, x)] *)
Fixpoint for_each {A} (body : nat -> A -> W unit) (start : nat)
    (items : list A) : W unit :=
  match items with
  | [] => wret tt
  | x :: rest => wbind (body start x) (fun _ => for_each body (S start) rest)
  end.

(* ===================================================================== *)
(** ** src/news_fetcher/news_api.py *)
(* ===================================================================== *)

Module news_api.

Import builtins.
Local Open Scope workflow_scope.

Definition NEWS_API_BASE_URL : string := "https://newsapi.org/v2/everything".

(** [response.raise_for_status()] *)
Definition raise_for_status (r : response) : result unit :=
  if (400 <=? status_code r) && (status_code r <? 600)
  then Throw RequestException else Return tt.

Definition is_RequestException (e : error) : bool :=
  match e with
  | RequestException => true
  | _ => false
  end.

(** The [params] of the request, in the order the keys are set. *)
Definition params (query_string api_key : string) (date : option string)
  : list (string * value) :=
  [("q", VStr query_string); ("language", VStr "en");
   ("pageSize", VInt 10); ("apiKey", VStr api_key)]
  ++ match date with
     | Some d =>
         if negb (String.eqb d "")
         then [("from", VStr d); ("to", VStr d); ("sortBy", VStr "popularity")]
         else [("sortBy", VStr "relevancy")]
     | None => [("sortBy", VStr "relevancy")]
     end.

(** [os.getenv("NEWS_API_KEY")] *)
Definition getenv_NEWS_API_KEY : W (option string) :=
fun st => (Return (NEWS_API_KEY (world_outside st)), st).

(** Lines 44-71 of [fetch_headlines]: the request and what is made of the
    answer. *)
Definition request_articles (topics : list string) (api_key : string)
    (date : option string) : W value :=
  let query_string := String.concat " OR " topics in
  let params := params query_string api_key date in
  answered <-
    wtry (response <- ask (NewsRequest NEWS_API_BASE_URL params)
                          (fun o n => requests_get o n NEWS_API_BASE_URL
                                                   params) ;;
          wlift (raise_for_status response) ;;;
          wret (Some response))
         is_RequestException
         (fun _ => wret None) ;;
  match answered with
  | None => wret (VList [])
  | Some response =>
      data <- wlift (json response) ;;
      articles <- wlift (get data "articles" (VList [])) ;;
      if negb (truthy articles) then wret (VList []) else wret articles
  end.

Definition fetch_headlines (topics : list string) (date : option string)
  : W value :=
  match topics with
  | [] => wret (VList [])
  | _ :: _ =>
      api_key <- getenv_NEWS_API_KEY ;;
      match api_key with
      | Some key =>
          if String.eqb key "" then wret (VList [])
          else request_articles topics key date
      | None => wret (VList [])
      end
  end.

End news_api.

(* ===================================================================== *)
(** ** src/content_creation/strategist.py *)
(* ===================================================================== *)

Module strategist.

Import builtins.
Local Open Scope workflow_scope.

(** [_scrape_article_content(url)]: the paragraphs of the page joined by
    spaces, the empty string when anything fails. *)
Definition _scrape_article_content (url : value) : W string :=
  wtry (paragraphs <- ask (PageRequest url)
                          (fun o n => page_paragraphs o n url) ;;
        wret (String.concat " " paragraphs))
       Exception
       (fun _ => wret "").

(** The body of [generate_content_strategy], under the decorator. *)
Definition generate_content_strategy_once (article : value) : W value :=
  fun st =>
    (if negb (gemini_model (world_outside st)) then wret VNone
     else
       headline <- wlift (get article "title" (VStr "No Title")) ;;
       url <- wlift (get article "url" (VStr "")) ;;
       scraped <- _scrape_article_content url ;;
       let article_content :=
         if String.eqb scraped "" then headline else VStr scraped in
       wtry (ask (GeminiRequest headline article_content)
                 (fun o n => generate_content o n headline article_content))
            Exception
            (fun _ => wret VNone)) st.

(** [@retry(retry=retry_if_exception_type(ResourceExhausted),
    wait=wait_exponential(...), stop=stop_after_attempt(n))]: the call is
    made again as long as it raises [ResourceExhausted], [n] times at
    most; any other exception, and any value returned, ends the loop.
    (The waits between the attempts are not part of the model.) *)
Fixpoint retry {A} (attempts : nat) (body : W A) : W A :=
  match attempts with
  | O => wraise RetryError
  | S more =>
      fun st =>
        match body st with
        | (Throw ResourceExhausted, st') => retry more body st'
        | r => r
        end
  end.

Definition generate_content_strategy (article : value) : W value :=
  retry 5 (generate_content_strategy_once article).

End strategist.

(* ===================================================================== *)
(** ** src/image_generator/imagen_api.py *)
(* ===================================================================== *)

Module imagen_api.

Import builtins.
Local Open Scope workflow_scope.

(** [response[0]] *)
Definition first {A} (l : list A) : result A :=
  match l with
  | x :: _ => Return x
  | [] => Throw IndexError
  end.

Definition create_image (prompt : value) (filename : string) : W bool :=
  fun st =>
    (if negb (imagen_model (world_outside st)) then wret false
     else
       (* the message printed before the call holds [prompt[:50]] *)
       wlift (slice_to 50 prompt) ;;;
       wtry (response <- ask (ImagenRequest prompt)
                             (fun o n => generate_images o n prompt) ;;
             image <- wlift (first response) ;;
             write_bytes filename image ;;;
             wret true)
            Exception
            (fun _ => wret false)) st.

End imagen_api.

(* ===================================================================== *)
(** ** main.py *)
(* ===================================================================== *)

Module main.

Import builtins.
Local Open Scope workflow_scope.

Definition create_output_folder : W string :=
  fun st =>
    let folder_name :=
      "output_"
      +:+ strftime (now (world_outside st) (List.length (calls st))) in
    (os_makedirs folder_name ;;; wret folder_name) st.

Definition caption_name (post_number : Z) : string :=
  "post_" +:+ format_02d post_number +:+ "_caption.txt".

Definition caption_header : string :=
  "--- POST CAPTION ---" +:+ Py.newline +:+ Py.newline.

Definition hashtags_header : string :=
  Py.newline +:+ Py.newline +:+ "--- HASHTAGS ---" +:+ Py.newline
  +:+ Py.newline.

Definition save_caption (folder : string) (post_number : Z)
    (strategy : value) : W unit :=
  let caption_filename :=
    posixpath.join folder [caption_name post_number] in
  wtry (open_w caption_filename ;;;
        write caption_filename (VStr caption_header) ;;;
        caption <- wlift (get strategy "post_caption"
                              (VStr "No caption generated.")) ;;
        write caption_filename caption ;;;
        write caption_filename (VStr hashtags_header) ;;;
        tags <- wlift (get strategy "hashtags" (VList [])) ;;
        hashtags <- wlift (join " " tags) ;;
        write caption_filename (VStr hashtags))
       IOError
       (fun _ => wret tt).

(** The two entry points of the compositor, called on values: with a
    title, a text or a headline that is no [str], [textwrap.wrap] raises
    inside the entry point's [try] unless an earlier step has failed, so
    the call returns [False] and writes nothing. *)
Definition create_branded_headline_slide (headline_text : value)
    (output_path : string) : W bool :=
  match headline_text with
  | VStr s =>
      compositor_call (compositor.create_branded_headline_slide s output_path)
  | _ => wret false
  end.

Definition add_text_to_image (image_path : string)
    (slide_title slide_text : value) (output_path : string) : W bool :=
  match slide_title, slide_text with
  | VStr title, VStr text =>
      compositor_call
        (compositor.add_text_to_image image_path title text output_path)
  | _, _ => wret false
  end.

Definition temp_bg_name (post_num slide_index : Z) : string :=
  "temp_bg_" +:+ format_02d post_num +:+ "_" +:+ str slide_index +:+ ".png".

Definition slide_name (post_num slide_index : Z) : string :=
  "post_" +:+ format_02d post_num +:+ "_slide_" +:+ format_02d slide_index
  +:+ ".png".

(** The body of the loop over the symbolic slides (lines 90-117). *)
Definition symbolic_slide (output_folder : string) (post_num : Z)
    (slide_num : nat) (slide_content : value) : W unit :=
  let slide_index := Z.of_nat slide_num + 2 in
  image_prompt <- wlift (get slide_content "image_prompt" VNone) ;;
  let bg_image_path :=
    posixpath.join output_folder [temp_bg_name post_num slide_index] in
  created <- imagen_api.create_image image_prompt bg_image_path ;;
  if created then
    slide_title <- wlift (get slide_content "slide_title" (VStr "")) ;;
    slide_text <- wlift (get slide_content "slide_text" (VStr "")) ;;
    let final_slide_path :=
      posixpath.join output_folder [slide_name post_num slide_index] in
    add_text_to_image bg_image_path slide_title slide_text final_slide_path ;;;
    os_remove bg_image_path
  else wret tt.

(** The body of the loop over the articles (lines 61-121). *)
Definition post (output_folder : string) (i : nat) (article : value)
  : W unit :=
  let post_num := Z.of_nat i + 1 in
  match article with
  | VDict _ =>
      (* the message printed holds [article.get('title', 'Untitled')[:40]] *)
      title <- wlift (get article "title" (VStr "Untitled")) ;;
      wlift (slice_to 40 title) ;;;
      strategy <- strategist.generate_content_strategy article ;;
      if negb (truthy strategy) then wret tt
      else
        headline_text <- wlift (get strategy "headline_slide_text" VNone) ;;
        (if truthy headline_text
         then create_branded_headline_slide headline_text
                (posixpath.join output_folder [slide_name post_num 1]) ;;;
              wret tt
         else wret tt) ;;;
        symbolic_slides <- wlift (get strategy "symbolic_slides" (VList [])) ;;
        slides <- wlift (iterate symbolic_slides) ;;
        for_each (symbolic_slide output_folder post_num) 0 slides ;;;
        save_caption output_folder post_num strategy
  | _ => wret tt
  end.

Definition run_workflow (topics : list string) (date_filter : option string)
  : W (option string) :=
  articles <- news_api.fetch_headlines topics date_filter ;;
  if negb (truthy articles) then wret None
  else
    output_folder <- create_output_folder ;;
    items <- wlift (iterate articles) ;;
    for_each (post output_folder) 0 items ;;;
    wret (Some output_folder).

(** The optional date flag (lines 143-147, and lines 159-162 of [app.py]):
    when both words are among the arguments the date is today's, and the
    first occurrence of each is taken out. *)
Definition date_flag (args : list string) (today : string)
  : result (list string * option string) :=
  if mem "--date" args && mem "today" args then
    and_then (remove "--date" args) (fun args =>
    and_then (remove "today" args) (fun args =>
    Return (args, Some today)))
  else Return (args, None).

Definition default_topics : list string := ["finance"; "politics"].

(** The script (lines 136-160), for [sys.argv[1:] = args] on the day
    [today]: the arguments [run_workflow] is called with. *)
Definition arguments (args : list string) (today : string)
  : result (list string * option string) :=
  and_then (date_flag args today) (fun '(args, date_arg) =>
  let topics := args in
  let topics := if textwrap.nonempty topics then topics else default_topics in
  Return (topics, date_arg)).

End main.

(* ===================================================================== *)
(** ** app.py *)
(* ===================================================================== *)

Module app.

Import builtins.

(** [parts[0]] *)
Definition command_of (parts : list string) : result string :=
  match parts with
  | command :: _ => Return command
  | [] => Throw IndexError
  end.

(** [text.lower()]: a method of [str]. *)
Definition lower_of (text : value) : result string :=
  match text with
  | VStr s => Return (lower s)
  | _ => Throw AttributeError
  end.

(** The [try] block of [telegram_webhook] (lines 143-186): what is handed
    to Telegram and what is started.  Nothing in a branch can raise once
    its first message is sent. *)
Definition handle_update (update : value) (today : string)
  : result (list action) :=
  and_then (contains "message" update) (fun has_message =>
  if negb has_message then Return []
  else
    and_then (getitem update "message") (fun message =>
    and_then (contains "text" message) (fun has_text =>
    if negb has_text then Return []
    else
      and_then (getitem message "chat") (fun chat =>
      and_then (getitem chat "id") (fun chat_id =>
      and_then (getitem message "text") (fun text =>
      and_then (lower_of text) (fun message_text =>
      let parts := split message_text in
      and_then (command_of parts) (fun command =>
      if String.eqb command "/start" then
        Return [SendMessage chat_id Welcome]
      else if String.eqb command "/generate" then
        and_then (main.date_flag parts today) (fun '(parts, date_arg) =>
        let user_topics := tail parts in
        if textwrap.nonempty user_topics then
          Return [SendMessage chat_id (Searching user_topics);
                  StartWorkflow chat_id user_topics date_arg]
        else
          Return [SendMessage chat_id (DefaultTopics main.default_topics);
                  StartWorkflow chat_id main.default_topics date_arg])
      else Return [SendMessage chat_id UnknownCommand])))))))).

(** [telegram_webhook], for a request whose body is the JSON [update]:
    the [ok] of the answer, and what it has done. *)
Definition telegram_webhook (bot : bool) (update : value) (today : string)
  : bool * list action :=
  if negb bot then (false, [])
  else
    match handle_update update today with
    | Return actions => (true, actions)
    | Throw _ => (true, [])
    end.

(** *** [run_workflow_and_reply] *)

(** [f.split("_")[1]] (line 93): the second field of a file name. *)
Definition post_field (f : string) : result string :=
  match split_on "_"%char (Py.chars f) with
  | _ :: field :: _ => Return (Py.str field)
  | _ => Throw IndexError
  end.

(** [sorted(list(set(f.split("_")[1] for f in os.listdir(folder))))]
    (lines 92-94) *)
Definition all_posts (folder : string) (st : machine)
  : result (list string) :=
  and_then (each post_field (os_listdir folder st)) (fun fields =>
  Return (sorted (distinct fields))).

(** Whether a name matches [f"post_{post_num_str}_slide_*.png"], for a
    [post_num_str] that holds none of [*], [?] and [[] (line 104 has
    passed it through [int()] before the pattern is built): the star
    stands for any characters, none included. *)
Definition slide_pattern (post_num_str name : string) : bool :=
  match strip_prefix (Py.chars ("post_" +:+ post_num_str +:+ "_slide_"))
                     (Py.chars name) with
  | Some rest => endswith (Py.chars ".png") rest
  | None => false
  end.

(** [glob(os.path.join(folder, f"post_{post_num_str}_slide_*.png"))]
    (lines 111-115), for a folder whose name holds no wildcard and no
    separator, as [create_output_folder] names them. *)
Definition glob_slides (folder post_num_str : string) (st : machine)
  : list string :=
  map (fun name => posixpath.join folder [name])
      (List.filter (slide_pattern post_num_str) (os_listdir folder st)).

(** [send_telegram_photo]: the photo is submitted if it can be opened. *)
Definition send_telegram_photo (chat_id : value) (photo_path : string)
    (st : machine) : list action :=
  match files st !! photo_path with
  | Some _ => [SendPhoto chat_id photo_path]
  | None => []
  end.

(** What has been sent, and the exception that stopped the sending if one
    did. *)
Definition sending : Type := list action * option error.

(** The body of the loop over the posts (lines 102-125). *)
Definition deliver_post (chat_id : value) (output_folder_path : string)
    (post_num_str : string) (st : machine) : sending :=
  match int post_num_str with
  | Throw e => ([], Some e)
  | Return post_num =>
      let header := SendMessage chat_id (PostHeader post_num) in
      let caption_file :=
        posixpath.join output_folder_path
          ["post_" +:+ post_num_str +:+ "_caption.txt"] in
      let image_files :=
        sorted (glob_slides output_folder_path post_num_str st) in
      let photos :=
        flat_map (fun image_path => send_telegram_photo chat_id image_path st)
                 image_files in
      if os_path_exists caption_file st then
        match read_text caption_file st with
        | Return caption =>
            (header :: SendMessage chat_id (Caption caption) :: photos, None)
        | Throw e => ([header], Some e)
        end
      else (header :: photos, None)
  end.

Fixpoint deliver_posts (chat_id : value) (output_folder_path : string)
    (all_posts : list string) (st : machine) : sending :=
  match all_posts with
  | [] => ([], None)
  | post_num_str :: rest =>
      match deliver_post chat_id output_folder_path post_num_str st with
      | (sent, Some e) => (sent, Some e)
      | (sent, None) =>
          let '(more, stopped) :=
            deliver_posts chat_id output_folder_path rest st in
          (sent ++ more, stopped)
      end
  end.

(** Lines 88-127: the packages of the folder are sent. *)
Definition deliver (chat_id : value) (output_folder_path : string)
    (st : machine) : sending :=
  match all_posts output_folder_path st with
  | Throw e => ([], Some e)
  | Return [] => ([SendMessage chat_id NoPackages], None)
  | Return posts =>
      match deliver_posts chat_id output_folder_path posts st with
      | (sent, None) => (sent ++ [SendMessage chat_id Delivered], None)
      | (sent, Some e) => (sent, Some e)
      end
  end.


End app.

(* ===================================================================== *)
(** ** A concrete run, for running the model *)
(* ===================================================================== *)

Module demo_run.

(** One article, one strategy with one symbolic slide, one image. *)
Definition article : value :=
  VDict [("title", VStr "Central bank holds rates");
         ("url", VStr "https://example.org/rates")].

Definition feed : value :=
  VDict [("status", VStr "ok"); ("articles", VList [article])].

Definition slide : value :=
  VDict [("slide_title", VStr "Rates on hold");
         ("slide_text", VStr "The bank keeps its rate where it was.");
         ("image_prompt", VStr "A scale in balance")].

Definition strategy : value :=
  VDict [("headline_slide_text", VStr "Rates stay put");
         ("symbolic_slides", VList [slide]);
         ("post_caption", VStr "Nothing moved today.");
         ("hashtags", VList [VStr "#rates"; VStr "#bank"])].

Definition services : outside :=
  {| NEWS_API_KEY := Some "key";
     requests_get := fun _ _ _ =>
       Return {| status_code := 200; json := Return feed |};
     page_paragraphs := fun _ _ => Return ["The bank met."; "It held."];
     gemini_model := true;
     generate_content := fun _ _ _ => Return strategy;
     imagen_model := true;
     generate_images := fun _ _ => Return [ImageFile demo.gray];
     now := fun _ =>
       {| year := 2025; month := 1; day := 31;
          hour := 10; minute := 0; second := 0 |} |}.

Definition machine_with (o : outside) : machine :=
  {| files := demo.installed; texts := ∅;
     image_writable := fun _ => true; raw_writable := fun _ => true;
     dir_creatable := fun _ => true;
     compositor_file := demo.here;
     world_outside := o; calls := [] |}.

Definition start : machine := machine_with services.

(** NewsAPI answers with a page that is no JSON. *)
Definition bad_gateway : outside :=
  {| NEWS_API_KEY := Some "key";
     requests_get := fun _ _ _ =>
       Return {| status_code := 200;
                 json := Throw (OtherError "JSONDecodeError") |};
     page_paragraphs := page_paragraphs services;
     gemini_model := true;
     generate_content := generate_content services;
     imagen_model := true;
     generate_images := generate_images services;
     now := now services |}.


(** A strategy whose slide has no [image_prompt]. *)
Definition no_prompt : outside :=
  {| NEWS_API_KEY := Some "key";
     requests_get := requests_get services;
     page_paragraphs := page_paragraphs services;
     gemini_model := true;
     generate_content := fun _ _ _ =>
       Return (VDict [("symbolic_slides",
                       VList [VDict [("slide_title", VStr "Rates")]])]);
     imagen_model := true;
     generate_images := generate_images services;
     now := now services |}.

End demo_run.

(* ===================================================================== *)
(** ** Vocabulary of the statements about the callers *)
(* ===================================================================== *)

(** What is made of the answer to the request. *)
Definition articles_of (answer : result response) : result value :=
  match answer with
  | Throw e =>
      if news_api.is_RequestException e then Return (VList []) else Throw e
  | Return response =>
      if (400 <=? status_code response) && (status_code response <? 600)
      then Return (VList [])
      else
        and_then (json response) (fun data =>
        and_then (builtins.get data "articles" (VList [])) (fun articles =>
        Return (if builtins.truthy articles then articles else VList [])))
  end.

(** What [_scrape_article_content] makes of the page. *)
Definition scraped_text (page : result (list string)) : string :=
  match page with
  | Return paragraphs => String.concat " " paragraphs
  | Throw _ => ""
  end.

(** What [generate_content_strategy] makes of the answer of Gemini. *)
Definition strategy_of (answer : result value) : value :=
  match answer with
  | Return strategy => strategy
  | Throw _ => VNone
  end.

(** What [save_caption] writes for a strategy with these members, once the
    file is open: how the writing ends, and the text then in the file. *)
Definition caption_written (members : list (string * value))
  : result unit * string :=
  match default (VStr "No caption generated.")
                (builtins.lookup "post_caption" members) with
  | VStr caption =>
      match builtins.join " " (default (VList [])
                                 (builtins.lookup "hashtags" members)) with
      | Return hashtags =>
          (Return tt,
           main.caption_header +:+ caption +:+ main.hashtags_header
           +:+ hashtags)
      | Throw e =>
          (Throw e, main.caption_header +:+ caption +:+ main.hashtags_header)
      end
  | _ => (Throw TypeError, main.caption_header)
  end.

(** [ys] is [xs] without its first [x]. *)
Definition without_first (x : string) (xs ys : list string) : Prop :=
  exists before after,
    xs = before ++ x :: after /\ ~ In x before /\ ys = before ++ after.

(** The paths of the content packages and of the temporary backgrounds in
    an output folder. *)
Definition caption_path (folder p : string) : Prop :=
  exists post_num,
    1 <= post_num
    /\ p = posixpath.join folder [main.caption_name post_num].

Definition slide_path (folder p : string) : Prop :=
  exists post_num slide_index,
    1 <= post_num /\ 1 <= slide_index
    /\ p = posixpath.join folder [main.slide_name post_num slide_index].

Definition temp_path (folder p : string) : Prop :=
  exists post_num slide_index,
    p = posixpath.join folder [main.temp_bg_name post_num slide_index].

(** A file that [read_text] reads. *)
Definition holds_text (st : machine) (p : string) : Prop :=
  files st !! p = Some OtherFile /\ is_Some (texts st !! p).

(** [after] is [before] but for slides and captions in [folder], the
    captions holding text, and for temporary backgrounds that are gone. *)
Definition tidy (folder : string) (before after : machine) : Prop :=
  forall p,
    (files after !! p = files before !! p
     /\ texts after !! p = texts before !! p)
    \/ slide_path folder p
    \/ (caption_path folder p /\ holds_text after p)
    \/ (temp_path folder p /\ files after !! p = None).

(** A computation that leaves the files tidy, however it ends. *)
Definition keeps {A} (folder : string) (m : W A) : Prop :=
  forall st, tidy folder st (m st).2.

(** A path in [folder], at any depth. *)
Definition below (folder p : string) : Prop :=
  exists name, entry_of folder p = Some name.

(** A folder that holds content packages and nothing else: slides, and
    captions that hold text. *)
Definition package_folder (folder : string) (st : machine) : Prop :=
  forall p,
    is_Some (files st !! p) -> below folder p ->
    slide_path folder p \/ (caption_path folder p /\ holds_text st p).

(** A list of strings in ascending order, no two alike. *)
Definition ascending (l : list string) : Prop :=
  StronglySorted (fun a b => String.ltb a b = true) l.

(** What is sent for one post: the header, the caption if there is one,
    the slides. *)
Definition package_messages (chat_id : value) (post_num : Z)
    (caption : option string) (slides : list string) : list action :=
  SendMessage chat_id (PostHeader post_num)
  :: match caption with
     | Some text => [SendMessage chat_id (Caption text)]
     | None => []
     end
  ++ map (SendPhoto chat_id) slides.

(** The text of the caption of a post, when its file is there. *)
Definition caption_of (folder : string) (st : machine) (post_num : Z)
  : option string :=
  let path := posixpath.join folder [main.caption_name post_num] in
  match files st !! path with
  | Some _ => texts st !! path
  | None => None
  end.

(** A slide of a post that is there. *)
Definition slide_of (folder : string) (st : machine) (post_num : Z)
    (p : string) : Prop :=
  is_Some (files st !! p)
  /\ exists slide_index,
       1 <= slide_index
       /\ p = posixpath.join folder [main.slide_name post_num slide_index].

(** A post of which the folder holds the caption or a slide. *)
Definition has_package (folder : string) (st : machine) (post_num : Z)
  : Prop :=
  1 <= post_num
  /\ (is_Some (files st !! posixpath.join folder
                              [main.caption_name post_num])
      \/ exists p, slide_of folder st post_num p).

(** Strings of digits, strings without a character. *)
Definition digits (l : list ascii) : Prop :=
  Forall (fun c => textwrap.digit c = true) l.

Definition no_char (c : ascii) (l : list ascii) : Prop :=
  Forall (fun x => Ascii.eqb x c = false) l.

(** A name of one component: not empty, without a separator. *)
Definition component (name : string) : Prop :=
  name <> "" /\ no_char posixpath.sep (Py.chars name).

(** A file name that [run_workflow] gives to a file of a post. *)
Definition post_of (name : string) (post_num : Z) : Prop :=
  name = main.caption_name post_num
  \/ exists slide_index,
       1 <= slide_index /\ name = main.slide_name post_num slide_index.

(** The slides of a post as [run_workflow_and_reply] finds them, in the
    order it sends them. *)
Definition slides_for (folder : string) (st : machine) (post_num : Z)
  : list string :=
  builtins.sorted (app.glob_slides folder (builtins.format_02d post_num) st).

(** The number of the post a file name belongs to, as
    [run_workflow_and_reply] reads it; 0 where it reads none. *)
Definition number_of (name : string) : Z :=
  match and_then (app.post_field name) builtins.int with
  | Return n => n
  | Throw _ => 0
  end.
(* ===================================================================== *)
(** * Properties *)
(* ===================================================================== *)

(** ** Numbers *)

Lemma gt0_spec (x : Q) : Py.gt0 x = true <-> (0 < x)%Q.
Proof.
  unfold Py.gt0, Qlt. simpl. rewrite Z.ltb_lt, Z.mul_1_r. reflexivity.
Qed.

(** The quotient of a pixel count by a positive width, as [int] sees it. *)
Lemma int_div (pixels : Z) (w : Q) :
  (0 < w)%Q ->
  Py.int (inject_Z pixels / w) = Z.quot (pixels * Z.pos (Qden w)) (Qnum w).
Proof.
  destruct w as [[|n|n] d]; unfold Qlt; simpl; try lia. intros _.
  unfold Py.int, Qdiv, Qmult, Qinv. simpl. f_equal.
Qed.

Lemma spacings : compositor.title_spacing = 16 /\ compositor.exp_spacing = 9.
Proof. split; reflexivity. Qed.

(** ** posixpath and the fonts directory *)

Lemma append_cons (c : ascii) (a b : string) :
  String c a +:+ b = String c (a +:+ b).
Proof. reflexivity. Qed.

Lemma endswith_sep_fonts (p : string) :
  posixpath.endswith_sep (p +:+ "fonts") = false.
Proof.
  induction p as [|c p IH]; [reflexivity|].
  rewrite append_cons. simpl. rewrite IH.
  destruct (p +:+ "fonts") eqn:E; [|reflexivity].
  destruct p; discriminate.
Qed.

Lemma append_assoc (a b c : string) : (a +:+ b) +:+ c = a +:+ (b +:+ c).
Proof.
  induction a as [|x a IH]; [reflexivity|].
  by rewrite !append_cons, IH.
Qed.

(** The fonts directory is a path that ends in [fonts], whatever the
    module's file name is. *)
Lemma project_font_dir_fonts (file : string) :
  exists p, compositor.project_font_dir file = p +:+ "fonts".
Proof.
  unfold compositor.project_font_dir, posixpath.join. simpl.
  set (up := posixpath.join2 (posixpath.join2 _ "..") "..").
  unfold posixpath.join2 at 1. simpl.
  destruct (_ || _).
  - by exists up.
  - exists (up +:+ "/"). by rewrite append_assoc.
Qed.

(** A candidate that is a plain name is looked up inside the fonts
    directory. *)
Lemma join_font_dir (file font_name : string) :
  posixpath.startswith_sep font_name = false ->
  posixpath.join (compositor.project_font_dir file) [font_name]
  = compositor.project_font_dir file +:+ "/" +:+ font_name.
Proof.
  intros Hrel. destruct (project_font_dir_fonts file) as [p Hp].
  unfold posixpath.join. simpl. unfold posixpath.join2.
  rewrite Hrel, Hp, endswith_sep_fonts.
  destruct p; reflexivity.
Qed.

(** ** The model on known inputs *)

(** The example of the docstring of [TextWrapper._split]. *)
Example split_docstring :
  map Py.str
      (textwrap._split (Py.chars "Look, goof-ball -- use the -b option!"))
  = ["Look,"; " "; "goof-"; "ball"; " "; "--"; " "; "use"; " "; "the"; " ";
     "-b"; " "; "option!"].
Proof. reflexivity. Qed.

Example wrap_hello :
  textwrap.wrap "Hello there -- you goof-ball, use the -b option!" 12
  = Ok ["Hello there"; "-- you goof-"; "ball, use"; "the -b"; "option!"].
Proof. reflexivity. Qed.

Example dirname_examples :
  map posixpath.dirname ["/a/b/c.py"; "c.py"; "/c.py"; "//c.py"; "a//c.py"; "a/b/"]
  = ["/a/b"; ""; "/"; "//"; "a"; "a/b"].
Proof. reflexivity. Qed.

Example project_font_dir_example :
  compositor.project_font_dir "/app/src/image_compositor/compositor.py"
  = "/app/src/image_compositor/../../fonts".
Proof. reflexivity. Qed.

(** The test at the end of the module: the overlay on a gray background. *)
Example module_test_overlay :
  let r :=
    compositor.add_text_to_image "test_image_google.png" "The Market Reacts"
      "Investors are cautiously optimistic following the Fed's announcement."
      "test_image_with_text.png" demo.w0 in
  r.1 = Ok true
  /\ stdout r.2
     = [FontFound (demo.fonts +:+ "/Inter-Bold.ttf");
        FontFound (demo.fonts +:+ "/Inter-Regular.ttf");
        OverlaySaved "test_image_with_text.png"].
Proof. split; vm_compute; reflexivity. Qed.

Example module_test_headline :
  let r :=
    compositor.create_branded_headline_slide
      "Central Bank Signals Potential Interest Rate Hike Next Quarter."
      "test_headline_slide.png" demo.w0 in
  r.1 = Ok true
  /\ stdout r.2
     = [FontFound (demo.fonts +:+ "/PlayfairDisplay-ExtraBold.ttf");
        FontFound (demo.fonts +:+ "/Inter-Bold.ttf");
        HeadlineSaved "test_headline_slide.png"].
Proof. split; vm_compute; reflexivity. Qed.

(** An output directory that cannot be written: the failure is the return
    value. *)
Example read_only_overlay :
  (compositor.add_text_to_image "test_image_google.png" "Hi" "there"
     "out.png" demo.read_only).1 = Ok false.
Proof. vm_compute. reflexivity. Qed.

(** ** textwrap: no line is longer than the width *)

Module textwrap_facts.

Import textwrap.

Lemma rfind_hyphen_lt chunk stop : rfind_hyphen chunk stop < Z.of_nat stop.
Proof.
  revert chunk. induction stop as [|n IH]; intros [|c cs]; simpl; try lia.
  specialize (IH cs). destruct (0 <=? _) eqn:E; [lia|]. destruct (Ascii.eqb _ _); lia.
Qed.

Lemma len_app (a b : str) : len (a ++ b) = len a + len b.
Proof. unfold len. rewrite length_app. lia. Qed.

Lemma concat_snoc (l : list str) (x : str) : concat (l ++ [x]) = concat l ++ x.
Proof. rewrite concat_app. simpl. by rewrite app_nil_r. Qed.

Lemma fill_line_fits width chunks cur_line cur_len :
  cur_len = len (concat cur_line) -> cur_len <= width ->
  let r := fill_line width chunks cur_line cur_len in
  r.1.2 = len (concat r.1.1) /\ r.1.2 <= width.
Proof.
  revert cur_line cur_len. induction chunks as [|c cs IH]; intros cl n Hn Hle; simpl.
  - done.
  - destruct (n + len c <=? width) eqn:E; simpl; [|done].
    apply IH; [|by apply Z.leb_le].
    rewrite concat_snoc, len_app. lia.
Qed.

Lemma handle_long_word_fits chunks cur_line cur_len width :
  1 <= width -> cur_len = len (concat cur_line) -> cur_len <= width ->
  len (concat (_handle_long_word chunks cur_line cur_len width).2) <= width.
Proof.
  intros Hw Hn Hle. unfold _handle_long_word.
  assert (Hsl : (width <? 1) = false) by (apply Z.ltb_ge; lia). rewrite Hsl.
  destruct chunks as [|c cs]; simpl; [lia|].
  set (e := if _ <? len c then _ else _).
  assert (He : e <= width - cur_len).
  { subst e. destruct (_ <? len c); [|lia]. destruct (_ && _); [|lia].
    pose proof (rfind_hyphen_lt c (Z.to_nat (width - cur_len))). lia. }
  rewrite concat_snoc, len_app. unfold len at 2. rewrite length_take. lia.
Qed.

Lemma removelast_concat_le (l : list str) :
  len (concat (removelast l)) <= len (concat l).
Proof.
  induction l as [|x [|y l] IH]; simpl in *; [lia| |].
  - unfold len. simpl. lia.
  - rewrite !len_app in *. simpl in IH. lia.
Qed.

Lemma drop_trailing_blank_le cur_line :
  len (concat (drop_trailing_blank cur_line)) <= len (concat cur_line).
Proof.
  unfold drop_trailing_blank. destruct (last cur_line) as [c|]; [|lia].
  destruct (blank c); [apply removelast_concat_le | lia].
Qed.

Lemma wrap_line_fits width chunks started :
  1 <= width -> len (concat (wrap_line width chunks started).1) <= width.
Proof.
  intros Hw. unfold wrap_line.
  set (chs0 := match chunks with [] => _ | _ => _ end).
  pose proof (fill_line_fits width chs0 [] 0 eq_refl ltac:(lia)) as Hf.
  destruct (fill_line width chs0 [] 0) as [[cl n] chs]. simpl in Hf.
  destruct Hf as [Hn Hle].
  assert (H : len (concat (match chs with
            | c :: _ => if width <? len c then _handle_long_word chs cl n width
                        else (chs, cl)
            | [] => (chs, cl) end).2) <= width).
  { destruct chs as [|c cs]; cbv beta iota; [simpl; lia|].
    destruct (width <? len c); [by apply handle_long_word_fits | simpl; lia]. }
  destruct (match chs with [] => _ | _ => _ end) as [chs' cl']. simpl in *.
  pose proof (drop_trailing_blank_le cl'). lia.
Qed.

Lemma wrap_loop_fits width chunks lines :
  Forall (fun line => len line <= Z.pos width) lines ->
  Forall (fun line => len line <= Z.pos width) (wrap_loop width chunks lines).
Proof.
  funelim (wrap_loop width chunks lines); intros Hl; simp wrap_loop.
  apply H. unfold append_line.
  pose proof (wrap_line_fits (Z.pos width) (chunk :: chunks) (nonempty lines) ltac:(lia)) as Hf.
  destruct (wrap_line _ _ _).1; [done|].
  apply Forall_app; split; [done|]. by constructor.
Qed.

Lemma length_str (l : list ascii) : String.length (Py.str l) = List.length l.
Proof. induction l as [|c l IH]; simpl; [reflexivity | by rewrite IH]. Qed.

(** [wrap] returns, for every positive width, and each of its lines has at
    most [width] characters. *)
Lemma wrap_fits (text : string) (width : Z) :
  1 <= width ->
  exists lines,
    wrap text width = Ok lines
    /\ Forall (fun line => Z.of_nat (String.length line) <= width) lines.
Proof.
  intros Hw. unfold wrap, _wrap_chunks.
  assert (E : (width <=? 0) = false) by (apply Z.leb_gt; lia). rewrite E.
  eexists; split; [reflexivity|].
  apply Forall_map.
  pose proof (wrap_loop_fits (Z.to_pos width)
                (_split_chunks (Py.chars text)) [] ltac:(constructor)) as H.
  eapply Forall_impl; [exact H|].
  intros line Hl. simpl in *. rewrite length_str. unfold len in Hl. lia.
Qed.

Lemma wrap_invalid_width (text : string) (width : Z) :
  width <= 0 -> wrap text width = Raise ValueError.
Proof.
  intros Hw. unfold wrap, _wrap_chunks.
  assert (E : (width <=? 0) = true) by (apply Z.leb_le; lia). by rewrite E.
Qed.

(** Every match of [wordsep_re] takes a character, so the length of the
    text is fuel enough for [split_from]: the chunks are the whole text. *)
Lemma wordsep_pos (before : str) (c : ascii) (s : str) :
  (1 <= wordsep before (c :: s))%nat.
Proof.
  unfold wordsep. destruct (whitespace c) eqn:Ec.
  - simpl. rewrite Ec. lia.
  - destruct (if after_word_punct before then _ else _) as [n|] eqn:E; [|lia].
    destruct (after_word_punct before); [|discriminate].
    unfold em_dash in E. destruct (_ && _) eqn:Eb; [|discriminate].
    apply andb_prop in Eb as [E2 _]. apply Nat.leb_le in E2.
    injection E as <-. change (hyphens (c :: s)) with
      (if Ascii.eqb c hyphen then S (hyphens s) else O) in E2. lia.
Qed.

Lemma split_from_concat (fuel : nat) (before s : str) :
  (List.length s <= fuel)%nat -> concat (split_from fuel before s) = s.
Proof.
  revert before s. induction fuel as [|fuel IH]; intros before s Hlen.
  - by destruct s; [|simpl in Hlen; lia].
  - destruct s as [|c s]; [done|]. cbn [split_from]. cbv zeta.
    pose proof (wordsep_pos before c s) as Hn.
    cbn [concat]. rewrite IH; [apply take_drop|].
    rewrite length_drop. simpl in *. lia.
Qed.

Lemma split_concat (text : str) : concat (_split text) = text.
Proof. by apply split_from_concat. Qed.

End textwrap_facts.

(** ** textwrap: words that fit are kept whole *)

Module words_facts.

Import textwrap.

Lemma words_white (a b : str) : white a -> words (a ++ b) = words b.
Proof.
  induction 1 as [|c a Hc _ IH]; [reflexivity|]. simpl. by rewrite Hc.
Qed.

Lemma starts_word_app (a b : str) :
  a <> [] -> starts_word (a ++ b) = starts_word a.
Proof. by destruct a. Qed.

Lemma words_wordy (a b : str) :
  wordy a -> starts_word b = false -> words (a ++ b) = a :: words b.
Proof.
  intros [Hne Ha] Hb. induction Ha as [|c a Hc Ha IH]; [done|].
  simpl. rewrite Hc. destruct a as [|c' a].
  - simpl. by rewrite Hb.
  - rewrite starts_word_app by done. simpl starts_word.
    inversion Ha as [|? ? Hc' _]; subst. rewrite Hc'. simpl negb. cbv iota.
    rewrite IH by done. reflexivity.
Qed.

Lemma words_white_end (a b : str) : white b -> words (a ++ b) = words a.
Proof.
  intros Hb. induction a as [|c a IH].
  - simpl. rewrite <- (app_nil_r b). by rewrite words_white.
  - simpl. rewrite IH.
    assert (Hs : starts_word (a ++ b) = starts_word a).
    { destruct a as [|c' a]; [|done]. simpl.
      destruct Hb as [|x b Hx _]; [done|]. simpl. by rewrite Hx. }
    by rewrite Hs.
Qed.

Lemma words_white_nil (a : str) : white a -> words a = [].
Proof. intros H. rewrite <- (app_nil_r a). by rewrite words_white. Qed.

Lemma words_wordy_one (a : str) : wordy a -> words a = [a].
Proof. intros H. rewrite <- (app_nil_r a) at 1. by rewrite words_wordy. Qed.

Lemma runs_words (chunks : list str) :
  runs chunks -> words (concat chunks) = chunk_words chunks.
Proof.
  unfold chunk_words. induction 1 as [|c cs Hne Hw Hr IH|c cs Hw Hs Hr IH]; simpl.
  - reflexivity.
  - by rewrite words_white, (words_white_nil c), IH.
  - by rewrite words_wordy, (words_wordy_one c), IH.
Qed.

Lemma runs_tail chunk chunks : runs (chunk :: chunks) -> runs chunks.
Proof. by inversion 1. Qed.

Lemma runs_app_r (a b : list str) : runs (a ++ b) -> runs b.
Proof. induction a as [|c a IH]; [done|]. intros H. apply IH. by eapply runs_tail. Qed.

Lemma starts_word_concat_app (a b : list str) :
  starts_word (concat (a ++ b)) = false ->
  Forall (fun c => c <> []) a ->
  a <> [] -> starts_word (concat a) = false.
Proof.
  intros H Hne Ha. destruct a as [|c a]; [done|].
  inversion Hne as [|? ? Hc _]; subst. simpl in *.
  rewrite starts_word_app in H by done.
  by rewrite starts_word_app.
Qed.

Lemma runs_nonempty (chunks : list str) :
  runs chunks -> Forall (fun c => c <> []) chunks.
Proof.
  induction 1 as [|c cs Hne Hw Hr IH|c cs [Hne Hw] Hs Hr IH]; by constructor.
Qed.

Lemma runs_app_l (a b : list str) : runs (a ++ b) -> runs a.
Proof.
  induction a as [|c a IH]; [constructor|]. simpl. intros H.
  inversion H as [|? ? Hne Hw Hr|? ? Hw Hs Hr]; subst.
  - apply runs_white; auto.
  - apply runs_word; auto.
    destruct a as [|c' a]; [done|].
    apply (starts_word_concat_app _ b Hs); [|done].
    apply runs_nonempty. by apply IH.
Qed.


Lemma plain_isspace (c : ascii) :
  plain c = true -> isspace c = true -> whitespace c = true.
Proof.
  unfold plain. intros H Hs. apply andb_prop in H as [_ H].
  by rewrite Hs in H.
Qed.

Lemma plain_not_hyphen (c : ascii) :
  plain c = true -> Ascii.eqb c hyphen = false.
Proof.
  unfold plain. intros H. apply andb_prop in H as [H _].
  by apply negb_true_iff in H.
Qed.

Lemma blank_white (chunk : str) :
  Forall (fun c => plain c = true) chunk -> blank chunk = true -> white chunk.
Proof.
  unfold blank, white. induction 1 as [|c cs Hc _ IH]; simpl; [constructor|].
  intros H. apply andb_prop in H as [H1 H2].
  constructor; [by apply plain_isspace | by apply IH].
Qed.

Lemma white_not_wordy (chunk : str) : white chunk -> ~ wordy chunk.
Proof.
  intros Hw [Hne Hn]. destruct chunk as [|c cs]; [done|].
  inversion Hw; inversion Hn; subst. congruence.
Qed.

Lemma rfind_hyphen_plain (chunk : str) (stop : nat) :
  Forall (fun c => plain c = true) chunk -> rfind_hyphen chunk stop = -1.
Proof.
  intros H. revert stop. induction H as [|c cs Hc _ IH]; intros [|n]; simpl;
    try reflexivity.
  rewrite IH. simpl. by rewrite (plain_not_hyphen _ Hc).
Qed.

Lemma fill_line_split width (chunks cur_line : list str) cur_len :
  exists taken rest n,
    chunks = taken ++ rest
    /\ fill_line width chunks cur_line cur_len = (cur_line ++ taken, n, rest).
Proof.
  revert cur_line cur_len. induction chunks as [|c cs IH]; intros cl n; simpl.
  - exists [], [], n. by rewrite !app_nil_r.
  - destruct (_ <=? _).
    + destruct (IH (cl ++ [c]) (n + len c)) as (taken & rest & n' & -> & ->).
      exists (c :: taken), rest, n'. by rewrite <- app_assoc.
    + exists [], (c :: cs), n. by rewrite !app_nil_r.
Qed.

Lemma chunk_words_app (a b : list str) :
  chunk_words (a ++ b) = chunk_words a ++ chunk_words b.
Proof. unfold chunk_words. by rewrite map_app, concat_app. Qed.

Lemma drop_trailing_blank_words (cur_line : list str) :
  plain_chunks cur_line ->
  words (concat (drop_trailing_blank cur_line)) = words (concat cur_line).
Proof.
  intros Hp. unfold drop_trailing_blank.
  destruct (last cur_line) as [b|] eqn:El; [|done].
  destruct (blank b) eqn:Eb; [|done].
  apply last_Some in El as [l' ->].
  rewrite removelast_last, concat_app. simpl. rewrite app_nil_r.
  symmetry. apply words_white_end. apply blank_white; [|done].
  apply Forall_app in Hp as [_ Hp]. by inversion Hp.
Qed.

(** One round of the loop, on chunks whose words all fit: the line takes
    whole chunks, and what is not put on the line stays to be wrapped. *)
Lemma wrap_line_words width (chunks : list str) started :
  1 <= width -> runs chunks -> plain_chunks chunks -> fits width chunks ->
  let r := wrap_line width chunks started in
  runs r.2 /\ plain_chunks r.2 /\ fits width r.2
  /\ words (concat r.1) ++ chunk_words r.2 = chunk_words chunks.
Proof.
  intros Hw Hr Hp Hf. unfold wrap_line.
  (* a blank chunk at the head of a line *)
  set (chunks0 := match chunks with [] => _ | _ => _ end).
  assert (H0 : runs chunks0 /\ plain_chunks chunks0 /\ fits width chunks0
               /\ chunk_words chunks0 = chunk_words chunks).
  { subst chunks0. destruct chunks as [|c cs]; [done|].
    destruct (blank c && started) eqn:Eb; [|done].
    apply andb_prop in Eb as [Eb _].
    inversion Hp; inversion Hf; subst.
    repeat split; [by eapply runs_tail | done | done |].
    unfold chunk_words. simpl. rewrite (words_white_nil c); [done|].
    by apply blank_white. }
  clearbody chunks0. destruct H0 as (Hr0 & Hp0 & Hf0 & <-).
  clear chunks Hr Hp Hf.
  (* the chunks that fit *)
  pose proof (textwrap_facts.fill_line_fits width chunks0 [] 0 eq_refl
                ltac:(lia)) as Hfit.
  destruct (fill_line_split width chunks0 [] 0)
    as (taken & rest & n & -> & Efill).
  rewrite Efill in *. simpl in Efill, Hfit. destruct Hfit as [Hn Hle].
  apply Forall_app in Hp0 as [Hpt Hpr]. apply Forall_app in Hf0 as [Hft Hfr].
  pose proof (runs_app_l _ _ Hr0) as Hrt. pose proof (runs_app_r _ _ Hr0) as Hrr.
  rewrite chunk_words_app, <- (runs_words taken) by done.
  (* a chunk longer than the width is whitespace *)
  assert (Hlong : forall c tail, rest = c :: tail -> (width <? len c) = true ->
            let r := _handle_long_word rest taken n width in
            runs r.1 /\ plain_chunks r.1 /\ fits width r.1
            /\ chunk_words r.1 = chunk_words rest
            /\ plain_chunks r.2
            /\ words (concat r.2) = words (concat taken)).
  { intros c tail -> Hc. apply Z.ltb_lt in Hc.
    inversion Hpr as [|? ? Hpc Hptl]; inversion Hfr as [|? ? Hfc Hftl]; subst.
    assert (Hwc : white c).
    { inversion Hrr as [|? ? ? Hwh _|? ? Hwd _ _]; subst; [done|].
      specialize (Hfc Hwd). lia. }
    unfold _handle_long_word.
    assert (Hsl : (width <? 1) = false) by (apply Z.ltb_ge; lia). rewrite Hsl.
    rewrite (rfind_hyphen_plain c) by done. simpl andb. cbv iota.
    match goal with
    | |- context [if ?b then ?x else ?x] =>
        replace (if b then x else x) with x by (by destruct b);
        set (e := Z.to_nat x);
        assert (He : (e < List.length c)%nat) by (unfold len in *; lia)
    end.
    cbn [fst snd].
    assert (Hdrop : drop e c <> []).
    { intros E. apply (f_equal List.length) in E.
      rewrite length_drop in E. simpl in E. lia. }
    repeat split.
    - apply runs_white; [done | by apply Forall_drop | by eapply runs_tail].
    - constructor; [by apply Forall_drop | done].
    - constructor; [|done]. intros Hwd. exfalso.
      eapply white_not_wordy; [|exact Hwd]. by apply Forall_drop.
    - unfold chunk_words. simpl.
      rewrite (words_white_nil c), (words_white_nil (drop _ c));
        [done | by apply Forall_drop | done].
    - apply Forall_app. split; [done|]. constructor; [|done].
      by apply Forall_take.
    - rewrite concat_app. simpl. rewrite app_nil_r.
      apply words_white_end. by apply Forall_take. }
  destruct rest as [|c tail].
  - cbn [fst snd]. change ([] ++ taken) with taken.
    rewrite drop_trailing_blank_words by done.
    repeat split; try done.
  - destruct (width <? len c) eqn:Ec.
    + destruct (Hlong c tail eq_refl Ec) as (H1 & H2 & H3 & H4 & H5 & H6).
      change ([] ++ taken) with taken.
      destruct (_handle_long_word _ _ _ _) as [chunks' cur_line'].
      cbn [fst snd] in *.
      rewrite drop_trailing_blank_words, H6, H4 by done. by repeat split.
    + cbn [fst snd]. change ([] ++ taken) with taken.
      rewrite drop_trailing_blank_words by done.
      by repeat split.
Qed.


Lemma append_line_words (lines cur_line : list str) :
  concat (map words (append_line lines cur_line))
  = concat (map words lines) ++ words (concat cur_line).
Proof.
  unfold append_line. destruct cur_line as [|c cl].
  - simpl. by rewrite app_nil_r.
  - rewrite map_app, concat_app. simpl. by rewrite app_nil_r.
Qed.

(** The loop, on chunks whose words all fit: the words of the lines are
    the words of the chunks. *)
Lemma wrap_loop_words width (chunks lines : list str) :
  runs chunks -> plain_chunks chunks -> fits (Z.pos width) chunks ->
  concat (map words (wrap_loop width chunks lines))
  = concat (map words lines) ++ chunk_words chunks.
Proof.
  funelim (wrap_loop width chunks lines); intros Hr Hp Hf; simp wrap_loop.
  - unfold chunk_words. simpl. by rewrite app_nil_r.
  - destruct (wrap_line_words (Z.pos width) (chunk :: chunks) (nonempty lines)
                ltac:(lia) Hr Hp Hf) as (Hr' & Hp' & Hf' & Hw).
    rewrite H by done. rewrite append_line_words, <- app_assoc. by rewrite Hw.
Qed.

(** *** The chunks of a text without hyphens *)

Lemma whitespaces_take (s : str) : white (take (whitespaces s) s).
Proof.
  induction s as [|c s IH]; simpl; [constructor|].
  destruct (whitespace c) eqn:E; simpl; by constructor.
Qed.

Lemma nonwhites_take (s : str) :
  Forall (fun c => whitespace c = false) (take (nonwhites s) s).
Proof.
  induction s as [|c s IH]; simpl; [constructor|].
  destruct (whitespace c) eqn:E; simpl; by constructor.
Qed.

Lemma nonwhites_drop (s : str) : starts_word (drop (nonwhites s) s) = false.
Proof.
  induction s as [|c s IH]; simpl; [done|].
  destruct (whitespace c) eqn:E; simpl; [by rewrite E | done].
Qed.

Lemma em_dash_plain (c : ascii) (s : str) :
  plain c = true -> em_dash (c :: s) = None.
Proof.
  intros Hc. unfold em_dash. simpl. by rewrite (plain_not_hyphen _ Hc).
Qed.

Lemma word_end_plain (before s : str) :
  Forall (fun c => plain c = true) s -> word_end before s = nonwhites s.
Proof.
  intros H. revert before. induction H as [|c s Hc Hs IH]; intros before.
  - simpl. by destruct before as [|? [|? ?]].
  - cbn [word_end nonwhites].
    assert (Hh : hyphenated before (c :: s) = false).
    { unfold hyphenated. by rewrite (plain_not_hyphen _ Hc). }
    rewrite Hh, (em_dash_plain c s Hc).
    destruct (whitespace c); [done|].
    rewrite andb_false_r. by rewrite IH.
Qed.

Lemma wordsep_plain (before : str) (c : ascii) (s : str) :
  Forall (fun c => plain c = true) (c :: s) ->
  wordsep before (c :: s)
  = if whitespace c then whitespaces (c :: s) else nonwhites (c :: s).
Proof.
  intros H. inversion H as [|? ? Hc Hs]; subst.
  unfold wordsep. rewrite (em_dash_plain c s Hc).
  destruct (whitespace c) eqn:E; [done|].
  simpl nonwhites. rewrite E.
  destruct (after_word_punct before); by rewrite word_end_plain.
Qed.

Lemma split_from_runs (fuel : nat) (before s : str) :
  (List.length s <= fuel)%nat -> Forall (fun c => plain c = true) s ->
  runs (split_from fuel before s) /\ concat (split_from fuel before s) = s.
Proof.
  revert before s. induction fuel as [|fuel IH]; intros before s Hlen Hp.
  - destruct s; [|simpl in Hlen; lia]. split; [constructor | done].
  - destruct s as [|c s]; [split; [constructor | done]|].
    cbn [split_from]. cbv zeta. rewrite wordsep_plain by done.
    destruct (whitespace c) eqn:Ec.
    + set (n := whitespaces (c :: s)).
      assert (Hn : (1 <= n)%nat) by (subst n; simpl; rewrite Ec; lia).
      destruct (IH (rev (take n (c :: s)) ++ before) (drop n (c :: s)))
        as [Hr Hc]; [rewrite length_drop; simpl in *; lia | by apply Forall_drop |].
      split.
      * apply runs_white; [|apply whitespaces_take | done].
        destruct n; [lia | done].
      * simpl. rewrite Hc. apply take_drop.
    + set (n := nonwhites (c :: s)).
      assert (Hn : (1 <= n)%nat) by (subst n; simpl; rewrite Ec; lia).
      destruct (IH (rev (take n (c :: s)) ++ before) (drop n (c :: s)))
        as [Hr Hc]; [rewrite length_drop; simpl in *; lia | by apply Forall_drop |].
      split.
      * apply runs_word; [| rewrite Hc; apply nonwhites_drop | done].
        split; [destruct n; [lia | done] | apply nonwhites_take].
      * simpl. rewrite Hc. apply take_drop.
Qed.

(** *** Whitespace munging *)

Lemma munge_char_plain (c : ascii) :
  plain c = true -> plain (if whitespace c then space else c) = true.
Proof. intros H. by destruct (whitespace c). Qed.

Lemma expandtabs_plain (col : nat) (text : str) :
  Forall (fun c => plain c = true) text ->
  Forall (fun c => plain c = true) (expandtabs 8 col text).
Proof.
  intros H. revert col. induction H as [|c s Hc _ IH]; intros col; simpl;
    [constructor|].
  destruct (Ascii.eqb c _).
  - apply Forall_app. split; [|apply IH].
    apply List.Forall_forall. intros x Hx. apply repeat_spec in Hx. by subst.
  - destruct (_ || _); constructor; auto.
Qed.

Lemma munge_plain (text : str) :
  Forall (fun c => plain c = true) text ->
  Forall (fun c => plain c = true) (_munge_whitespace text).
Proof.
  intros H. unfold _munge_whitespace. apply Forall_map.
  eapply Forall_impl; [by apply expandtabs_plain|].
  intros c Hc. by apply munge_char_plain.
Qed.

Lemma munge_from (col : nat) (text : str) :
  let munged :=
    map (fun c => if whitespace c then space else c) (expandtabs 8 col text) in
  starts_word munged = starts_word text /\ words munged = words text.
Proof.
  revert col. induction text as [|c s IH]; intros col; [done|].
  cbn [expandtabs].
  destruct (Ascii.eqb c "009") eqn:Etab.
  - apply Ascii.eqb_eq in Etab. subst c.
    change (0 <? 8)%nat with true. cbv iota.
    set (incr := (8 - col mod 8)%nat).
    assert (Hincr : exists k, incr = S k).
    { pose proof (Nat.mod_upper_bound col 8 ltac:(lia)).
      exists (incr - 1)%nat. subst incr. lia. }
    destruct Hincr as [k ->]. cbv zeta.
    destruct (IH (col + S k)%nat) as [_ IHw]. cbv zeta in IHw.
    rewrite map_app. split; [reflexivity|].
    rewrite words_white; [exact IHw|].
    apply Forall_map. apply List.Forall_forall. intros x Hx.
    apply repeat_spec in Hx. by subst.
  - destruct (Ascii.eqb c "010" || Ascii.eqb c "013") eqn:Enl.
    + assert (Hws : whitespace c = true).
      { apply orb_prop in Enl as [E | E]; apply Ascii.eqb_eq in E; by subst. }
      destruct (IH 0%nat) as [_ IHw]. cbv zeta in *.
      cbn [map starts_word words]. rewrite Hws. cbn [negb].
      change (whitespace space) with true. cbv iota. by split.
    + destruct (IH (S col)) as [IHs IHw]. cbv zeta in *.
      cbn [map starts_word words].
      destruct (whitespace c) eqn:Ews.
      * change (whitespace space) with true. cbn [negb]. cbv iota. by split.
      * rewrite Ews. cbn [negb]. rewrite IHs, IHw. by split.
Qed.

Lemma munge_words (text : str) : words (_munge_whitespace text) = words text.
Proof. apply (munge_from 0 text). Qed.

Lemma fits_of_words width (chunks : list str) :
  Forall (fun w => len w <= width) (chunk_words chunks) -> fits width chunks.
Proof.
  unfold chunk_words, fits. induction chunks as [|c cs IH]; simpl;
    [constructor|].
  intros H. apply Forall_app in H as [Hc Hcs].
  constructor; [|by apply IH].
  intros Hw. rewrite (words_wordy_one c Hw) in Hc. by inversion Hc.
Qed.

Lemma chars_str (l : list ascii) : Py.chars (Py.str l) = l.
Proof. apply list_ascii_of_string_of_list_ascii. Qed.

(** A text without hyphens whose words all fit the width: the lines fit
    the width, and their words are the words of the text, in order. *)
Lemma wrap_words (text : string) (width : Z) :
  1 <= width ->
  Forall (fun c => plain c = true) (Py.chars text) ->
  Forall (fun w => Z.of_nat (String.length w) <= width) (words_of text) ->
  exists lines,
    wrap text width = Ok lines
    /\ Forall (fun line => Z.of_nat (String.length line) <= width) lines
    /\ concat (map words_of lines) = words_of text.
Proof.
  intros Hw Hp Hfit.
  destruct (textwrap_facts.wrap_fits text width Hw) as (lines & Hwrap & Hlen).
  exists lines. split; [exact Hwrap|]. split; [exact Hlen|].
  unfold wrap, _wrap_chunks in Hwrap.
  assert (E : (width <=? 0) = false) by (apply Z.leb_gt; lia).
  rewrite E in Hwrap. injection Hwrap as <-.
  set (chunks := _split_chunks (Py.chars text)).
  destruct (split_from_runs (List.length (_munge_whitespace (Py.chars text))) []
              (_munge_whitespace (Py.chars text)) ltac:(lia)
              (munge_plain _ Hp)) as [Hr Hc].
  fold (_split (_munge_whitespace (Py.chars text))) in Hr, Hc.
  fold (_split_chunks (Py.chars text)) in Hr, Hc. fold chunks in Hr, Hc.
  assert (Hcw : chunk_words chunks = words (Py.chars text)).
  { by rewrite <- runs_words, Hc, munge_words. }
  assert (Hpc : plain_chunks chunks).
  { unfold plain_chunks. pose proof (munge_plain _ Hp) as Hm.
    rewrite <- Hc in Hm. clear -Hm.
    induction chunks as [|c cs IH]; [constructor|].
    simpl in Hm. apply Forall_app in Hm as [H1 H2]. constructor; auto. }
  assert (Hf : fits (Z.pos (Z.to_pos width)) chunks).
  { apply fits_of_words. rewrite Hcw. unfold words_of in Hfit.
    rewrite Forall_map in Hfit. eapply Forall_impl; [exact Hfit|].
    intros w Hlw. simpl in Hlw. rewrite textwrap_facts.length_str in Hlw.
    unfold len. lia. }
  pose proof (wrap_loop_words (Z.to_pos width) chunks [] Hr Hpc Hf) as Hwords.
  simpl in Hwords. rewrite Hcw in Hwords.
  unfold words_of. rewrite <- Hwords, map_map.
  rewrite concat_map, map_map. f_equal. apply map_ext.
  intros l. by rewrite chars_str.
Qed.

End words_facts.

(** ** Running a call *)

Lemma bind_ok {A B} (m : M A) (k : A -> M B) w a w1 :
  m w = (Ok a, w1) -> bind m k w = k a w1.
Proof. intros E. unfold bind. by rewrite E. Qed.

Lemma frame_refl w : frame w w.
Proof. by repeat split. Qed.

Lemma frame_trans w1 w2 w3 : frame w1 w2 -> frame w2 w3 -> frame w1 w3.
Proof.
  intros (A1 & B1 & C1) (A2 & B2 & C2). repeat split; congruence.
Qed.

Lemma print_frame msg w : exists w', print msg w = (Ok tt, w') /\ frame w w'.
Proof. eexists; split; [reflexivity|]. by repeat split. Qed.

Lemma frame_font_path w w' n : frame w w' -> font_path w' n = font_path w n.
Proof. intros (_ & _ & E). unfold font_path. by rewrite E. Qed.

Lemma frame_present w w' n : frame w w' -> present w' n <-> present w n.
Proof.
  intros F. unfold present. rewrite (frame_font_path _ _ _ F).
  destruct F as (E & _). by rewrite E.
Qed.

(** ** Font lookup *)

Lemma find_font_loop_first (dir : string) (font_names : list string) (w : world) :
  let probe n := fs w !! posixpath.join dir [n] in
  exists found w',
    compositor.find_font_loop dir font_names w = (Ok found, w')
    /\ frame w w'
    /\ match found with
       | Some font_path =>
           exists before font_name after,
             font_names = before ++ font_name :: after
             /\ font_path = posixpath.join dir [font_name]
             /\ is_Some (probe font_name)
             /\ Forall (fun n => ~ is_Some (probe n)) before
       | None => Forall (fun n => ~ is_Some (probe n)) font_names
       end.
Proof.
  intros probe. induction font_names as [|n names IH].
  - exists None, w. repeat split; constructor.
  - cbn [compositor.find_font_loop]. unfold bind at 1, exists_ at 1.
    destruct (bool_decide _) eqn:E.
    + apply bool_decide_eq_true in E.
      eexists (Some _), _. split; [reflexivity|]. split; [by repeat split|].
      exists [], n, names. repeat split; [done | constructor].
    + apply bool_decide_eq_false in E.
      destruct IH as (found & w' & Hrun & Hf & Hfound).
      exists found, w'. split; [exact Hrun|]. split; [exact Hf|].
      destruct found as [p|].
      * destruct Hfound as (before & m & after & -> & -> & Hm & Hb).
        exists (n :: before), m, after. repeat split; [done|].
        by constructor.
      * by constructor.
Qed.

Lemma find_font_file_run (font_names : list string) (w : world) :
  exists found w',
    compositor._find_font_file font_names w = (Ok found, w')
    /\ frame w w'
    /\ match found with
       | Some path =>
           exists before font_name after,
             font_names = before ++ font_name :: after
             /\ path = font_path w font_name
             /\ present w font_name
             /\ Forall (fun n => ~ present w n) before
       | None => Forall (fun n => ~ present w n) font_names
       end.
Proof.
  unfold compositor._find_font_file, get_file.
  destruct (find_font_loop_first
              (compositor.project_font_dir (module_file w)) font_names w)
    as (found & w' & Hrun & Hf & Hfound).
  unfold bind at 1. unfold bind at 1. rewrite Hrun.
  destruct found as [p|].
  - exists (Some p), w'. repeat split; try apply Hf. exact Hfound.
  - destruct (print_frame (FontWarning font_names) w') as (w'' & Hp & Hf').
    unfold bind at 1. rewrite Hp.
    exists None, w''. split; [reflexivity|]. split; [by eapply frame_trans|].
    exact Hfound.
Qed.

(** The lookups of the entry points: one candidate, after some printing. *)
Lemma find_font_file_one (font_name : string) (w0 w : world) :
  frame w0 w ->
  exists w',
    compositor._find_font_file [font_name] w
    = (Ok (match fs w0 !! font_path w0 font_name with
           | Some _ => Some (font_path w0 font_name)
           | None => None
           end), w')
    /\ frame w0 w'.
Proof.
  intros F.
  destruct (find_font_file_run [font_name] w)
    as (found & w' & Hrun & Hf & Hfound).
  exists w'. split; [|by eapply frame_trans]. rewrite Hrun. repeat f_equal.
  assert (Hp : present w font_name <-> is_Some (fs w0 !! font_path w0 font_name)).
  { by rewrite (frame_present _ _ _ F). }
  rewrite <- (frame_font_path _ _ font_name F).
  destruct found as [p|].
  - destruct Hfound as (before & n & after & Hl & -> & Hn & Hb).
    destruct before as [|b [|? ?]]; try discriminate.
    injection Hl as <-. apply Hp in Hn. destruct Hn as [x Hx].
    rewrite (frame_font_path _ _ font_name F) in *. by rewrite Hx.
  - inversion Hfound as [|? ? Hn _]; subst. rewrite Hp in Hn.
    rewrite (frame_font_path _ _ font_name F).
    destruct (fs w0 !! _); [|done]. destruct Hn. by eexists.
Qed.

(** ** The entry points, step by step *)

Lemma font_path_truthy (w : world) (font_name : string) :
  posixpath.startswith_sep font_name = false ->
  Py.truthy (Some (font_path w font_name)) = true.
Proof.
  intros Hrel. unfold font_path. rewrite join_font_dir by done.
  destruct (compositor.project_font_dir (module_file w)); reflexivity.
Qed.

Lemma load_face_absent (f : option file) (sz : Z) :
  ~ is_Some f -> exists e, load_face f sz = Raise e.
Proof.
  destruct f as [x|]; [intros H; destruct H; by eexists|].
  intros _. by eexists.
Qed.

Lemma add_text_to_image_run
    (image_path slide_title slide_text output_path : string) (w : world) :
  let image :=
    overlay_image (fs w !! image_path)
                  (fs w !! font_path w "Inter-Bold.ttf")
                  (fs w !! font_path w "Inter-Regular.ttf")
                  slide_title slide_text in
  exists w',
    compositor.add_text_to_image image_path slide_title slide_text
                                 output_path w
    = (Ok (saved w output_path image).1, w')
    /\ fs w' = (saved w output_path image).2
    /\ writable w' = writable w
    /\ module_file w' = module_file w.
Proof.
  intros image.
  destruct (find_font_file_one "Inter-Bold.ttf" w w (frame_refl w))
    as (w1 & E1 & F1).
  destruct (find_font_file_one "Inter-Regular.ttf" w w1 F1) as (w2 & E2 & F2).
  unfold compositor.add_text_to_image, try_except.
  unfold bind at 1, Image_open at 1.
  subst image. unfold overlay_image.
  destruct (decode (fs w !! image_path)) as [opened|e].
  2: { eexists. split; [reflexivity|]. by repeat split. }
  rewrite (bind_ok _ _ _ _ _ E1), (bind_ok _ _ _ _ _ E2).
  destruct F2 as (Hfs & Hwr & Hmf).
  destruct (fs w !! font_path w "Inter-Bold.ttf") as [title_file|] eqn:Et;
    [|eexists; split; [reflexivity|]; by repeat split].
  rewrite (font_path_truthy w "Inter-Bold.ttf") by reflexivity.
  destruct (fs w !! font_path w "Inter-Regular.ttf") as [exp_file|] eqn:Ee;
    [|destruct (load_face (Some title_file) 80);
      (eexists; split; [reflexivity|]; by repeat split)].
  rewrite (font_path_truthy w "Inter-Regular.ttf") by reflexivity.
  cbn [negb orb]. change (compositor.path_of (Some ?p)) with p.
  unfold bind at 1, truetype at 1. rewrite Hfs, Et.
  destruct (load_face (Some title_file) 80) as [title_font|e];
    [|eexists; split; [reflexivity|]; by repeat split].
  unfold bind at 1, truetype at 1. rewrite Hfs, Ee.
  destruct (load_face (Some exp_file) 45) as [explanation_font|e];
    [|eexists; split; [reflexivity|]; by repeat split].
  unfold bind at 1, lift at 1.
  destruct (compositor.text_layer _ _ _ _ _) as [txt_layer|e];
    [|eexists; split; [reflexivity|]; by repeat split].
  unfold bind at 1, lift at 1.
  destruct (alpha_composite _ _) as [out|e];
    [|eexists; split; [reflexivity|]; by repeat split].
  unfold bind at 1, save at 1, saved. rewrite Hwr.
  destruct (writable w output_path);
    eexists; (split; [reflexivity|]); simpl; by rewrite ?Hfs.
Qed.

Lemma create_branded_headline_slide_run
    (headline_text output_path : string) (w : world) :
  let image :=
    headline_image (fs w !! font_path w "PlayfairDisplay-ExtraBold.ttf")
                   (fs w !! font_path w "Inter-Bold.ttf") headline_text in
  exists w',
    compositor.create_branded_headline_slide headline_text output_path w
    = (Ok (saved w output_path image).1, w')
    /\ fs w' = (saved w output_path image).2
    /\ writable w' = writable w
    /\ module_file w' = module_file w.
Proof.
  intros image.
  destruct (find_font_file_one "PlayfairDisplay-ExtraBold.ttf" w w
              (frame_refl w)) as (w1 & E1 & F1).
  destruct (find_font_file_one "Inter-Bold.ttf" w w1 F1) as (w2 & E2 & F2).
  unfold compositor.create_branded_headline_slide, try_except.
  subst image. unfold headline_image.
  rewrite (bind_ok _ _ _ _ _ E1), (bind_ok _ _ _ _ _ E2).
  destruct F2 as (Hfs & Hwr & Hmf).
  destruct (fs w !! font_path w "PlayfairDisplay-ExtraBold.ttf")
    as [main_file|] eqn:Em;
    [|eexists; split; [reflexivity|]; by repeat split].
  rewrite (font_path_truthy w "PlayfairDisplay-ExtraBold.ttf") by reflexivity.
  destruct (fs w !! font_path w "Inter-Bold.ttf") as [tag_file|] eqn:Et;
    [|destruct (load_face (Some main_file) 80);
      (eexists; split; [reflexivity|]; by repeat split)].
  rewrite (font_path_truthy w "Inter-Bold.ttf") by reflexivity.
  cbn [negb orb]. change (compositor.path_of (Some ?p)) with p.
  unfold bind at 1, truetype at 1. rewrite Hfs, Em.
  destruct (load_face (Some main_file) 80) as [main_font|e];
    [|eexists; split; [reflexivity|]; by repeat split].
  unfold bind at 1, truetype at 1. rewrite Hfs, Et.
  destruct (load_face (Some tag_file) 24) as [tag_font|e];
    [|eexists; split; [reflexivity|]; by repeat split].
  unfold bind at 1, truetype at 1. rewrite Hfs, Et.
  destruct (load_face (Some tag_file) 20) as [footer_font|e];
    [|eexists; split; [reflexivity|]; by repeat split].
  unfold bind at 1, lift at 1.
  destruct (compositor.headline_slide _ _ _ _) as [img|e];
    [|eexists; split; [reflexivity|]; by repeat split].
  unfold bind at 1, save at 1, saved. rewrite Hwr.
  destruct (writable w output_path);
    eexists; (split; [reflexivity|]); simpl; by rewrite ?Hfs.
Qed.

Lemma saved_true (w : world) (path : string) (image : option PIL.image) :
  (saved w path image).1 = true ->
  exists im,
    image = Some im /\ writable w path = true
    /\ (saved w path image).2 = <[path := ImageFile im]> (fs w).
Proof.
  unfold saved. destruct image as [im|]; [|discriminate].
  destruct (writable w path); [|discriminate]. intros _. by exists im.
Qed.

Lemma load_face_ok (f : option file) (sz : Z) (fnt : PIL.font) :
  load_face f sz = Ok fnt ->
  exists face, f = Some (FontFile face) /\ face sz = Some fnt.
Proof.
  destruct f as [[face| |]|]; try discriminate. simpl.
  destruct (face sz) as [g|] eqn:E; [|discriminate].
  intros [= <-]. by exists face.
Qed.

Lemma decode_ok (f : option file) (im : PIL.image) :
  decode f = Ok im -> f = Some (ImageFile im).
Proof. destruct f as [[| |]|]; try discriminate. by intros [= <-]. Qed.

(** What [overlay_image] is made of, when there is one. *)
Lemma overlay_image_some background title_file explanation_file
    slide_title slide_text im :
  overlay_image background title_file explanation_file slide_title slide_text
  = Some im ->
  exists opened title_font explanation_font txt_layer out,
    decode background = Ok opened
    /\ load_face title_file 80 = Ok title_font
    /\ load_face explanation_file 45 = Ok explanation_font
    /\ compositor.text_layer title_font explanation_font
         (PIL.convert PIL.RGBA opened) slide_title slide_text = Ok txt_layer
    /\ alpha_composite (PIL.convert PIL.RGBA opened) txt_layer = Ok out
    /\ im = PIL.convert PIL.RGB out.
Proof.
  unfold overlay_image.
  destruct (decode background) as [opened|]; [|discriminate].
  destruct (load_face title_file 80) as [tf|]; [|discriminate].
  destruct (load_face explanation_file 45) as [ef|]; [|discriminate].
  destruct (compositor.text_layer _ _ _ _ _) as [layer|] eqn:El; [|discriminate].
  destruct (alpha_composite _ _) as [out|] eqn:Ea; [|discriminate].
  intros [= <-]. by exists opened, tf, ef, layer, out.
Qed.

Lemma alpha_composite_ok im1 im2 out :
  alpha_composite im1 im2 = Ok out ->
  PIL.im_mode out = PIL.RGBA /\ PIL.size out = PIL.size im1
  /\ PIL.pixels out = PIL.AlphaComposite (PIL.pixels im1) (PIL.pixels im2).
Proof.
  unfold alpha_composite.
  destruct (PIL.im_mode im1), (PIL.im_mode im2); try discriminate.
  destruct (bool_decide _); [|discriminate]. by intros [= <-].
Qed.

(** ** The vertical stack *)

Module layout_facts.

Import PIL compositor.

Lemma advance_app f spacing (a b : list string) acc :
  advance f spacing (a ++ b) acc = advance f spacing b (advance f spacing a acc).
Proof. unfold advance. apply fold_left_app. Qed.

Lemma advance_cons f spacing (line : string) (lines : list string) acc :
  advance f spacing (line :: lines) acc
  = advance f spacing lines (acc + (line_height f line + spacing)).
Proof. reflexivity. Qed.

Lemma advance_shift f spacing (lines : list string) acc :
  advance f spacing lines acc = acc + advance f spacing lines 0.
Proof.
  revert acc. induction lines as [|line lines IH]; intros acc.
  - unfold advance. simpl. lia.
  - unfold advance in *. simpl.
    rewrite (IH (acc + _)), (IH (0 + _)). lia.
Qed.

Lemma advance_sum f spacing (lines : list string) :
  advance f spacing lines 0
  = fold_right Z.add 0 (map (line_height f) lines)
    + spacing * Z.of_nat (List.length lines).
Proof.
  induction lines as [|line lines IH].
  - unfold advance. simpl. lia.
  - change (advance f spacing (line :: lines) 0)
      with (advance f spacing lines (0 + (line_height f line + spacing))).
    rewrite advance_shift, IH. cbn [map fold_right List.length]. lia.
Qed.

(** A loop over the lines of a block adds the height of the block and one
    more spacing, after the last line. *)
Lemma advance_block f spacing (lines : list string) :
  lines <> [] ->
  advance f spacing lines 0 = block_height f spacing lines + spacing.
Proof.
  intros Hne. rewrite advance_sum. unfold block_height.
  destruct lines as [|line lines]; [done|]. lia.
Qed.

Lemma advance_nonneg f spacing (lines : list string) :
  (forall s, 0 <= line_height f s) -> 0 <= spacing ->
  0 <= advance f spacing lines 0.
Proof.
  intros Hh Hs. rewrite advance_sum.
  assert (0 <= fold_right Z.add 0 (map (line_height f) lines)).
  { induction lines as [|l ls IH]; simpl; [lia|]. specialize (Hh l). lia. }
  lia.
Qed.

Lemma total_height_sum tf ef (wt we : list string) :
  total_height tf ef wt we
  = - title_spacing + advance tf title_spacing wt 0
    + space_between_blocks + advance ef exp_spacing we 0.
Proof.
  unfold total_height.
  rewrite (advance_shift ef), (advance_shift tf). lia.
Qed.

Lemma in_draw_lines f spacing margin (lines : list string) y0 op :
  In op (draw_lines f spacing margin lines y0) ->
  exists before line after,
    lines = before ++ line :: after
    /\ op = text (inject_Z margin, inject_Z (advance f spacing before y0))
                 line f (Named "white") None.
Proof.
  revert y0. induction lines as [|l ls IH]; intros y0; simpl; [done|].
  intros [<- | Hin].
  - by exists [], l, ls.
  - destruct (IH _ Hin) as (before & line & after & -> & ->).
    by exists (l :: before), line, after.
Qed.

Lemma max2_l (a b : Q) : (a <= Py.max2 a b)%Q.
Proof.
  unfold Py.max2. destruct (Qlt_le_dec a b); [by apply Qlt_le_weak|].
  apply Qle_refl.
Qed.

Lemma max2_r (a b : Q) : (b <= Py.max2 a b)%Q.
Proof. unfold Py.max2. destruct (Qlt_le_dec a b); [apply Qle_refl | done]. Qed.

Lemma max_ge (x : Q) (xs : list Q) (y : Q) :
  In y (x :: xs) -> (y <= Py.max x xs)%Q.
Proof.
  unfold Py.max. revert x y. induction xs as [|z zs IH]; intros x y; simpl.
  - intros [<- | []]. apply Qle_refl.
  - intros [<- | [<- | Hin]].
    + eapply Qle_trans; [apply (max2_l x z)|]. apply IH. by left.
    + eapply Qle_trans; [apply (max2_r x z)|]. apply IH. by left.
    + apply IH. by right.
Qed.

(** [max_line_width] is at least the length of every line, each measured
    in the font of its block. *)
Lemma max_line_width_ge tf ef (wt we : list string) f line :
  (f = tf /\ In line wt) \/ (f = ef /\ In line we) ->
  (textlength f line <= max_line_width tf ef wt we)%Q.
Proof.
  intros H. unfold max_line_width.
  assert (Hin : In (textlength f line)
                   (map (textlength tf) wt ++ map (textlength ef) we)).
  { apply in_or_app. destruct H as [[-> H] | [-> H]]; [left | right];
      by apply in_map. }
  destruct (_ ++ _) as [|x xs]; [done|]. by apply max_ge.
Qed.

End layout_facts.

(* ===================================================================== *)
(** * The claims *)
(* ===================================================================== *)

(** ** C7: font lookup *)

(** C7.  [_find_font_file] probes, for each candidate in list order, one
    path: the candidate joined to the directory [../../fonts] taken from
    the directory of the module's own file, [dirname(__file__)].  The
    working directory plays no part: the path is made of the module's
    file name and the candidate alone.  The call returns the path of the
    first candidate present there; with no candidate present it returns
    [None] (there is no other font to fall back on).  It changes no file.
    For a module file in a directory, and a candidate that is a plain
    name, the path probed is that directory, [/../../fonts/] and the
    name. *)
Theorem find_font_file_first_existing (font_names : list string) (w : world) :
  let fonts :=
    posixpath.join (posixpath.dirname (module_file w))
                   [".."; ".."; "fonts"] in
  let probe font_name := posixpath.join fonts [font_name] in
  exists found w',
    compositor._find_font_file font_names w = (Ok found, w')
    /\ frame w w'
    /\ match found with
       | Some path =>
           exists before font_name after,
             font_names = before ++ font_name :: after
             /\ path = probe font_name
             /\ is_Some (fs w !! probe font_name)
             /\ Forall (fun n => fs w !! probe n = None) before
       | None => Forall (fun n => fs w !! probe n = None) font_names
       end
    /\ forall font_name,
         posixpath.startswith_sep font_name = false ->
         posixpath.dirname (module_file w) <> "" ->
         posixpath.endswith_sep (posixpath.dirname (module_file w)) = false ->
         probe font_name
         = posixpath.dirname (module_file w) +:+ "/../../fonts/"
           +:+ font_name.
Proof.
  intros fonts probe.
  destruct (find_font_file_run font_names w) as (found & w' & H1 & H2 & H3).
  exists found, w'. split; [exact H1|]. split; [exact H2|].
  assert (Habsent : forall l, Forall (fun n => ~ present w n) l ->
                              Forall (fun n => fs w !! probe n = None) l).
  { intros l Hl. eapply Forall_impl; [exact Hl|]. intros n Hn. cbv beta in *.
    destruct (fs w !! probe n) eqn:E; [|done].
    destruct Hn. unfold present, font_path, compositor.project_font_dir.
    fold fonts. fold (probe n). rewrite E. by eexists. }
  split.
  - destruct found as [path|].
    + destruct H3 as (before & font_name & after & Hl & Hp & Hpr & Hb).
      exists before, font_name, after. split; [exact Hl|].
      split; [exact Hp|]. split; [exact Hpr | by apply Habsent].
    + by apply Habsent.
  - intros n Hn Hdir Hend. subst probe fonts. cbv beta.
    fold (compositor.project_font_dir (module_file w)).
    rewrite join_font_dir by done.
    unfold compositor.project_font_dir, posixpath.join.
    cbn [fold_left]. unfold posixpath.join2.
    change (posixpath.startswith_sep "..") with false.
    change (posixpath.startswith_sep "fonts") with false. cbv iota.
    destruct (posixpath.dirname (module_file w)) as [|c d] eqn:Ed; [done|].
    change (String.eqb (String c d) "") with false.
    rewrite Hend. cbn [orb].
    assert (Hup : forall p, posixpath.endswith_sep (p +:+ "/..") = false).
    { induction p as [|x p IH]; [reflexivity|].
      rewrite append_cons. cbn [posixpath.endswith_sep]. rewrite IH.
      destruct (p +:+ "/..") eqn:E; [destruct p; discriminate | done]. }
    assert (Hne : forall p, String.eqb (p +:+ "/..") "" = false).
    { intros p. by destruct p. }
    change (String posixpath.sep "..") with "/..".
    rewrite Hne, Hup. cbn [orb].
    change (String posixpath.sep "..") with "/..".
    rewrite Hne, Hup. cbn [orb].
    change (String posixpath.sep "fonts") with "/fonts".
    rewrite !append_assoc. reflexivity.
Qed.

Lemma find_font_file_first_existing_witness :
  posixpath.startswith_sep "Inter-Bold.ttf" = false
  /\ posixpath.dirname (module_file demo.w0) <> ""
  /\ posixpath.endswith_sep (posixpath.dirname (module_file demo.w0)) = false
  /\ posixpath.join
       (posixpath.join (posixpath.dirname (module_file demo.w0))
                       [".."; ".."; "fonts"])
       ["Inter-Bold.ttf"]
     = posixpath.dirname (module_file demo.w0) +:+ "/../../fonts/"
       +:+ "Inter-Bold.ttf".
Proof.
  split; [reflexivity|]. split; [discriminate|]. split; [reflexivity|].
  destruct (find_font_file_first_existing ["Missing.ttf"; "Inter-Bold.ttf"]
              demo.w0) as (found & w' & _ & _ & _ & Hpath).
  by apply Hpath.
Defined.

(** ** C1: an empty body block *)

(** C1, as the specification has it, fails: with the title [Hi] and an
    empty body, the title block is 56 pixels high, but the total stacked
    height is 116 (the 60 pixel gap is added all the same) and the backing
    rectangle is 176 pixels high, not 56 plus padding. *)
Lemma empty_body_keeps_gap :
  let title_font := demo.face 80 in
  let explanation_font := demo.face 45 in
  compositor.wrap_blocks title_font explanation_font 1024 "Hi" ""
  = Ok (["Hi"], [])
  /\ block_height title_font compositor.title_spacing ["Hi"] = 56
  /\ compositor.total_height title_font explanation_font ["Hi"] [] = 116
  /\ compositor.total_height title_font explanation_font ["Hi"] []
     <> block_height title_font compositor.title_spacing ["Hi"]
  /\ (box_height
        (compositor.bg_bbox 81
           (compositor.max_line_width title_font explanation_font ["Hi"] [])
           (compositor.total_height title_font explanation_font ["Hi"] []))
      == 176)%Q.
Proof. repeat split; vm_compute; congruence. Qed.

(** C1, as the code has it.  A loop over a block of zero lines adds
    exactly 0 to the running total.  The inter-block gap is added
    unconditionally: with an empty body and a non-empty title, the total
    stacked height is the height of the title block plus the 60 pixel gap,
    and the backing rectangle is that high plus the padding on both
    sides. *)
Theorem total_height_empty_body
    (title_font explanation_font : PIL.font) (wrapped_title : list string)
    (margin : Z) (max_line_width : Q)
    (Hne : wrapped_title <> []) :
  let title_block :=
    block_height title_font compositor.title_spacing wrapped_title in
  let total :=
    compositor.total_height title_font explanation_font wrapped_title [] in
  (forall acc,
     compositor.advance explanation_font compositor.exp_spacing [] acc = acc)
  /\ total = title_block + compositor.space_between_blocks
  /\ (box_height (compositor.bg_bbox margin max_line_width total)
      == inject_Z (title_block + compositor.space_between_blocks
                   + 2 * compositor.padding))%Q.
Proof.
  intros title_block total.
  assert (Ht : total = title_block + compositor.space_between_blocks).
  { subst total title_block. rewrite layout_facts.total_height_sum.
    rewrite (layout_facts.advance_block _ _ _ Hne).
    unfold compositor.advance. simpl. lia. }
  split; [reflexivity|]. split; [exact Ht|].
  rewrite Ht. unfold box_height, compositor.bg_bbox, compositor.padding.
  cbn [fst snd]. unfold Qeq, Qminus, Qplus, Qopp, inject_Z. simpl. lia.
Qed.

Lemma total_height_empty_body_witness :
  ["Hi"] <> ([] : list string)
  /\ compositor.total_height (demo.face 80) (demo.face 45) ["Hi"] []
     = block_height (demo.face 80) compositor.title_spacing ["Hi"]
       + compositor.space_between_blocks.
Proof.
  split; [discriminate|].
  apply (total_height_empty_body (demo.face 80) (demo.face 45) ["Hi"] 81 0).
  discriminate.
Defined.

(** ** C2: wrapping *)

(** C2, as the specification has it, fails: a word longer than the width
    is cut into pieces of the width, and a hyphenated word is broken after
    its hyphen although it would fit on a line of its own. *)
Lemma wrap_splits_words :
  textwrap.wrap "abcdefghij" 3 = Ok ["abc"; "def"; "ghi"; "j"]
  /\ textwrap.wrap "xx aaaa-bbbb" 9 = Ok ["xx aaaa-"; "bbbb"].
Proof. split; reflexivity. Qed.

(** C2, as the code has it.  For every string and every positive width the
    wrapping step returns lines, and each line is at most [width]
    characters long, with no exception for long words: these are broken.
    When the string is ASCII text with no hyphen (and none of the four
    separators 28 to 31) and each of its words is at most [width]
    characters long, the lines are broken at whitespace only and no word
    is split: the words of the lines, in order, are the words of the
    string. *)
Theorem wrap_lines_within_width (text : string) (width : Z)
    (Hw : 1 <= width) :
  exists lines,
    textwrap.wrap text width = Ok lines
    /\ Forall (fun line => Z.of_nat (String.length line) <= width) lines
    /\ (Forall (fun c => seven_bit c = true) (Py.chars text) ->
        Forall (fun c => plain c = true) (Py.chars text) ->
        Forall (fun w => Z.of_nat (String.length w) <= width) (words_of text) ->
        concat (map words_of lines) = words_of text).
Proof.
  destruct (textwrap_facts.wrap_fits text width Hw) as (lines & Hwrap & Hlen).
  exists lines. split; [exact Hwrap|]. split; [exact Hlen|].
  intros _ Hp Hfit.
  destruct (words_facts.wrap_words text width Hw Hp Hfit)
    as (lines' & Hwrap' & _ & Hwords).
  rewrite Hwrap in Hwrap'. by injection Hwrap' as <-.
Qed.

Lemma wrap_lines_within_width_witness :
  1 <= 10
  /\ exists lines,
       textwrap.wrap "The Market Reacts" 10 = Ok lines
       /\ Forall (fun line => Z.of_nat (String.length line) <= 10) lines
       /\ concat (map words_of lines) = words_of "The Market Reacts".
Proof.
  split; [lia|].
  destruct (wrap_lines_within_width "The Market Reacts" 10 ltac:(lia))
    as (lines & Hwrap & Hlen & Hwords).
  exists lines. split; [exact Hwrap|]. split; [exact Hlen|].
  apply Hwords.
  - repeat constructor.
  - repeat constructor.
  - vm_compute. repeat constructor; discriminate.
Defined.

(** ** C3: the wrap width *)

(** C3, as the specification has it, fails: on a background 40 pixels wide
    the usable width is 34 pixels, the reference glyph of the title font is
    48 pixels wide, and the wrap width passed to the wrapping step is 0;
    the wrapping step rejects it and the call returns [False]. *)
Lemma wrap_width_zero_on_narrow_image :
  compositor.chars_per_line (40 - 2 * compositor.margin_of 40)
    (PIL.textlength (demo.face 80) "a") 30 = 0
  /\ (compositor.add_text_to_image "small.png" "Hi" "there" "out.png"
        demo.narrow).1 = Ok false
  /\ stdout (compositor.add_text_to_image "small.png" "Hi" "there" "out.png"
               demo.narrow).2
     = [FontFound (demo.fonts +:+ "/Inter-Bold.ttf");
        FontFound (demo.fonts +:+ "/Inter-Regular.ttf");
        OverlayUnexpected ValueError].
Proof. repeat split; vm_compute; reflexivity. Qed.

(** C3, as the code has it.  A measured reference width that is zero or
    negative yields the fallback count (20, 30 or 50), which is at least 1.
    A positive reference width that is at most the usable width yields a
    wrap width of at least 1.  A reference glyph wider than the usable
    width yields the wrap width 0, which the wrapping step refuses with a
    [ValueError]. *)
Theorem wrap_width_cases (pixels : Z) (avg_char_width : Q) (default : Z)
    (Hd : In default [20; 30; 50]) (Hp : 0 <= pixels) :
  (~ (0 < avg_char_width)%Q ->
     compositor.chars_per_line pixels avg_char_width default = default
     /\ 1 <= default)
  /\ ((0 < avg_char_width)%Q -> (avg_char_width <= inject_Z pixels)%Q ->
      1 <= compositor.chars_per_line pixels avg_char_width default)
  /\ ((0 < avg_char_width)%Q -> (inject_Z pixels < avg_char_width)%Q ->
      compositor.chars_per_line pixels avg_char_width default = 0
      /\ forall text, textwrap.wrap text 0 = Raise ValueError).
Proof.
  unfold compositor.chars_per_line.
  split; [|split].
  - intros Hn. rewrite <- gt0_spec in Hn.
    destruct (Py.gt0 avg_char_width); [done|].
    split; [reflexivity|]. simpl in Hd. lia.
  - intros Hpos Hle. rewrite (proj2 (gt0_spec _) Hpos), int_div by done.
    destruct avg_char_width as [n d]. unfold Qlt, Qle in *. simpl in *.
    rewrite Z.quot_div_nonneg by lia.
    apply Z.div_le_lower_bound; lia.
  - intros Hpos Hlt. rewrite (proj2 (gt0_spec _) Hpos), int_div by done.
    split; [|intros text; by apply textwrap_facts.wrap_invalid_width].
    destruct avg_char_width as [n d]. unfold Qlt in *. simpl in *.
    apply Z.quot_small. lia.
Qed.

Lemma wrap_width_cases_witness :
  In 30 [20; 30; 50] /\ 0 <= 862
  /\ 1 <= compositor.chars_per_line 862 (PIL.textlength (demo.face 80) "a") 30.
Proof.
  assert (Hd : In 30 [20; 30; 50]) by (simpl; tauto).
  assert (Hp : 0 <= 862) by lia.
  split; [exact Hd|]. split; [exact Hp|].
  apply (wrap_width_cases 862 (PIL.textlength (demo.face 80) "a") 30 Hd Hp).
  - reflexivity.
  - vm_compute. discriminate.
Defined.

(** ** C4: the backing rectangle *)

(** C4, as the specification has it, fails: with the title [Hi] and the
    body [...] the body line is drawn at (81, 213); its marks sit low in
    the line, the bounding box of its ink reaches down to 253, and the
    backing rectangle ends at 240. *)
Lemma low_line_leaves_rectangle :
  let title_font := demo.face 80 in
  let explanation_font := demo.face 45 in
  let box :=
    compositor.bg_bbox (compositor.margin_of 1024)
      (compositor.max_line_width title_font explanation_font ["Hi"] ["..."])
      (compositor.total_height title_font explanation_font ["Hi"] ["..."]) in
  compositor.wrap_blocks title_font explanation_font 1024 "Hi" "..."
  = Ok (["Hi"], ["..."])
  /\ In (PIL.text (inject_Z 81, inject_Z 213) "..." explanation_font
                  (PIL.Named "white") None)
        (compositor.overlay_ops title_font explanation_font
           (compositor.margin_of 1024) ["Hi"] ["..."])
  /\ box.2 = inject_Z 240
  /\ 213 + PIL.bbox_bottom (PIL.textbbox explanation_font "...") = 253
  /\ ~ ink_inside box (inject_Z 81, inject_Z 213) explanation_font "...".
Proof.
  repeat split; try (vm_compute; reflexivity).
  - right. right. left. reflexivity.
  - intros (_ & _ & _ & H). vm_compute in H. by apply H.
Qed.

(** C4, as the code has it.  With fonts whose bounding boxes have their
    bottom at or below their top, the backing rectangle contains, for every
    line drawn, the box that the layout gives the line: from the point the
    line is drawn at, as wide as the measured length of the line and as
    high as the ink of the line.  That box lies inside the rectangle, with
    [padding] to spare on the left, at the top and on the right.  The ink
    itself is set off from the drawing point by the bearings of the font
    (the left and top of the bounding box at the origin), which the
    layout does not look at: the ink stays within the left, the top and
    the right edge of the rectangle when the left bearing is at least
    [-padding], the ink is no wider than the measured length plus
    [padding], and the top bearing is at least [-padding]. *)
Theorem backing_rectangle_contains_layout_boxes
    (title_font explanation_font : PIL.font) (margin : Z)
    (wrapped_title wrapped_explanation : list string)
    (xy : Q * Q) (line : string) (f : PIL.font) (fill : PIL.color)
    (anchor : option string)
    (Htitle : forall s, 0 <= compositor.line_height title_font s)
    (Hexp : forall s, 0 <= compositor.line_height explanation_font s)
    (Hdrawn :
       In (PIL.text xy line f fill anchor)
          (compositor.overlay_ops title_font explanation_font margin
             wrapped_title wrapped_explanation)) :
  let box :=
    compositor.bg_bbox margin
      (compositor.max_line_width title_font explanation_font
         wrapped_title wrapped_explanation)
      (compositor.total_height title_font explanation_font
         wrapped_title wrapped_explanation) in
  layout_box_inside box xy f line
  /\ (bearings_within_padding f line -> ink_within_sides box xy f line).
Proof.
  unfold layout_box_inside, ink_within_sides, bearings_within_padding.
  unfold compositor.bg_bbox. cbv zeta.
  set (mlw := compositor.max_line_width _ _ _ _).
  set (total := compositor.total_height _ _ _ _).
  (* where the line is drawn, and how far down its block it sits *)
  assert (Hpos : exists y : Z,
    xy = (inject_Z margin, inject_Z y)
    /\ (PIL.textlength f line <= mlw)%Q
    /\ margin <= y
    /\ y + compositor.line_height f line <= margin + total + 7).
  { pose proof (layout_facts.total_height_sum title_font explanation_font
                  wrapped_title wrapped_explanation) as Htot.
    fold total in Htot. destruct spacings as [Hts Hes].
    unfold compositor.space_between_blocks in *.
    unfold compositor.overlay_ops in Hdrawn.
    destruct Hdrawn as [Hrect | Hdrawn]; [discriminate|].
    apply in_app_or in Hdrawn as [Hin | Hin];
      apply layout_facts.in_draw_lines in Hin
        as (before & l & after & Hl & Hop);
      injection Hop as -> -> -> _ _.
    - eexists. split; [reflexivity|].
      split.
      { apply layout_facts.max_line_width_ge. left. split; [done|].
        rewrite Hl. apply in_or_app. right. by left. }
      rewrite Hl, layout_facts.advance_app, layout_facts.advance_cons in Htot.
      rewrite (layout_facts.advance_shift _ _ after) in Htot.
      rewrite (layout_facts.advance_shift _ _ before margin).
      pose proof (layout_facts.advance_nonneg title_font
                    compositor.title_spacing before Htitle) as H1.
      pose proof (layout_facts.advance_nonneg title_font
                    compositor.title_spacing after Htitle) as H2.
      pose proof (layout_facts.advance_nonneg explanation_font
                    compositor.exp_spacing wrapped_explanation Hexp) as H3.
      rewrite Hts in *. rewrite Hes in *. specialize (Htitle l). lia.
    - eexists. split; [reflexivity|].
      split.
      { apply layout_facts.max_line_width_ge. right. split; [done|].
        rewrite Hl. apply in_or_app. right. by left. }
      rewrite Hl, (layout_facts.advance_app explanation_font),
        layout_facts.advance_cons in Htot.
      rewrite (layout_facts.advance_shift _ _ after) in Htot.
      rewrite (layout_facts.advance_shift _ _ before).
      rewrite (layout_facts.advance_shift _ _ wrapped_title margin).
      pose proof (layout_facts.advance_nonneg title_font
                    compositor.title_spacing wrapped_title Htitle) as H1.
      pose proof (layout_facts.advance_nonneg explanation_font
                    compositor.exp_spacing before Hexp) as H2.
      pose proof (layout_facts.advance_nonneg explanation_font
                    compositor.exp_spacing after Hexp) as H3.
      rewrite Hts in *. rewrite Hes in *. specialize (Hexp l).
      unfold compositor.space_between_blocks. lia. }
  destruct Hpos as (y & -> & Hlen & Hy1 & Hy2).
  unfold compositor.padding in *. cbn [fst snd].
  set (h := compositor.line_height f line) in *.
  assert (Hink : PIL.bbox_bottom (PIL.textbbox f line)
                 = PIL.bbox_top (PIL.textbbox f line) + h).
  { subst h. unfold compositor.line_height. lia. }
  split.
  - repeat split.
    + unfold Qeq, Qplus, inject_Z. simpl. lia.
    + lra.
    + unfold Qle, Qplus, inject_Z. simpl. lia.
    + unfold Qle, Qplus, Qminus, Qopp, inject_Z. simpl. lia.
  - intros (Hl & Hr & Ht1). repeat split.
    + unfold Qle, Qplus, inject_Z. simpl. lia.
    + lra.
    + unfold Qle, Qplus, inject_Z. simpl. lia.
Qed.

Lemma demo_line_height_nonneg (sz : Z) (s : string) :
  0 <= sz -> 0 <= compositor.line_height (demo.face sz) s.
Proof.
  intros Hsz. unfold compositor.line_height, demo.face. simpl.
  unfold PIL.bbox_bottom, PIL.bbox_top. simpl.
  unfold demo.ink_top, demo.ink_bottom.
  destruct (Py.chars s) as [|c rest]; [lia|].
  assert (Hfold : forall l a,
            fold_left (fun t c => Z.min t (demo.glyph_top sz c)) l a <= a).
  { induction l as [|x l IH]; intros a; simpl; [lia|].
    specialize (IH (Z.min a (demo.glyph_top sz x))). lia. }
  specialize (Hfold rest (demo.glyph_top sz c)).
  assert (demo.glyph_top sz c <= 9 * sz / 10).
  { unfold demo.glyph_top. destruct (demo.low_mark c);
      apply Z.div_le_mono; lia. }
  lia.
Qed.

Lemma backing_rectangle_contains_layout_boxes_witness :
  let title_font := demo.face 80 in
  let explanation_font := demo.face 45 in
  (forall s, 0 <= compositor.line_height title_font s)
  /\ (forall s, 0 <= compositor.line_height explanation_font s)
  /\ In (PIL.text (inject_Z 81, inject_Z 213) "there" explanation_font
                  (PIL.Named "white") None)
        (compositor.overlay_ops title_font explanation_font 81
           ["Hi"] ["there"])
  /\ layout_box_inside
       (compositor.bg_bbox 81
          (compositor.max_line_width title_font explanation_font
             ["Hi"] ["there"])
          (compositor.total_height title_font explanation_font
             ["Hi"] ["there"]))
       (inject_Z 81, inject_Z 213) explanation_font "there".
Proof.
  intros title_font explanation_font.
  assert (H1 : forall s, 0 <= compositor.line_height title_font s)
    by (intros s; apply demo_line_height_nonneg; lia).
  assert (H2 : forall s, 0 <= compositor.line_height explanation_font s)
    by (intros s; apply demo_line_height_nonneg; lia).
  assert (H3 : In (PIL.text (inject_Z 81, inject_Z 213) "there"
                     explanation_font (PIL.Named "white") None)
                  (compositor.overlay_ops title_font explanation_font 81
                     ["Hi"] ["there"]))
    by (right; right; left; reflexivity).
  split; [exact H1|]. split; [exact H2|]. split; [exact H3|].
  exact (proj1 (backing_rectangle_contains_layout_boxes
                  title_font explanation_font 81 ["Hi"] ["there"]
                  (inject_Z 81, inject_Z 213) "there" explanation_font
                  (PIL.Named "white") None H1 H2 H3)).
Defined.

(** ** Failures are return values *)

(** Printing apart, no exception leaves the entry points.  On a standard
    output that takes every diagnostic, both return a boolean in every
    world and for every argument.  The boolean is [False] whenever a
    required font is not in the fonts directory, the background does not
    open as an image, or the output cannot be written.  (The handlers'
    own [print], lines 89 and 202, stands outside the [try]: where it
    raises, the exception leaves the entry point.) *)
Theorem entry_points_never_raise
    (headline_text image_path slide_title slide_text output_path : string)
    (w : world) :
  (exists succeeded w',
     compositor.create_branded_headline_slide headline_text output_path w
     = (Ok succeeded, w')
     /\ (~ present w "PlayfairDisplay-ExtraBold.ttf"
         \/ ~ present w "Inter-Bold.ttf"
         \/ writable w output_path = false ->
         succeeded = false))
  /\ (exists succeeded w',
        compositor.add_text_to_image image_path slide_title slide_text
                                     output_path w
        = (Ok succeeded, w')
        /\ (~ present w "Inter-Bold.ttf"
            \/ ~ present w "Inter-Regular.ttf"
            \/ (forall im, fs w !! image_path <> Some (ImageFile im))
            \/ writable w output_path = false ->
            succeeded = false)).
Proof.
  split.
  - destruct (create_branded_headline_slide_run headline_text output_path w)
      as (w' & Hrun & _).
    eexists _, w'. split; [exact Hrun|].
    intros Hfail. destruct (saved _ _ _).1 eqn:Es; [|reflexivity].
    exfalso. apply saved_true in Es as (im & Him & Hwr & _).
    unfold headline_image in Him.
    destruct (load_face _ 80) as [f1|] eqn:E1; [|discriminate].
    destruct (load_face _ 24) as [f2|] eqn:E2; [|discriminate].
    apply load_face_ok in E1 as (face1 & E1 & _).
    apply load_face_ok in E2 as (face2 & E2 & _).
    unfold present in Hfail. rewrite E1, E2, Hwr in Hfail.
    destruct Hfail as [H | [H | H]]; [destruct H; by eexists.. | discriminate].
  - destruct (add_text_to_image_run image_path slide_title slide_text
                output_path w) as (w' & Hrun & _).
    eexists _, w'. split; [exact Hrun|].
    intros Hfail. destruct (saved _ _ _).1 eqn:Es; [|reflexivity].
    exfalso. apply saved_true in Es as (im & Him & Hwr & _).
    apply overlay_image_some in Him
      as (opened & tf & ef & layer & out & Ho & Ht & He & _).
    apply decode_ok in Ho.
    apply load_face_ok in Ht as (face1 & E1 & _).
    apply load_face_ok in He as (face2 & E2 & _).
    unfold present in Hfail. rewrite E1, E2, Hwr in Hfail.
    destruct Hfail as [H | [H | [H | H]]];
      [destruct H; by eexists.. | by eapply H | discriminate].
Qed.

Lemma entry_points_never_raise_witness :
  ~ present demo.no_fonts "Inter-Bold.ttf"
  /\ exists w',
       compositor.add_text_to_image "test_image_google.png" "Hi" "there"
                                    "out.png" demo.no_fonts
       = (Ok false, w').
Proof.
  assert (H : ~ present demo.no_fonts "Inter-Bold.ttf").
  { intros [x Hx]. vm_compute in Hx. discriminate. }
  split; [exact H|].
  destruct (proj2 (entry_points_never_raise "" "test_image_google.png" "Hi"
                     "there" "out.png" demo.no_fonts))
    as (succeeded & w' & Hrun & Hfalse).
  exists w'. rewrite Hrun, Hfalse; [reflexivity|]. by left.
Defined.

(** ** C6: a missing headline font *)

(** C6.  When the display font is not in the fonts directory,
    [create_branded_headline_slide] returns [False] and the file system is
    what it was: nothing is written at the output path or elsewhere. *)
Theorem headline_font_missing_no_write
    (headline_text output_path : string) (w : world)
    (Hmissing : ~ present w "PlayfairDisplay-ExtraBold.ttf") :
  exists w',
    compositor.create_branded_headline_slide headline_text output_path w
    = (Ok false, w')
    /\ fs w' = fs w.
Proof.
  destruct (create_branded_headline_slide_run headline_text output_path w)
    as (w' & Hrun & Hfs & _).
  assert (Himg : headline_image
                   (fs w !! font_path w "PlayfairDisplay-ExtraBold.ttf")
                   (fs w !! font_path w "Inter-Bold.ttf") headline_text
                 = None).
  { unfold headline_image.
    destruct (load_face_absent _ 80 Hmissing) as [e ->]. reflexivity. }
  rewrite Himg in Hrun, Hfs. by exists w'.
Qed.

Lemma headline_font_missing_no_write_witness :
  ~ present demo.no_fonts "PlayfairDisplay-ExtraBold.ttf"
  /\ exists w',
       compositor.create_branded_headline_slide
         "Central Bank Signals Potential Rate Hike" "slide_01.png"
         demo.no_fonts
       = (Ok false, w')
       /\ fs w' = fs demo.no_fonts.
Proof.
  assert (H : ~ present demo.no_fonts "PlayfairDisplay-ExtraBold.ttf").
  { intros [x Hx]. vm_compute in Hx. discriminate. }
  split; [exact H|].
  exact (headline_font_missing_no_write
           "Central Bank Signals Potential Rate Hike" "slide_01.png"
           demo.no_fonts H).
Defined.

(** ** C8: the output of the overlay *)

(** C8.  When [add_text_to_image] returns [True], the background was an
    image, and the output path holds an image of the size of the
    background, in mode RGB (no alpha channel): the text layer
    alpha-composited onto the background converted to RGBA, then converted
    to RGB. *)
Theorem overlay_output_same_size_opaque
    (image_path slide_title slide_text output_path : string) (w w' : world)
    (Hok : compositor.add_text_to_image image_path slide_title slide_text
                                        output_path w = (Ok true, w')) :
  exists background out txt_layer,
    fs w !! image_path = Some (ImageFile background)
    /\ fs w' !! output_path = Some (ImageFile out)
    /\ PIL.size out = PIL.size background
    /\ PIL.im_mode out = PIL.RGB
    /\ PIL.pixels out
       = PIL.Convert PIL.RGB
           (PIL.AlphaComposite (PIL.Convert PIL.RGBA (PIL.pixels background))
                               txt_layer).
Proof.
  destruct (add_text_to_image_run image_path slide_title slide_text
              output_path w) as (w1 & Hrun & Hfs & _).
  rewrite Hok in Hrun. injection Hrun as Hs <-. symmetry in Hs.
  apply saved_true in Hs as (im & Him & Hwr & Hsaved).
  rewrite Hsaved in Hfs.
  apply overlay_image_some in Him
    as (opened & tf & ef & layer & out & Ho & _ & _ & _ & Hc & ->).
  apply decode_ok in Ho. apply alpha_composite_ok in Hc as (_ & Hsz & Hpx).
  exists opened, (PIL.convert PIL.RGB out), (PIL.pixels layer).
  split; [exact Ho|]. split; [by rewrite Hfs, lookup_insert_eq|].
  split; [exact Hsz|]. split; [reflexivity|].
  simpl. by rewrite Hpx.
Qed.

Lemma overlay_output_same_size_opaque_witness :
  let r :=
    compositor.add_text_to_image "test_image_google.png" "The Market Reacts"
      "Investors are cautiously optimistic following the announcement."
      "out.png" demo.w0 in
  r = (Ok true, r.2)
  /\ exists background out txt_layer,
       fs demo.w0 !! "test_image_google.png" = Some (ImageFile background)
       /\ fs r.2 !! "out.png" = Some (ImageFile out)
       /\ PIL.size out = PIL.size background
       /\ PIL.im_mode out = PIL.RGB
       /\ PIL.pixels out
          = PIL.Convert PIL.RGB
              (PIL.AlphaComposite
                 (PIL.Convert PIL.RGBA (PIL.pixels background)) txt_layer).
Proof.
  intros r.
  assert (H : r = (Ok true, r.2)).
  { assert (H1 : r.1 = Ok true) by (vm_compute; reflexivity).
    destruct r as [a b]. simpl in *. by rewrite H1. }
  split; [exact H|].
  exact (overlay_output_same_size_opaque "test_image_google.png"
           "The Market Reacts"
           "Investors are cautiously optimistic following the announcement."
           "out.png" demo.w0 r.2 H).
Defined.

(** ** C9: rendering twice *)

(** C9.  Each entry point, run in two worlds that hold the same fonts and
    the same background (and agree on whether the output path can be
    written), returns the same boolean in both, and where it returns
    [True] both worlds hold at the output path one and the same image.
    What else the worlds hold, what was printed before and what was at the
    output path before make no difference. *)
Theorem rendering_deterministic
    (headline_text image_path slide_title slide_text output_path : string)
    (w1 w2 : world) :
  (same_inputs [font_path w1 "PlayfairDisplay-ExtraBold.ttf";
                font_path w1 "Inter-Bold.ttf"] output_path w1 w2 ->
   let r1 := compositor.create_branded_headline_slide
               headline_text output_path w1 in
   let r2 := compositor.create_branded_headline_slide
               headline_text output_path w2 in
   r1.1 = r2.1
   /\ (r1.1 = Ok true ->
       is_Some (fs r1.2 !! output_path)
       /\ fs r1.2 !! output_path = fs r2.2 !! output_path))
  /\ (same_inputs [image_path; font_path w1 "Inter-Bold.ttf";
                   font_path w1 "Inter-Regular.ttf"] output_path w1 w2 ->
      let r1 := compositor.add_text_to_image
                  image_path slide_title slide_text output_path w1 in
      let r2 := compositor.add_text_to_image
                  image_path slide_title slide_text output_path w2 in
      r1.1 = r2.1
      /\ (r1.1 = Ok true ->
          is_Some (fs r1.2 !! output_path)
          /\ fs r1.2 !! output_path = fs r2.2 !! output_path)).
Proof.
  assert (Hsaved : forall image,
            writable w1 output_path = writable w2 output_path ->
            (saved w1 output_path image).1 = (saved w2 output_path image).1
            /\ ((saved w1 output_path image).1 = true ->
                is_Some ((saved w1 output_path image).2 !! output_path)
                /\ (saved w1 output_path image).2 !! output_path
                   = (saved w2 output_path image).2 !! output_path)).
  { intros image Hwr. unfold saved. destruct image as [im|]; [|done].
    rewrite <- Hwr. destruct (writable w1 output_path); [|done].
    split; [done|]. intros _. cbn [fst snd]. rewrite !lookup_insert_eq.
    by split; [eexists|]. }
  split.
  - intros (Hmf & Hwr & Hp). cbv zeta.
    apply Forall_cons in Hp as [Hm Hp]. apply Forall_cons in Hp as [Ht _].
    destruct (create_branded_headline_slide_run headline_text output_path w1)
      as (w1' & Hrun1 & Hfs1 & _).
    destruct (create_branded_headline_slide_run headline_text output_path w2)
      as (w2' & Hrun2 & Hfs2 & _).
    unfold font_path in *. rewrite <- Hmf, <- Hm, <- Ht in Hrun2, Hfs2.
    rewrite Hrun1, Hrun2. cbn [fst snd]. rewrite Hfs1, Hfs2.
    destruct (Hsaved (headline_image
                        (fs w1 !! posixpath.join
                           (compositor.project_font_dir (module_file w1))
                           ["PlayfairDisplay-ExtraBold.ttf"])
                        (fs w1 !! posixpath.join
                           (compositor.project_font_dir (module_file w1))
                           ["Inter-Bold.ttf"]) headline_text) Hwr)
      as [Hb Hf].
    split; [by rewrite Hb|]. intros [= Ht']. by apply Hf.
  - intros (Hmf & Hwr & Hp). cbv zeta.
    apply Forall_cons in Hp as [Hi Hp]. apply Forall_cons in Hp as [Ht Hp].
    apply Forall_cons in Hp as [He _].
    destruct (add_text_to_image_run image_path slide_title slide_text
                output_path w1) as (w1' & Hrun1 & Hfs1 & _).
    destruct (add_text_to_image_run image_path slide_title slide_text
                output_path w2) as (w2' & Hrun2 & Hfs2 & _).
    unfold font_path in *. rewrite <- Hmf, <- Hi, <- Ht, <- He in Hrun2, Hfs2.
    rewrite Hrun1, Hrun2. cbn [fst snd]. rewrite Hfs1, Hfs2.
    destruct (Hsaved (overlay_image (fs w1 !! image_path)
                        (fs w1 !! posixpath.join
                           (compositor.project_font_dir (module_file w1))
                           ["Inter-Bold.ttf"])
                        (fs w1 !! posixpath.join
                           (compositor.project_font_dir (module_file w1))
                           ["Inter-Regular.ttf"]) slide_title slide_text) Hwr)
      as [Hb Hf].
    split; [by rewrite Hb|]. intros [= Ht']. by apply Hf.
Qed.

Lemma rendering_deterministic_witness :
  let r1 := compositor.add_text_to_image "test_image_google.png"
              "The Market Reacts" "Investors are cautiously optimistic."
              "out.png" demo.w0 in
  let r2 := compositor.add_text_to_image "test_image_google.png"
              "The Market Reacts" "Investors are cautiously optimistic."
              "out.png" demo.later in
  same_inputs ["test_image_google.png"; font_path demo.w0 "Inter-Bold.ttf";
               font_path demo.w0 "Inter-Regular.ttf"] "out.png"
              demo.w0 demo.later
  /\ r1.1 = r2.1
  /\ fs r1.2 !! "out.png" = fs r2.2 !! "out.png".
Proof.
  intros r1 r2.
  assert (H : same_inputs ["test_image_google.png";
                           font_path demo.w0 "Inter-Bold.ttf";
                           font_path demo.w0 "Inter-Regular.ttf"] "out.png"
                          demo.w0 demo.later).
  { split; [reflexivity|]. split; [reflexivity|].
    repeat constructor; vm_compute; reflexivity. }
  split; [exact H|].
  destruct (proj2 (rendering_deterministic "" "test_image_google.png"
                     "The Market Reacts" "Investors are cautiously optimistic."
                     "out.png" demo.w0 demo.later) H) as [Hb Hf].
  split; [exact Hb|].
  apply Hf. vm_compute. reflexivity.
Defined.

(** ** C10: nothing to draw *)

(** C10.  When the title and the body both wrap to zero lines, the call
    still draws the backing rectangle, at [margin - padding] from the left
    and from the top: it is [2 * padding] = 60 pixels wide and
    60 - 16 + [2 * padding] = 104 pixels high.  With the background and
    the fonts in place and the output writable the call returns [True],
    and the saved image is the background under a text layer that holds
    this rectangle and nothing else. *)
Theorem empty_overlay_draws_rectangle
    (image_path slide_title slide_text output_path : string) (w : world)
    (background : PIL.image) (title_font explanation_font : PIL.font)
    (Hbg : fs w !! image_path = Some (ImageFile background))
    (Htf : loads w "Inter-Bold.ttf" 80 title_font)
    (Hef : loads w "Inter-Regular.ttf" 45 explanation_font)
    (Hwrap : compositor.wrap_blocks title_font explanation_font
               (PIL.size background).1 slide_title slide_text
             = Ok ([], []))
    (Hwr : writable w output_path = true) :
  let margin := compositor.margin_of (PIL.size background).1 in
  let box :=
    (inject_Z (margin - 30), inject_Z (margin - 30),
     (inject_Z margin + 0 + inject_Z 30)%Q, inject_Z (margin + 44 + 30)) in
  (box_width box == 60)%Q /\ (box_height box == 104)%Q
  /\ exists w',
       compositor.add_text_to_image image_path slide_title slide_text
                                    output_path w = (Ok true, w')
       /\ fs w' !! output_path
          = Some (ImageFile
                    {| PIL.im_mode := PIL.RGB;
                       PIL.size := PIL.size background;
                       PIL.pixels :=
                         PIL.Convert PIL.RGB
                           (PIL.AlphaComposite
                              (PIL.Convert PIL.RGBA (PIL.pixels background))
                              (PIL.Drawn (PIL.Fill (PIL.Tuple 255 255 255 0))
                                 [PIL.rectangle box (PIL.Tuple 0 0 0 153)])) |}).
Proof.
  intros margin box. split; [|split].
  - unfold box_width, box. cbn [fst snd].
    unfold Qeq, Qminus, Qplus, Qopp, inject_Z. simpl. lia.
  - unfold box_height, box. cbn [fst snd].
    unfold Qeq, Qminus, Qplus, Qopp, inject_Z. simpl. lia.
  - destruct (add_text_to_image_run image_path slide_title slide_text
                output_path w) as (w' & Hrun & Hfs & _).
    destruct Htf as (face1 & Ht1 & Ht2). destruct Hef as (face2 & He1 & He2).
    rewrite Hbg, Ht1, He1 in Hrun, Hfs.
    unfold overlay_image, decode, load_face in Hrun, Hfs.
    rewrite Ht2, He2 in Hrun, Hfs.
    unfold compositor.text_layer in Hrun, Hfs.
    change (PIL.size (PIL.convert PIL.RGBA background))
      with (PIL.size background) in Hrun, Hfs.
    rewrite Hwrap in Hrun, Hfs.
    unfold alpha_composite in Hrun, Hfs. simpl in Hrun, Hfs.
    rewrite bool_decide_eq_true_2 in Hrun, Hfs by reflexivity.
    unfold saved in Hrun, Hfs. rewrite Hwr in Hrun, Hfs. simpl in Hrun, Hfs.
    exists w'. split; [exact Hrun|].
    rewrite Hfs, lookup_insert_eq. reflexivity.
Qed.

Lemma empty_overlay_draws_rectangle_witness :
  fs demo.w0 !! "test_image_google.png" = Some (ImageFile demo.gray)
  /\ loads demo.w0 "Inter-Bold.ttf" 80 (demo.face 80)
  /\ loads demo.w0 "Inter-Regular.ttf" 45 (demo.face 45)
  /\ compositor.wrap_blocks (demo.face 80) (demo.face 45) 1024 "" ""
     = Ok ([], [])
  /\ writable demo.w0 "out.png" = true
  /\ exists w',
       compositor.add_text_to_image "test_image_google.png" "" "" "out.png"
                                    demo.w0 = (Ok true, w').
Proof.
  assert (H1 : fs demo.w0 !! "test_image_google.png"
               = Some (ImageFile demo.gray)) by reflexivity.
  assert (H2 : loads demo.w0 "Inter-Bold.ttf" 80 (demo.face 80)).
  { exists (fun sz => Some (demo.face sz)). split; reflexivity. }
  assert (H3 : loads demo.w0 "Inter-Regular.ttf" 45 (demo.face 45)).
  { exists (fun sz => Some (demo.face sz)). split; reflexivity. }
  assert (H4 : compositor.wrap_blocks (demo.face 80) (demo.face 45) 1024 "" ""
               = Ok ([], [])) by reflexivity.
  assert (H5 : writable demo.w0 "out.png" = true) by reflexivity.
  repeat (split; [assumption|]).
  destruct (empty_overlay_draws_rectangle "test_image_google.png" "" ""
              "out.png" demo.w0 demo.gray (demo.face 80) (demo.face 45)
              H1 H2 H3 H4 H5) as (_ & _ & w' & Hrun & _).
  by exists w'.
Defined.

(* ===================================================================== *)
(** * Further properties of the compositor *)
(* ===================================================================== *)

(** ** Wrapping: what the lines are made of *)

Module wrap_facts.

Import textwrap.

Lemma whitespace_isspace (c : ascii) : whitespace c = true -> isspace c = true.
Proof.
  unfold whitespace, isspace, between. cbv zeta.
  generalize (nat_of_ascii c). intros n H.
  apply orb_prop in H. apply orb_true_iff.
  destruct H as [H | H]; apply andb_prop in H as [H1 H2];
    apply Nat.leb_le in H1, H2; [left | right];
    apply andb_true_iff; split; apply Nat.leb_le; lia.
Qed.

Lemma white_blank (chunk : str) : white chunk -> blank chunk = true.
Proof.
  unfold blank. induction 1 as [|c cs Hc _ IH]; simpl; [reflexivity|].
  by rewrite (whitespace_isspace c Hc), IH.
Qed.

Lemma visible_app (a b : str) : visible (a ++ b) = visible a ++ visible b.
Proof. apply List.filter_app. Qed.

Lemma visible_blank (chunk : str) : blank chunk = true -> visible chunk = [].
Proof.
  unfold blank, visible. induction chunk as [|c cs IH]; simpl; [done|].
  intros H. apply andb_prop in H as [-> H]. simpl. auto.
Qed.

Lemma visible_drop_trailing_blank (l : list str) :
  visible (concat (drop_trailing_blank l)) = visible (concat l).
Proof.
  unfold drop_trailing_blank. destruct (last l) as [b|] eqn:El; [|done].
  destruct (blank b) eqn:Eb; [|done].
  apply last_Some in El as [l' ->].
  rewrite removelast_last, concat_app, visible_app. simpl.
  by rewrite app_nil_r, (visible_blank b Eb), app_nil_r.
Qed.

(** The line and what is left hold the characters of the chunks. *)
Lemma long_word_concat (width : Z) (chs cl : list str) (n : Z) :
  let r := match chs with
           | c :: _ => if width <? len c
                       then _handle_long_word chs cl n width
                       else (chs, cl)
           | [] => (chs, cl)
           end in
  concat r.2 ++ concat r.1 = concat cl ++ concat chs.
Proof.
  destruct chs as [|c cs]; cbv zeta beta iota; [done|].
  destruct (width <? len c); [|done].
  unfold _handle_long_word. cbn [fst snd].
  rewrite textwrap_facts.concat_snoc. cbn [concat].
  by rewrite <- !app_assoc, (app_assoc (take _ c)), take_drop.
Qed.

Lemma wrap_line_visible width (chunks : list str) started :
  let r := wrap_line width chunks started in
  visible (concat r.1) ++ visible (concat r.2) = visible (concat chunks).
Proof.
  unfold wrap_line.
  set (chunks0 := match chunks with [] => _ | _ => _ end).
  assert (H0 : visible (concat chunks0) = visible (concat chunks)).
  { subst chunks0. destruct chunks as [|c cs]; [done|].
    destruct (blank c) eqn:Eb; simpl; [|done].
    destruct started; simpl; [|done].
    by rewrite visible_app, (visible_blank c Eb). }
  destruct (words_facts.fill_line_split width chunks0 [] 0)
    as (taken & rest & n & Hsplit & ->).
  change ([] ++ taken) with taken.
  pose proof (long_word_concat width rest taken n) as Hl. cbv zeta in Hl.
  destruct (match rest with [] => _ | _ => _ end) as [chs' cl'].
  cbn [fst snd] in *.
  rewrite visible_drop_trailing_blank, <- visible_app, Hl, <- H0, Hsplit.
  by rewrite concat_app.
Qed.

Lemma concat_append_line (lines cur_line : list str) :
  concat (append_line lines cur_line) = concat lines ++ concat cur_line.
Proof.
  unfold append_line. destruct cur_line as [|c cl].
  - simpl. by rewrite app_nil_r.
  - by rewrite textwrap_facts.concat_snoc.
Qed.

Lemma wrap_loop_visible width (chunks lines : list str) :
  visible (concat (wrap_loop width chunks lines))
  = visible (concat lines) ++ visible (concat chunks).
Proof.
  funelim (wrap_loop width chunks lines); simp wrap_loop.
  - simpl. by rewrite app_nil_r.
  - rewrite H, concat_append_line, visible_app, <- app_assoc. f_equal.
    apply wrap_line_visible.
Qed.

Lemma visible_spaces (k : nat) :
  visible (map (fun c => if whitespace c then space else c) (repeat space k))
  = [].
Proof. induction k as [|k IH]; [done|]. simpl. exact IH. Qed.

Lemma visible_munge_cons (c : ascii) (l l' : str) :
  visible l = visible l' ->
  visible ((if whitespace c then space else c) :: l) = visible (c :: l').
Proof.
  intros H. unfold visible in *. simpl. destruct (whitespace c) eqn:E.
  - rewrite (whitespace_isspace c E). simpl. exact H.
  - by rewrite H.
Qed.

Lemma munge_visible_from (col : nat) (text : str) :
  visible (map (fun c => if whitespace c then space else c)
               (expandtabs 8 col text))
  = visible text.
Proof.
  revert col. induction text as [|c s IH]; intros col; [done|].
  cbn [expandtabs].
  destruct (Ascii.eqb c "009") eqn:Etab.
  - apply Ascii.eqb_eq in Etab. subst c.
    change (0 <? 8)%nat with true. cbv iota zeta.
    rewrite map_app, visible_app, visible_spaces. simpl. apply IH.
  - destruct (_ || _); cbn [map]; apply visible_munge_cons, IH.
Qed.

Lemma munge_visible (text : str) :
  visible (_munge_whitespace text) = visible text.
Proof. apply munge_visible_from. Qed.

Lemma concat_chars_str (lines : list str) :
  concat (map Py.chars (map Py.str lines)) = concat lines.
Proof.
  rewrite map_map. f_equal. rewrite <- (map_id lines) at 2.
  apply map_ext. intros l. apply words_facts.chars_str.
Qed.

Lemma wrap_visible (text : string) (width : Z) :
  1 <= width ->
  exists lines,
    wrap text width = Ok lines
    /\ visible (concat (map Py.chars lines)) = visible (Py.chars text).
Proof.
  intros Hw. unfold wrap, _wrap_chunks.
  assert (E : (width <=? 0) = false) by (apply Z.leb_gt; lia). rewrite E.
  eexists. split; [reflexivity|].
  rewrite concat_chars_str, wrap_loop_visible. simpl.
  unfold _split_chunks. by rewrite textwrap_facts.split_concat, munge_visible.
Qed.

End wrap_facts.

(** X1.  Wrapping keeps every character that is not white space, in
    order, and adds none: the lines, read one after the other without
    their white space, are the text without its white space.  So long
    words are broken, never dropped or truncated. *)
Theorem wrap_keeps_visible_characters (text : string) (width : Z)
    (Hw : 1 <= width) :
  exists lines,
    textwrap.wrap text width = Ok lines
    /\ visible (concat (map Py.chars lines)) = visible (Py.chars text).
Proof. by apply wrap_facts.wrap_visible. Qed.

Lemma wrap_keeps_visible_characters_witness :
  1 <= 6
  /\ exists lines,
       textwrap.wrap "Extraordinarily  long, well-known words" 6 = Ok lines
       /\ visible (concat (map Py.chars lines))
          = visible (Py.chars "Extraordinarily  long, well-known words").
Proof.
  split; [lia|]. apply (wrap_keeps_visible_characters _ 6). lia.
Defined.

(** ** Wrapping: texts of whitespace only *)

Module blank_facts.

Import textwrap.

Lemma whitespaces_white (s : str) : white s -> whitespaces s = List.length s.
Proof.
  induction 1 as [|c cs Hc _ IH]; simpl; [reflexivity|]. by rewrite Hc, IH.
Qed.

Lemma split_white (s : str) :
  white s -> _split s = match s with [] => [] | _ :: _ => [s] end.
Proof.
  intros Hs. destruct s as [|c rest]; [reflexivity|].
  unfold _split. cbn [List.length split_from]. cbv zeta.
  assert (Hn : wordsep [] (c :: rest) = List.length (c :: rest)).
  { unfold wordsep. inversion Hs as [|? ? Hc _]; subst. rewrite Hc.
    by apply whitespaces_white. }
  rewrite Hn, firstn_all, skipn_all. by destruct (List.length rest).
Qed.

Lemma expandtabs_white (col : nat) (text : str) :
  white text -> white (expandtabs 8 col text).
Proof.
  unfold white. intros H. revert col.
  induction H as [|c s Hc _ IH]; intros col; simpl; [constructor|].
  destruct (Ascii.eqb c _).
  - apply Forall_app. split; [|apply IH].
    apply List.Forall_forall. intros x Hx. apply repeat_spec in Hx. by subst.
  - destruct (_ || _); constructor; auto.
Qed.

Lemma munge_white (text : str) : white text -> white (_munge_whitespace text).
Proof.
  intros H. unfold _munge_whitespace. apply Forall_map.
  eapply Forall_impl; [by apply expandtabs_white|].
  intros c Hc. simpl in *. by rewrite Hc.
Qed.

Lemma white_plain (s : str) : white s -> Forall (fun c => plain c = true) s.
Proof.
  intros H. eapply Forall_impl; [exact H|]. intros c Hc. simpl in Hc.
  unfold plain.
  rewrite (wrap_facts.whitespace_isspace c Hc), Hc. simpl.
  rewrite andb_true_r. apply negb_true_iff, Ascii.eqb_neq. by intros ->.
Qed.

(** One round of the loop on a single chunk of whitespace: the line is
    dropped, and what is left is nothing or a chunk of whitespace. *)
Lemma wrap_line_white (width : Z) (s : str) :
  1 <= width -> white s ->
  let r := wrap_line width [s] false in
  r.1 = [] /\ (r.2 = [] \/ exists s', r.2 = [s'] /\ white s').
Proof.
  intros Hw Hs. unfold wrap_line. rewrite andb_false_r. cbn [fill_line].
  destruct (0 + len s <=? width) eqn:E.
  - cbn [app fst snd]. unfold drop_trailing_blank. cbn [last].
    rewrite (wrap_facts.white_blank s Hs). by split; [|left].
  - apply Z.leb_gt in E.
    assert (Hlt : (width <? len s) = true) by (apply Z.ltb_lt; lia).
    rewrite Hlt. unfold _handle_long_word.
    assert (Hsl : (width <? 1) = false) by (apply Z.ltb_ge; lia).
    rewrite Hsl, Z.sub_0_r, Hlt.
    rewrite (words_facts.rfind_hyphen_plain s _ (white_plain s Hs)).
    cbn [Z.ltb Z.compare andb app fst snd].
    unfold drop_trailing_blank. cbn [last].
    rewrite (wrap_facts.white_blank (take (Z.to_nat width) s)
               (Forall_take _ _ _ Hs)).
    split; [reflexivity|]. right. eexists. split; [reflexivity|].
    by apply Forall_drop.
Qed.

Lemma wrap_loop_white width (chunks lines : list str) :
  lines = [] ->
  chunks = [] \/ (exists s, chunks = [s] /\ white s) ->
  wrap_loop width chunks lines = [].
Proof.
  funelim (wrap_loop width chunks lines); intros -> Hc; simp wrap_loop;
    [done|].
  destruct Hc as [|(s & [= -> ->] & Hs)]; [done|].
  destruct (wrap_line_white (Z.pos width) s ltac:(lia) Hs) as [H1 H2].
  cbn [nonempty] in *. apply H; [by rewrite H1 | exact H2].
Qed.

Lemma wrap_white (text : string) (width : Z) :
  whitespace_only text -> 1 <= width -> wrap text width = Ok [].
Proof.
  intros Hs Hw. unfold wrap, _wrap_chunks.
  assert (E : (width <=? 0) = false) by (apply Z.leb_gt; lia). rewrite E.
  rewrite wrap_loop_white; [reflexivity..|].
  unfold _split_chunks. pose proof (munge_white _ Hs) as Hm.
  rewrite (split_white _ Hm).
  destruct (_munge_whitespace _) as [|c s]; [by left|].
  right. by eexists.
Qed.

End blank_facts.

(** X2.  A title and a body of whitespace only (spaces, tabs, line
    breaks, or nothing at all) wrap to no line each, whenever the wrap
    widths are valid: the overlay of such a slide has the two blocks
    empty. *)
Theorem whitespace_only_blocks_wrap_to_nothing
    (title_font explanation_font : PIL.font) (img_width : Z)
    (slide_title slide_text : string)
    (Htitle : whitespace_only slide_title)
    (Htext : whitespace_only slide_text)
    (Hwt : 1 <= compositor.chars_per_line (usable_width img_width)
                  (PIL.textlength title_font "a") 30)
    (Hwe : 1 <= compositor.chars_per_line (usable_width img_width)
                  (PIL.textlength explanation_font "a") 50) :
  compositor.wrap_blocks title_font explanation_font img_width
                         slide_title slide_text
  = Ok ([], []).
Proof.
  unfold compositor.wrap_blocks. unfold usable_width in *.
  by rewrite !blank_facts.wrap_white.
Qed.

Lemma whitespace_only_blocks_wrap_to_nothing_witness :
  compositor.wrap_blocks (demo.face 80) (demo.face 45) 1024
    "   " (String (ascii_of_nat 9) (String (ascii_of_nat 10) " "))
  = Ok ([], []).
Proof.
  apply whitespace_only_blocks_wrap_to_nothing.
  - unfold whitespace_only. simpl. repeat constructor.
  - unfold whitespace_only. simpl. repeat constructor.
  - vm_compute. congruence.
  - vm_compute. congruence.
Defined.

(** ** Wrapping: the lines can be measured and drawn *)

Module clean_facts.

Import textwrap.

Lemma split_from_nonempty (fuel : nat) (before s : str) :
  Forall (fun chunk => chunk <> []) (split_from fuel before s).
Proof.
  revert before s. induction fuel as [|fuel IH]; intros before s;
    [constructor|].
  destruct s as [|c s]; [constructor|]. cbn [split_from]. cbv zeta.
  constructor; [|apply IH].
  pose proof (textwrap_facts.wordsep_pos before c s) as Hn.
  destruct (wordsep before (c :: s)); [lia | done].
Qed.

Lemma Forall_concat_inv {A} (P : A -> Prop) (ls : list (list A)) :
  Forall P (concat ls) -> Forall (Forall P) ls.
Proof.
  induction ls as [|l ls IH]; simpl; [constructor|].
  intros H. apply Forall_app in H as [H1 H2]. constructor; auto.
Qed.

Lemma munge_no_control (text : str) :
  Forall no_control (_munge_whitespace text).
Proof.
  unfold _munge_whitespace. apply Forall_map, List.Forall_forall.
  intros c _. unfold no_control. simpl.
  destruct (whitespace c) eqn:E; [done | congruence].
Qed.

Lemma split_chunks_clean (text : str) : Forall clean (_split_chunks text).
Proof.
  unfold _split_chunks, clean.
  pose proof (munge_no_control text) as Hm.
  rewrite <- (textwrap_facts.split_concat (_munge_whitespace text)) in Hm.
  apply Forall_concat_inv in Hm.
  pose proof (split_from_nonempty (List.length (_munge_whitespace text)) []
                (_munge_whitespace text)) as Hn.
  fold (_split (_munge_whitespace text)) in Hn.
  revert Hm Hn. generalize (_split (_munge_whitespace text)).
  induction 1; inversion 1; subst; constructor; auto.
Qed.

Lemma drop_trailing_blank_clean (l : list str) :
  Forall clean l -> Forall clean (drop_trailing_blank l).
Proof.
  intros H. unfold drop_trailing_blank.
  destruct (last l) as [b|] eqn:El; [|done].
  destruct (blank b); [|done].
  apply last_Some in El as [l' ->]. rewrite removelast_last.
  by apply Forall_app in H as [H _].
Qed.

Lemma drop_trailing_blank_piece (l : list str) (piece : str) :
  Forall clean l -> Forall no_control piece ->
  Forall clean (drop_trailing_blank (l ++ [piece])).
Proof.
  intros Hl Hp. unfold drop_trailing_blank. rewrite last_snoc.
  destruct (blank piece) eqn:Eb; [by rewrite removelast_last|].
  apply Forall_app. split; [done|]. constructor; [|constructor].
  split; [|done]. by intros ->.
Qed.

Lemma wrap_line_clean width (chunks : list str) started :
  1 <= width -> Forall clean chunks ->
  let r := wrap_line width chunks started in
  Forall clean r.1 /\ Forall clean r.2.
Proof.
  intros Hw Hc. unfold wrap_line.
  set (chunks0 := match chunks with [] => _ | _ => _ end).
  assert (H0 : Forall clean chunks0).
  { subst chunks0. destruct chunks as [|c cs]; [done|].
    destruct (_ && _); [by inversion Hc | done]. }
  pose proof (textwrap_facts.fill_line_fits width chunks0 [] 0 eq_refl
                ltac:(lia)) as Hfit.
  destruct (words_facts.fill_line_split width chunks0 [] 0)
    as (taken & rest & n & Hsplit & Hfill).
  rewrite Hfill in *. change ([] ++ taken) with taken in *.
  cbn [fst snd] in Hfit. destruct Hfit as [Hn Hle].
  rewrite Hsplit in H0. apply Forall_app in H0 as [Ht Hr].
  destruct rest as [|c cs].
  { cbn [fst snd]. split; [by apply drop_trailing_blank_clean | done]. }
  destruct (width <? len c) eqn:Elong.
  2: { cbn [fst snd]. split; [by apply drop_trailing_blank_clean | done]. }
  apply Z.ltb_lt in Elong.
  inversion Hr as [|? ? [Hne Hcc] Hcs]; subst.
  unfold _handle_long_word.
  assert (Hsl : (width <? 1) = false) by (apply Z.ltb_ge; lia). rewrite Hsl.
  assert (Hn0 : 0 <= len (concat taken)) by (unfold len; lia).
  set (space_left := width - len (concat taken)).
  assert (Hlt : (space_left <? len c) = true)
    by (apply Z.ltb_lt; subst space_left; lia).
  rewrite Hlt.
  set (end_ := if _ && _ then _ else space_left).
  assert (He : 0 <= end_ < len c).
  { subst end_.
    pose proof (textwrap_facts.rfind_hyphen_lt c (Z.to_nat space_left)).
    destruct (_ && _) eqn:Eh; [|subst space_left; lia].
    apply andb_prop in Eh as [Eh _]. apply Z.ltb_lt in Eh.
    subst space_left. lia. }
  cbn [fst snd]. split.
  - apply drop_trailing_blank_piece; [done | by apply Forall_take].
  - constructor; [|done]. split; [|by apply Forall_drop].
    intros Hd. apply (f_equal (@List.length _)) in Hd.
    rewrite length_drop in Hd. unfold len in He. simpl in Hd. lia.
Qed.

Lemma append_line_clean (lines cur_line : list str) :
  Forall clean lines -> Forall clean cur_line ->
  Forall clean (append_line lines cur_line).
Proof.
  intros Hl Hc. unfold append_line. destruct cur_line as [|c cl]; [done|].
  apply Forall_app. split; [done|]. constructor; [|constructor].
  inversion Hc as [|? ? [Hne Hcc] Hcl]; subst. split.
  - simpl. destruct c; [done | discriminate].
  - apply Forall_concat. constructor; [done|].
    eapply Forall_impl; [exact Hcl|]. by intros ? [_ ?].
Qed.

Lemma wrap_loop_clean width (chunks lines : list str) :
  Forall clean chunks -> Forall clean lines ->
  Forall clean (wrap_loop width chunks lines).
Proof.
  funelim (wrap_loop width chunks lines); intros Hc Hl; simp wrap_loop.
  destruct (wrap_line_clean (Z.pos width) (chunk :: chunks) (nonempty lines)
              ltac:(lia) Hc) as [H1 H2].
  apply H; [done|]. by apply append_line_clean.
Qed.

Lemma wrap_clean (text : string) (width : Z) :
  1 <= width ->
  exists lines,
    wrap text width = Ok lines
    /\ Forall (fun line => line <> "" /\ Forall no_control (Py.chars line))
              lines.
Proof.
  intros Hw. unfold wrap, _wrap_chunks.
  assert (E : (width <=? 0) = false) by (apply Z.leb_gt; lia). rewrite E.
  eexists. split; [reflexivity|]. apply Forall_map.
  eapply Forall_impl;
    [apply wrap_loop_clean; [apply split_chunks_clean | constructor]|].
  intros l [Hne Hl]. simpl. rewrite words_facts.chars_str. split; [|done].
  destruct l; [done | discriminate].
Qed.

End clean_facts.

(** X3.  No wrapped line is empty, and none holds a line break, a tab or
    any whitespace other than the space: each line is a single line of
    text, which is what [draw.textlength] requires of the text it
    measures. *)
Theorem wrapped_lines_are_single_lines (text : string) (width : Z)
    (Hw : 1 <= width) :
  exists lines,
    textwrap.wrap text width = Ok lines
    /\ Forall (fun line => line <> "" /\ Forall no_control (Py.chars line))
              lines.
Proof. by apply clean_facts.wrap_clean. Qed.

Lemma wrapped_lines_are_single_lines_witness :
  1 <= 12
  /\ exists lines,
       textwrap.wrap
         ("Rates" +:+ Py.newline +:+ "rise" +:+ String (ascii_of_nat 9) "again")
         12 = Ok lines
       /\ Forall (fun line => line <> "" /\ Forall no_control (Py.chars line))
                 lines.
Proof.
  split; [lia|]. apply (wrapped_lines_are_single_lines _ 12). lia.
Defined.

(** ** What a call leaves on the file system *)

Lemma saved_spec (w : world) (path : string) (image : option PIL.image) :
  let s := saved w path image in
  (s.1 = false -> s.2 = fs w)
  /\ (s.1 = true -> exists im, s.2 = <[path := ImageFile im]> (fs w))
  /\ (forall p, p <> path -> s.2 !! p = fs w !! p).
Proof.
  unfold saved. destruct image as [im|]; [destruct (writable w path)|];
    cbn [fst snd]; (split; [|split]); try done.
  - by exists im.
  - intros p Hp. by rewrite lookup_insert_ne.
Qed.

(** Saving again what was saved changes nothing. *)
Lemma saved_again (w w1 : world) (path : string) (image : option PIL.image) :
  fs w1 = (saved w path image).2 -> writable w1 = writable w ->
  saved w1 path image = saved w path image.
Proof.
  unfold saved. intros Hfs Hwr. rewrite Hwr.
  destruct image as [im|]; [|by rewrite Hfs].
  destruct (writable w path); cbn [snd] in Hfs; rewrite Hfs; [|done].
  by rewrite insert_insert_eq.
Qed.

(** X4.  Neither entry point touches a file other than its output:
    whatever the call returns, at every path other than the output path
    the file system holds what it held, and a call that returns [True]
    has put an image at the output path.  A font, the background and any
    earlier slide stay in place unless the output path is theirs. *)
Theorem entry_points_write_output_only
    (headline_text image_path slide_title slide_text output_path : string)
    (w : world) :
  let headline :=
    compositor.create_branded_headline_slide headline_text output_path w in
  let overlay :=
    compositor.add_text_to_image image_path slide_title slide_text
                                 output_path w in
  Forall (fun r : res bool * world =>
            (r.1 = Ok true ->
             exists im, fs r.2 = <[output_path := ImageFile im]> (fs w))
            /\ (forall p, p <> output_path -> fs r.2 !! p = fs w !! p)
            /\ writable r.2 = writable w
            /\ module_file r.2 = module_file w)
         [headline; overlay].
Proof.
  intros headline overlay.
  destruct (create_branded_headline_slide_run headline_text output_path w)
    as (w1 & E1 & Hfs1 & Hw1 & Hm1).
  destruct (add_text_to_image_run image_path slide_title slide_text
              output_path w) as (w2 & E2 & Hfs2 & Hw2 & Hm2).
  subst headline overlay. rewrite E1, E2. cbn zeta in *.
  constructor; [|constructor; [|constructor]]; cbn [fst snd];
    match goal with
    | H : fs ?w' = (saved w output_path ?image).2 |- _ =>
        destruct (saved_spec w output_path image) as (S1 & S2 & S3);
        rewrite H
    end;
    (split; [intros [= E]; by apply S2|]); by split.
Qed.

Lemma entry_points_write_output_only_witness :
  let r :=
    compositor.add_text_to_image "test_image_google.png" "The Market Reacts"
      "Investors are cautiously optimistic." "out.png" demo.later in
  r.1 = Ok true
  /\ fs r.2 !! "notes.txt" = Some OtherFile
  /\ fs r.2 !! "test_image_google.png" = Some (ImageFile demo.gray).
Proof.
  pose proof (entry_points_write_output_only "" "test_image_google.png"
                "The Market Reacts" "Investors are cautiously optimistic."
                "out.png" demo.later) as H.
  cbv zeta in H. apply Forall_cons_1 in H as [_ H].
  apply Forall_cons_1 in H as [(_ & H & _) _].
  split; [vm_compute; reflexivity|].
  split; (rewrite H; [vm_compute; reflexivity | discriminate]).
Defined.

(** X5.  Running an entry point a second time with the same arguments
    changes nothing more, provided the output path is none of the paths
    the call reads: the second run returns what the first returned and
    leaves the file system as the first left it. *)
Theorem rerun_changes_nothing
    (headline_text image_path slide_title slide_text output_path : string)
    (w : world)
    (Hbold : output_path <> font_path w "Inter-Bold.ttf") :
  (output_path <> font_path w "PlayfairDisplay-ExtraBold.ttf" ->
   let run :=
     compositor.create_branded_headline_slide headline_text output_path in
   (run (run w).2).1 = (run w).1 /\ fs (run (run w).2).2 = fs (run w).2)
  /\ (output_path <> image_path ->
      output_path <> font_path w "Inter-Regular.ttf" ->
      let run :=
        compositor.add_text_to_image image_path slide_title slide_text
                                     output_path in
      (run (run w).2).1 = (run w).1 /\ fs (run (run w).2).2 = fs (run w).2).
Proof.
  split.
  - intros Hmain run. subst run.
    destruct (create_branded_headline_slide_run headline_text output_path w)
      as (w1 & E1 & Hfs1 & Hw1 & Hm1).
    rewrite E1. cbn [fst snd].
    destruct (create_branded_headline_slide_run headline_text output_path w1)
      as (w2 & E2 & Hfs2 & Hw2 & Hm2).
    cbv zeta in *.
    destruct (saved_spec w output_path
                (headline_image
                   (fs w !! font_path w "PlayfairDisplay-ExtraBold.ttf")
                   (fs w !! font_path w "Inter-Bold.ttf") headline_text))
      as (_ & _ & Hother).
    rewrite <- Hfs1 in Hother.
    assert (Hp : forall n, font_path w1 n = font_path w n)
      by (intros n; unfold font_path; by rewrite Hm1).
    rewrite !Hp, !Hother in E2, Hfs2 by congruence.
    rewrite (saved_again w w1 _ _ Hfs1 Hw1) in E2, Hfs2.
    rewrite E2. cbn [fst snd]. split; [done | congruence].
  - intros Himg Hreg run. subst run.
    destruct (add_text_to_image_run image_path slide_title slide_text
                output_path w) as (w1 & E1 & Hfs1 & Hw1 & Hm1).
    rewrite E1. cbn [fst snd].
    destruct (add_text_to_image_run image_path slide_title slide_text
                output_path w1) as (w2 & E2 & Hfs2 & Hw2 & Hm2).
    cbv zeta in *.
    destruct (saved_spec w output_path
                (overlay_image (fs w !! image_path)
                   (fs w !! font_path w "Inter-Bold.ttf")
                   (fs w !! font_path w "Inter-Regular.ttf")
                   slide_title slide_text))
      as (_ & _ & Hother).
    rewrite <- Hfs1 in Hother.
    assert (Hp : forall n, font_path w1 n = font_path w n)
      by (intros n; unfold font_path; by rewrite Hm1).
    rewrite !Hp, !Hother in E2, Hfs2 by congruence.
    rewrite (saved_again w w1 _ _ Hfs1 Hw1) in E2, Hfs2.
    rewrite E2. cbn [fst snd]. split; [done | congruence].
Qed.

Lemma rerun_changes_nothing_witness :
  let run :=
    compositor.add_text_to_image "test_image_google.png" "The Market Reacts"
      "Investors are cautiously optimistic." "out.png" in
  (run (run demo.w0).2).1 = (run demo.w0).1
  /\ fs (run (run demo.w0).2).2 = fs (run demo.w0).2.
Proof.
  assert (Hbold : "out.png" <> font_path demo.w0 "Inter-Bold.ttf")
    by (vm_compute; discriminate).
  apply (rerun_changes_nothing "" "test_image_google.png" "The Market Reacts"
           "Investors are cautiously optimistic." "out.png" demo.w0 Hbold).
  - discriminate.
  - vm_compute. discriminate.
Defined.

(** ** The drawing calls of the overlay *)

Module stack_facts.

Import PIL compositor.

Lemma advance_ge f spacing (lines : list string) acc :
  (forall s, 0 <= line_height f s) -> 0 <= spacing ->
  acc <= advance f spacing lines acc.
Proof.
  intros Hh Hs. rewrite layout_facts.advance_shift.
  pose proof (layout_facts.advance_nonneg f spacing lines Hh Hs). lia.
Qed.

(** A line of a block is drawn at or below the top of the block, and the
    running height after the block is below the line by its height and
    the spacing at least. *)
Lemma draw_lines_between f spacing margin (lines : list string) y0 op :
  (forall s, 0 <= line_height f s) -> 0 <= spacing ->
  In op (draw_lines f spacing margin lines y0) ->
  exists y line,
    op = text (px margin, px y) line f (Named "white") None
    /\ y0 <= y
    /\ y + line_height f line + spacing <= advance f spacing lines y0.
Proof.
  intros Hh Hs Hin.
  destruct (layout_facts.in_draw_lines _ _ _ _ _ _ Hin)
    as (before & line & after & -> & ->).
  eexists _, line. split; [reflexivity|].
  split; [by apply advance_ge|].
  rewrite layout_facts.advance_app, layout_facts.advance_cons.
  pose proof (advance_ge f spacing after
                (advance f spacing before y0 + (line_height f line + spacing))
                Hh Hs). lia.
Qed.

Lemma px_le (a b : Z) : a <= b -> (px a <= px b)%Q.
Proof. intros H. unfold Qle. simpl. lia. Qed.

Lemma px_add (a b : Z) : (px a + px b == px (a + b))%Q.
Proof. unfold Qeq, Qplus. simpl. lia. Qed.

Lemma drawn_below_text margin gap f g (l1 l2 : string) y1 y2 c1 c2 a1 a2 :
  y1 + line_height f l1 + gap <= y2 ->
  drawn_below gap (text (px margin, px y1) l1 f c1 a1)
                  (text (px margin, px y2) l2 g c2 a2).
Proof.
  intros H. unfold drawn_below. rewrite !px_add. by apply px_le.
Qed.

Lemma draw_lines_stacked f spacing margin (lines : list string) y0 gap :
  (forall s, 0 <= line_height f s) -> 0 <= gap <= spacing ->
  ForallOrdPairs (drawn_below gap) (draw_lines f spacing margin lines y0).
Proof.
  intros Hh Hg. assert (Hs : 0 <= spacing) by lia. revert y0.
  induction lines as [|line rest IH]; intros y0; simpl; constructor;
    [|apply IH].
  apply List.Forall_forall. intros op Hin.
  destruct (draw_lines_between _ _ _ _ _ _ Hh Hs Hin)
    as (y & l & -> & Hy & _).
  apply drawn_below_text. lia.
Qed.

Lemma ordered_app {A} (R : A -> A -> Prop) (l1 l2 : list A) :
  ForallOrdPairs R l1 -> ForallOrdPairs R l2 ->
  (forall a b, In a l1 -> In b l2 -> R a b) ->
  ForallOrdPairs R (l1 ++ l2).
Proof.
  induction 1 as [|a l Ha _ IH]; intros H2 H12; simpl; [done|].
  constructor.
  - apply Forall_app. split; [done|].
    apply List.Forall_forall. intros b Hb. apply H12; [by left | done].
  - apply IH; [done|]. intros a' b Ha' Hb. apply H12; [by right | done].
Qed.

Lemma draw_lines_texts f spacing margin (lines : list string) y0 :
  Forall2 (fun op (lf : string * font) =>
             exists y, op = text (px margin, y) lf.1 lf.2
                                 (Named "white") None)
          (draw_lines f spacing margin lines y0)
          (map (fun line => (line, f)) lines).
Proof.
  revert y0. induction lines as [|line rest IH]; intros y0; simpl;
    constructor; [by eexists | apply IH].
Qed.

Lemma overlay_stacked tf ef margin (wt we : list string) :
  (forall s, 0 <= line_height tf s) -> (forall s, 0 <= line_height ef s) ->
  exists box texts,
    overlay_ops tf ef margin wt we
    = rectangle box (Tuple 0 0 0 153) :: texts
    /\ Forall2 (fun op (lf : string * font) =>
                  exists y, op = text (px margin, y) lf.1 lf.2
                                      (Named "white") None)
               texts
               (map (fun line => (line, tf)) wt
                ++ map (fun line => (line, ef)) we)
    /\ ForallOrdPairs (drawn_below 9) texts.
Proof.
  intros Ht He. unfold overlay_ops. eexists _, _.
  split; [reflexivity|]. split.
  - apply Forall2_app; apply draw_lines_texts.
  - destruct spacings as [Hts Hes].
    assert (Hts0 : 0 <= title_spacing) by (rewrite Hts; lia).
    assert (Hes0 : 0 <= exp_spacing) by (rewrite Hes; lia).
    apply ordered_app.
    + apply draw_lines_stacked; [done | rewrite Hts; lia].
    + apply draw_lines_stacked; [done | rewrite Hes; lia].
    + intros a b Ha Hb.
      destruct (draw_lines_between _ _ _ _ _ _ Ht Hts0 Ha)
        as (y1 & l1 & -> & _ & H1).
      destruct (draw_lines_between _ _ _ _ _ _ He Hes0 Hb)
        as (y2 & l2 & -> & H2 & _).
      apply drawn_below_text. unfold space_between_blocks in *.
      cbv zeta in *. rewrite Hts in *. lia.
Qed.

(** [max(xs)] is one of the [xs]. *)
Lemma max_in (x : Q) (xs : list Q) : In (Py.max x xs) (x :: xs).
Proof.
  unfold Py.max. revert x. induction xs as [|z zs IH]; intros x; simpl;
    [by left|].
  destruct (IH (Py.max2 x z)) as [<- | Hin]; [|by right; right].
  unfold Py.max2. destruct (Qlt_le_dec x z); [right; by left | by left].
Qed.

End stack_facts.

(** X6.  The drawing calls of the overlay, in the order they are made:
    the backing rectangle first (so that it lies behind the text), then
    one call for each title line in the title font, then one for each
    body line in the body font, each line drawn in white at the left
    margin.  With fonts whose lines have a height that is not negative,
    the points the lines are drawn at go down the page in reading
    order: the point of a line lies below the point of every line drawn
    before it, by the height of that line's ink and 9 pixels at least.
    (Where the ink of a line sits below its point is the font's matter,
    and is not looked at.) *)
Theorem overlay_lines_stacked_in_reading_order
    (title_font explanation_font : PIL.font) (margin : Z)
    (wrapped_title wrapped_explanation : list string)
    (Htitle : forall s, 0 <= compositor.line_height title_font s)
    (Hexp : forall s, 0 <= compositor.line_height explanation_font s) :
  exists box texts,
    compositor.overlay_ops title_font explanation_font margin
                           wrapped_title wrapped_explanation
    = PIL.rectangle box (PIL.Tuple 0 0 0 153) :: texts
    /\ Forall2 (fun op (lf : string * PIL.font) =>
                  exists y, op = PIL.text (inject_Z margin, y) lf.1 lf.2
                                          (PIL.Named "white") None)
               texts
               (map (fun line => (line, title_font)) wrapped_title
                ++ map (fun line => (line, explanation_font))
                       wrapped_explanation)
    /\ ForallOrdPairs (drawn_below 9) texts.
Proof. by apply stack_facts.overlay_stacked. Qed.

Lemma overlay_lines_stacked_in_reading_order_witness :
  exists box texts,
    compositor.overlay_ops (demo.face 80) (demo.face 45) 81
                           ["The Market"; "Reacts"] ["Investors are calm."]
    = PIL.rectangle box (PIL.Tuple 0 0 0 153) :: texts
    /\ Forall2 (fun op (lf : string * PIL.font) =>
                  exists y, op = PIL.text (inject_Z 81, y) lf.1 lf.2
                                          (PIL.Named "white") None)
               texts
               (map (fun line => (line, demo.face 80))
                    ["The Market"; "Reacts"]
                ++ map (fun line => (line, demo.face 45))
                       ["Investors are calm."])
    /\ ForallOrdPairs (drawn_below 9) texts.
Proof.
  apply overlay_lines_stacked_in_reading_order;
    intros s; apply demo_line_height_nonneg; lia.
Defined.

(** X7.  The backing rectangle is as wide as the longest line and the
    padding on both sides: its width is [max_line_width] plus 60, where
    [max_line_width] is the measured length of one of the lines, each in
    the font of its block, and no line of either block measures more
    (it is 0 when there is no line). *)
Theorem backing_rectangle_width_is_longest_line
    (title_font explanation_font : PIL.font) (margin total_height : Z)
    (wrapped_title wrapped_explanation : list string) :
  let longest :=
    compositor.max_line_width title_font explanation_font
                              wrapped_title wrapped_explanation in
  let line_of f line :=
    (f = title_font /\ In line wrapped_title)
    \/ (f = explanation_font /\ In line wrapped_explanation) in
  (box_width (compositor.bg_bbox margin longest total_height)
   == longest + 60)%Q
  /\ (forall f line, line_of f line -> (PIL.textlength f line <= longest)%Q)
  /\ match wrapped_title, wrapped_explanation with
     | [], [] => longest = 0%Q
     | _, _ => exists f line, line_of f line /\ longest = PIL.textlength f line
     end.
Proof.
  intros longest line_of. split; [|split].
  - unfold box_width, compositor.bg_bbox, compositor.padding. cbn [fst snd].
    destruct longest as [n d].
    unfold Qeq, Qminus, Qplus, Qopp, inject_Z. simpl. lia.
  - intros f line Hl. by apply layout_facts.max_line_width_ge.
  - assert (Hin : wrapped_title ++ wrapped_explanation <> [] ->
                  exists f line,
                    line_of f line /\ longest = PIL.textlength f line).
    { intros Hne. subst longest line_of. unfold compositor.max_line_width.
      destruct (map _ wrapped_title ++ map _ wrapped_explanation)
        as [|x xs] eqn:E.
      { apply app_eq_nil in E as [E1 E2].
        apply map_eq_nil in E1, E2. subst. done. }
      pose proof (stack_facts.max_in x xs) as Hmax. rewrite <- E in Hmax.
      apply in_app_or in Hmax as [H | H]; apply in_map_iff in H
        as (line & <- & Hl).
      - exists title_font, line. split; [by left | done].
      - exists explanation_font, line. split; [by right | done]. }
    destruct wrapped_title as [|t ts]; [destruct wrapped_explanation|];
      [reflexivity | by apply Hin..].
Qed.

Lemma backing_rectangle_width_is_longest_line_witness :
  let longest :=
    compositor.max_line_width (demo.face 80) (demo.face 45)
                              ["Rates"] ["Up again"] in
  In "Up again" ["Up again"]
  /\ (PIL.textlength (demo.face 45) "Up again" <= longest)%Q
  /\ (PIL.textlength (demo.face 80) "Rates" <= longest)%Q.
Proof.
  intros longest.
  pose proof (backing_rectangle_width_is_longest_line
                (demo.face 80) (demo.face 45) 81 200 ["Rates"] ["Up again"])
    as (_ & H & _).
  split; [by left|]. split.
  - apply H. right. split; [reflexivity | by left].
  - apply H. left. split; [reflexivity | by left].
Defined.

(** ** When a call succeeds, and what the headline slide is *)

Lemma wrap_ok_iff (text : string) (width : Z) :
  (exists lines, textwrap.wrap text width = Ok lines) <-> 1 <= width.
Proof.
  split.
  - intros [lines H]. destruct (Z_lt_le_dec 0 width) as [|Hle]; [lia|].
    rewrite (textwrap_facts.wrap_invalid_width text width Hle) in H.
    discriminate.
  - intros Hw. destruct (textwrap_facts.wrap_fits text width Hw)
      as (lines & H & _). by exists lines.
Qed.

Lemma headline_image_some main_file tag_file headline_text im :
  headline_image main_file tag_file headline_text = Some im ->
  exists main_font tag_font footer_font,
    load_face main_file 80 = Ok main_font
    /\ load_face tag_file 24 = Ok tag_font
    /\ load_face tag_file 20 = Ok footer_font
    /\ compositor.headline_slide main_font tag_font footer_font headline_text
       = Ok im.
Proof.
  unfold headline_image.
  destruct (load_face main_file 80) as [mf|]; [|discriminate].
  destruct (load_face tag_file 24) as [tf|]; [|discriminate].
  destruct (load_face tag_file 20) as [ff|]; [|discriminate].
  destruct (compositor.headline_slide _ _ _ _) as [img|] eqn:E;
    [|discriminate].
  intros [= <-]. by exists mf, tf, ff.
Qed.

Lemma loads_load_face (w : world) (font_name : string) (sz : Z)
    (f : PIL.font) :
  loads w font_name sz f
  <-> load_face (fs w !! font_path w font_name) sz = Ok f.
Proof.
  split.
  - intros (face & -> & Hf). simpl. by rewrite Hf.
  - intros H. by apply load_face_ok in H.
Qed.

(** X8.  When [create_branded_headline_slide] returns [True], the three
    fonts were loaded (the display font at 80, the tag font at 24 and at
    20), and the output path holds an RGB image of 1024 by 1024 pixels:
    a plain background with four drawing calls on it, in this order: the
    red tag box at (102, 102)-(282, 142), the tag label centred in it,
    the headline wrapped at the width the display font gives for 820
    pixels, its lines joined by line feeds and drawn at x = 102 so that
    the measured height of the block is centred vertically, and the
    footer right-aligned at (922, 922). *)
Theorem headline_slide_output
    (headline_text output_path : string) (w w' : world)
    (Hok : compositor.create_branded_headline_slide headline_text output_path
             w = (Ok true, w')) :
  exists main_font tag_font footer_font lines out text_y,
    loads w "PlayfairDisplay-ExtraBold.ttf" 80 main_font
    /\ loads w "Inter-Bold.ttf" 24 tag_font
    /\ loads w "Inter-Bold.ttf" 20 footer_font
    /\ textwrap.wrap headline_text
         (compositor.chars_per_line 820 (PIL.textlength main_font "A") 20)
       = Ok lines
    /\ fs w' !! output_path = Some (ImageFile out)
    /\ PIL.im_mode out = PIL.RGB
    /\ PIL.size out = (1024, 1024)
    /\ PIL.pixels out
       = PIL.Drawn (PIL.Fill (PIL.Named "#F8F9FA"))
           [PIL.rectangle (102, 102, 282, 142)%Q (PIL.Named "#D92D20");
            PIL.text (192, 122)%Q "LATEST NEWS" tag_font (PIL.Named "white")
                     (Some "mm");
            PIL.text (102%Q, text_y) (String.concat Py.newline lines)
                     main_font (PIL.Named "black") None;
            PIL.text (922, 922)%Q "Finance & Politics Brief" footer_font
                     (PIL.Named "#6C757D") (Some "rs")]
    /\ let box :=
         PIL.multiline_textbbox main_font (102, 0)
                                (String.concat Py.newline lines) in
       (text_y + text_y
        + inject_Z (PIL.bbox_bottom box - PIL.bbox_top box) == 1024)%Q.
Proof.
  destruct (create_branded_headline_slide_run headline_text output_path w)
    as (w1 & Hrun & Hfs & _).
  rewrite Hok in Hrun. injection Hrun as Hs <-. symmetry in Hs.
  apply saved_true in Hs as (im & Him & Hwr & Hsaved).
  rewrite Hsaved in Hfs.
  apply headline_image_some in Him as (mf & tf & ff & H1 & H2 & H3 & Hslide).
  apply loads_load_face in H1, H2, H3.
  unfold compositor.headline_slide in Hslide.
  change (Py.int (inject_Z 1024 * (1 # 10))) with 102 in Hslide.
  change (1024 - 2 * 102) with 820 in Hslide.
  destruct (textwrap.wrap _ _) as [lines|] eqn:Ew; [|discriminate].
  injection Hslide as <-.
  eexists mf, tf, ff, lines, _, _.
  split; [exact H1|]. split; [exact H2|]. split; [exact H3|].
  split; [exact Ew|]. split; [by rewrite Hfs, lookup_insert_eq|].
  split; [reflexivity|]. split; [reflexivity|]. split; [reflexivity|].
  cbv zeta.
  set (h := PIL.bbox_bottom _ - PIL.bbox_top _).
  unfold Qeq, Qplus, Qdiv, Qmult, Qinv, inject_Z. simpl. lia.
Qed.

Lemma headline_slide_output_witness :
  let r :=
    compositor.create_branded_headline_slide
      "Central bank holds rates steady" "slide.png" demo.w0 in
  r.1 = Ok true
  /\ exists out, fs r.2 !! "slide.png" = Some (ImageFile out)
                 /\ PIL.size out = (1024, 1024).
Proof.
  intros r.
  assert (H1 : r.1 = Ok true) by (vm_compute; reflexivity).
  assert (Hr : r = (Ok true, r.2)).
  { destruct r as [a b]. simpl in *. by rewrite H1. }
  split; [exact H1|].
  destruct (headline_slide_output _ _ _ _ Hr)
    as (mf & tf & ff & lines & out & y & _ & _ & _ & _ & Hout & _ & Hsz & _).
  exists out. split; [exact Hout | exact Hsz].
Defined.

(** X9.  [add_text_to_image] returns [True] exactly when the background
    opens as an image, the two fonts load at their sizes, both wrap
    widths are at least 1, and the output can be written.  Whether the
    call succeeds does not depend on the title and the text. *)
Theorem overlay_succeeds_iff
    (image_path slide_title slide_text output_path : string) (w : world) :
  (compositor.add_text_to_image image_path slide_title slide_text
                                output_path w).1 = Ok true
  <-> exists background title_font explanation_font,
        fs w !! image_path = Some (ImageFile background)
        /\ loads w "Inter-Bold.ttf" 80 title_font
        /\ loads w "Inter-Regular.ttf" 45 explanation_font
        /\ 1 <= compositor.chars_per_line
                  (usable_width (PIL.size background).1)
                  (PIL.textlength title_font "a") 30
        /\ 1 <= compositor.chars_per_line
                  (usable_width (PIL.size background).1)
                  (PIL.textlength explanation_font "a") 50
        /\ writable w output_path = true.
Proof.
  destruct (add_text_to_image_run image_path slide_title slide_text
              output_path w) as (w1 & Hrun & _).
  rewrite Hrun. cbn [fst]. cbv zeta. unfold saved, overlay_image, usable_width.
  split.
  - destruct (decode (fs w !! image_path)) as [opened|] eqn:Ed;
      [|discriminate].
    destruct (load_face _ 80) as [tf|] eqn:Et; [|discriminate].
    destruct (load_face _ 45) as [ef|] eqn:Ee; [|discriminate].
    unfold compositor.text_layer, compositor.wrap_blocks. cbn [PIL.size PIL.convert].
    destruct (textwrap.wrap slide_title _) as [wt|] eqn:Ewt;
      [|discriminate].
    destruct (textwrap.wrap slide_text _) as [we|] eqn:Ewe; [|discriminate].
    destruct (alpha_composite _ _); [|discriminate].
    destruct (writable w output_path) eqn:Ewr; [|discriminate].
    intros _. exists opened, tf, ef.
    split; [by apply decode_ok|].
    split; [by apply loads_load_face|]. split; [by apply loads_load_face|].
    split; [apply (wrap_ok_iff slide_title); by eexists|].
    split; [apply (wrap_ok_iff slide_text); by eexists | done].
  - intros (bg & tf & ef & Hbg & Htf & Hef & Hwt & Hwe & Hwr).
    apply loads_load_face in Htf, Hef. rewrite Hbg, Htf, Hef. cbn [decode].
    unfold compositor.text_layer, compositor.wrap_blocks.
    cbn [PIL.size PIL.convert].
    apply (wrap_ok_iff slide_title) in Hwt as [wt ->].
    apply (wrap_ok_iff slide_text) in Hwe as [we ->].
    unfold alpha_composite. cbn [PIL.im_mode PIL.size PIL.convert PIL.draw PIL.new].
    rewrite bool_decide_eq_true_2 by done. by rewrite Hwr.
Qed.

Lemma overlay_succeeds_iff_witness :
  (compositor.add_text_to_image "test_image_google.png" "Any title"
     "Any text" "out.png" demo.w0).1 = Ok true.
Proof.
  apply overlay_succeeds_iff.
  exists demo.gray, (demo.face 80), (demo.face 45).
  split; [reflexivity|].
  split; [exists (fun sz => Some (demo.face sz)); split; reflexivity|].
  split; [exists (fun sz => Some (demo.face sz)); split; reflexivity|].
  split; [vm_compute; congruence|].
  split; [vm_compute; congruence | reflexivity].
Defined.

(** X10.  [create_branded_headline_slide] returns [True] exactly when
    the display font loads at size 80, the tag font loads at sizes 24
    and 20, the wrap width for 820 pixels is at least 1, and the output
    can be written.  Whether the call succeeds does not depend on the
    headline. *)
Theorem headline_succeeds_iff
    (headline_text output_path : string) (w : world) :
  (compositor.create_branded_headline_slide headline_text output_path w).1
  = Ok true
  <-> exists main_font tag_font footer_font,
        loads w "PlayfairDisplay-ExtraBold.ttf" 80 main_font
        /\ loads w "Inter-Bold.ttf" 24 tag_font
        /\ loads w "Inter-Bold.ttf" 20 footer_font
        /\ 1 <= compositor.chars_per_line 820
                  (PIL.textlength main_font "A") 20
        /\ writable w output_path = true.
Proof.
  destruct (create_branded_headline_slide_run headline_text output_path w)
    as (w1 & Hrun & _).
  rewrite Hrun. cbn [fst]. cbv zeta. unfold saved, headline_image.
  split.
  - destruct (load_face _ 80) as [mf|] eqn:Em; [|discriminate].
    destruct (load_face _ 24) as [tf|] eqn:Et; [|discriminate].
    destruct (load_face _ 20) as [ff|] eqn:Ef; [|discriminate].
    unfold compositor.headline_slide.
    change (Py.int (inject_Z 1024 * (1 # 10))) with 102.
    change (1024 - 2 * 102) with 820.
    destruct (textwrap.wrap headline_text _) as [lines|] eqn:Ew;
      [|discriminate].
    destruct (writable w output_path) eqn:Ewr; [|discriminate].
    intros _. exists mf, tf, ff.
    split; [by apply loads_load_face|]. split; [by apply loads_load_face|].
    split; [by apply loads_load_face|].
    split; [apply (wrap_ok_iff headline_text); by eexists | done].
  - intros (mf & tf & ff & Hmf & Htf & Hff & Hw & Hwr).
    apply loads_load_face in Hmf, Htf, Hff. rewrite Hmf, Htf, Hff.
    unfold compositor.headline_slide.
    change (Py.int (inject_Z 1024 * (1 # 10))) with 102.
    change (1024 - 2 * 102) with 820.
    apply (wrap_ok_iff headline_text) in Hw as [lines ->].
    by rewrite Hwr.
Qed.

Lemma headline_succeeds_iff_witness :
  (compositor.create_branded_headline_slide "Any headline" "slide.png"
     demo.w0).1 = Ok true.
Proof.
  apply headline_succeeds_iff.
  exists (demo.face 80), (demo.face 24), (demo.face 20).
  split; [exists (fun sz => Some (demo.face sz)); split; reflexivity|].
  split; [exists (fun sz => Some (demo.face sz)); split; reflexivity|].
  split; [exists (fun sz => Some (demo.face sz)); split; reflexivity|].
  split; [vm_compute; congruence | reflexivity].
Defined.

(** X11.  The left margin of the overlay is 8% of the image width,
    rounded down, so the text is given at least 84% of the width.  The
    wrap width is the number of reference glyphs that fit there: a line
    of that many glyphs as wide as the reference one, drawn at the left
    margin, ends at or before the right margin, and one glyph more would
    cross it. *)
Theorem reference_line_fits_between_margins
    (img_width default : Z) (avg_char_width : Q)
    (Hw : 0 <= img_width) (Ha : (0 < avg_char_width)%Q) :
  let margin := compositor.margin_of img_width in
  let count :=
    compositor.chars_per_line (usable_width img_width) avg_char_width
                              default in
  0 <= margin
  /\ 84 * img_width <= 100 * usable_width img_width
  /\ (inject_Z margin + inject_Z count * avg_char_width
      <= inject_Z (img_width - margin))%Q
  /\ (inject_Z (img_width - margin)
      < inject_Z margin + inject_Z (count + 1) * avg_char_width)%Q.
Proof.
  intros margin count.
  assert (Hm : margin = 8 * img_width / 100).
  { subst margin. unfold compositor.margin_of, Py.int. simpl.
    change (Z.pos (1 * 100)) with 100.
    rewrite Z.quot_div_nonneg by lia. f_equal. lia. }
  assert (Hm0 : 0 <= margin) by (rewrite Hm; apply Z.div_pos; lia).
  assert (Hm1 : 100 * margin <= 8 * img_width)
    by (rewrite Hm; apply Z.mul_div_le; lia).
  assert (Hu : 0 <= usable_width img_width) by (unfold usable_width; fold margin; lia).
  split; [exact Hm0|]. split; [unfold usable_width; fold margin; lia|].
  subst count. unfold compositor.chars_per_line.
  rewrite (proj2 (gt0_spec _) Ha), int_div by done.
  unfold usable_width in *. fold margin in Hu |- *.
  set (pixels := img_width - 2 * margin) in *.
  destruct avg_char_width as [n d]. unfold Qlt in Ha. simpl in Ha.
  assert (Hn : 0 < n) by lia. cbn [Qnum Qden].
  rewrite Z.quot_div_nonneg by lia.
  pose proof (Z.mul_div_le (pixels * Z.pos d) n Hn) as Hlo.
  pose proof (Z.mul_succ_div_gt (pixels * Z.pos d) n Hn) as Hhi.
  set (q := pixels * Z.pos d / n) in *.
  unfold Qle, Qlt, Qplus, Qmult, inject_Z. simpl. split; nia.
Qed.

Lemma reference_line_fits_between_margins_witness :
  let margin := compositor.margin_of 1024 in
  let count := compositor.chars_per_line (usable_width 1024) (48 # 1) 30 in
  0 <= margin
  /\ 84 * 1024 <= 100 * usable_width 1024
  /\ (inject_Z margin + inject_Z count * (48 # 1) <= inject_Z (1024 - margin))%Q
  /\ (inject_Z (1024 - margin)
      < inject_Z margin + inject_Z (count + 1) * (48 # 1))%Q.
Proof.
  apply (reference_line_fits_between_margins 1024 30 (48 # 1)).
  - lia.
  - reflexivity.
Defined.

(* ===================================================================== *)
(** * Properties of the callers *)
(* ===================================================================== *)

(** ** The arguments of the workflow: command line and Telegram message *)

Module cli_facts.

Import builtins.

Lemma mem_In (x : string) (xs : list string) : mem x xs = true <-> In x xs.
Proof.
  unfold mem. rewrite existsb_exists. split.
  - intros (y & Hy & E). apply String.eqb_eq in E. by subst.
  - intros H. exists x. split; [done | apply String.eqb_refl].
Qed.

(** [xs.remove(x)] with [x] in [xs]: the first [x] goes, nothing else. *)
Lemma remove_In (x : string) (xs : list string) :
  In x xs ->
  exists before after,
    xs = before ++ x :: after /\ ~ In x before
    /\ remove x xs = Return (before ++ after).
Proof.
  induction xs as [|y rest IH]; [done|]. intros Hin. simpl.
  destruct (String.eqb y x) eqn:E.
  - apply String.eqb_eq in E. subst y. exists [], rest.
    split; [done|]. split; [intros [] | done].
  - apply String.eqb_neq in E. destruct Hin as [-> | Hin]; [done|].
    destruct (IH Hin) as (before & after & -> & Hb & ->).
    exists (y :: before), after. simpl. split; [done|]. split; [|done].
    intros [-> | H]; done.
Qed.

Lemma remove_absent (x : string) (xs : list string) :
  ~ In x xs -> remove x xs = Throw (Builtin ValueError).
Proof.
  induction xs as [|y rest IH]; [done|]. intros Hn. simpl.
  destruct (String.eqb y x) eqn:E.
  - apply String.eqb_eq in E. subst y. destruct Hn. by left.
  - rewrite IH; [done|]. intros H. apply Hn. by right.
Qed.

(** The date flag, in full. *)
Lemma date_flag_spec (args : list string) (today : string) :
  (In "--date" args /\ In "today" args
   /\ exists rest,
        main.date_flag args today = Return (rest, Some today)
        /\ args ≡ₚ "--date" :: "today" :: rest
        /\ rest `sublist_of` args)
  \/ (~ (In "--date" args /\ In "today" args)
      /\ main.date_flag args today = Return (args, None)).
Proof.
  unfold main.date_flag.
  destruct (mem "--date" args) eqn:Ed; [destruct (mem "today" args) eqn:Et|].
  - left. apply mem_In in Ed, Et. split; [done|]. split; [done|].
    destruct (remove_In _ _ Ed) as (b1 & a1 & E1 & Hb1 & R1).
    assert (Ht : In "today" (b1 ++ a1)).
    { rewrite E1 in Et. apply in_app_or in Et as [H | [H | H]];
        [apply in_or_app; by left | done | apply in_or_app; by right]. }
    destruct (remove_In _ _ Ht) as (b2 & a2 & E2 & Hb2 & R2).
    cbn [andb]. rewrite R1. cbn [and_then]. rewrite R2. cbn [and_then].
    exists (b2 ++ a2). split; [done|]. split.
    + rewrite E1, <- Permutation_middle, E2, <- Permutation_middle.
      reflexivity.
    + rewrite E1. trans (b1 ++ a1).
      * rewrite E2. apply sublist_app; [reflexivity|]. by apply sublist_cons.
      * apply sublist_app; [reflexivity|]. by apply sublist_cons.
  - right. split; [|done]. intros [_ H]. apply mem_In in H. congruence.
  - right. split; [|done]. intros [H _]. apply mem_In in H. congruence.
Qed.

Lemma arguments_spec (args : list string) (today : string) :
  exists topics date_arg,
    main.arguments args today = Return (topics, date_arg)
    /\ topics <> []
    /\ ((date_arg = Some today
         /\ In "--date" args /\ In "today" args
         /\ exists rest,
              args ≡ₚ "--date" :: "today" :: rest
              /\ rest `sublist_of` args
              /\ topics = if textwrap.nonempty rest then rest
                          else main.default_topics)
        \/ (date_arg = None
            /\ ~ (In "--date" args /\ In "today" args)
            /\ topics = if textwrap.nonempty args then args
                        else main.default_topics)).
Proof.
  unfold main.arguments.
  destruct (date_flag_spec args today)
    as [(Hd & Ht & rest & -> & Hp & Hs) | (Hn & ->)]; cbn [and_then].
  - eexists _, _. split; [reflexivity|]. split; [by destruct rest|].
    left. split; [done|]. split; [done|]. split; [done|]. by exists rest.
  - eexists _, _. split; [reflexivity|]. split; [by destruct args|].
    right. by repeat split.
Qed.

(** Which occurrences go: the first [--date], then the first [today] of
    what is left. *)
Lemma date_flag_first (args : list string) (today : string) :
  In "--date" args -> In "today" args ->
  exists mid rest,
    without_first "--date" args mid /\ without_first "today" mid rest
    /\ main.date_flag args today = Return (rest, Some today).
Proof.
  intros Hd Ht. unfold main.date_flag.
  rewrite (proj2 (mem_In _ _) Hd), (proj2 (mem_In _ _) Ht). cbn [andb].
  destruct (remove_In _ _ Hd) as (b1 & a1 & E1 & Hb1 & R1).
  assert (Ht' : In "today" (b1 ++ a1)).
  { rewrite E1 in Ht. apply in_app_or in Ht as [H | [H | H]];
      [apply in_or_app; by left | done | apply in_or_app; by right]. }
  destruct (remove_In _ _ Ht') as (b2 & a2 & E2 & Hb2 & R2).
  exists (b1 ++ a1), (b2 ++ a2).
  split; [by exists b1, a1|]. split; [by exists b2, a2|].
  rewrite R1. cbn [and_then]. rewrite R2. reflexivity.
Qed.

Lemma arguments_first (args : list string) (today : string) :
  exists topics date_arg,
    main.arguments args today = Return (topics, date_arg)
    /\ topics <> []
    /\ ((date_arg = Some today
         /\ exists mid rest,
              without_first "--date" args mid
              /\ without_first "today" mid rest
              /\ topics = if textwrap.nonempty rest then rest
                          else main.default_topics)
        \/ (date_arg = None
            /\ ~ (In "--date" args /\ In "today" args)
            /\ topics = if textwrap.nonempty args then args
                        else main.default_topics)).
Proof.
  unfold main.arguments.
  destruct (date_flag_spec args today)
    as [(Hd & Ht & _) | (Hn & ->)]; cbn [and_then].
  - destruct (date_flag_first args today Hd Ht) as (mid & rest & H1 & H2 & ->).
    cbn [and_then]. eexists _, _. split; [reflexivity|].
    split; [by destruct rest|]. left. split; [done|]. by exists mid, rest.
  - eexists _, _. split; [reflexivity|]. split; [by destruct args|].
    right. by repeat split.
Qed.

End cli_facts.

(** X12.  The script never fails on its arguments and never calls the
    workflow without a topic.  The date filter is set exactly when both
    [--date] and [today] occur among the arguments, wherever they stand:
    then the first [--date] is taken out, then the first [today] of what
    is left, and the other arguments are the topics, in their order.
    Otherwise every argument is a topic, a lone [--date] or [today]
    included.  With no topic left the topics are finance and politics. *)
Theorem script_arguments (args : list string) (today : string) :
  exists topics date_arg,
    main.arguments args today = Return (topics, date_arg)
    /\ topics <> []
    /\ ((date_arg = Some today
         /\ exists mid rest,
              without_first "--date" args mid
              /\ without_first "today" mid rest
              /\ topics = if textwrap.nonempty rest then rest
                          else main.default_topics)
        \/ (date_arg = None
            /\ ~ (In "--date" args /\ In "today" args)
            /\ topics = if textwrap.nonempty args then args
                        else main.default_topics)).
Proof. apply cli_facts.arguments_first. Qed.

Lemma script_arguments_witness :
  main.arguments ["today"; "AI"; "today"; "--date"] "2025-01-31"
  = Return (["AI"; "today"], Some "2025-01-31")
  /\ main.arguments ["--date"; "x"; "--date"; "today"] "2025-01-31"
     = Return (["x"; "--date"], Some "2025-01-31")
  /\ main.arguments ["--date"] "2025-01-31" = Return (["--date"], None)
  /\ exists topics date_arg,
       main.arguments ["--date"; "today"] "2025-01-31"
       = Return (topics, date_arg)
       /\ topics <> [].
Proof.
  split; [reflexivity|]. split; [reflexivity|]. split; [reflexivity|].
  destruct (script_arguments ["--date"; "today"] "2025-01-31")
    as (topics & date_arg & H1 & H2 & _).
  exists topics, date_arg. split; [exact H1 | exact H2].
Defined.

Module webhook_facts.

Import builtins.

Lemma date_flag_date (args rest : list string) (today : string)
    (date_arg : option string) :
  main.date_flag args today = Return (rest, date_arg) ->
  date_arg = None \/ date_arg = Some today.
Proof.
  destruct (cli_facts.date_flag_spec args today)
    as [(_ & _ & r & -> & _) | (_ & ->)]; intros [= _ <-]; auto.
Qed.

(** The command is no flag: the flags are looked for, and taken out,
    among the words after it. *)
Lemma date_flag_generate (words : list string) (today : string) :
  main.date_flag ("/generate" :: words) today
  = and_then (main.date_flag words today)
             (fun '(rest, date_arg) => Return ("/generate" :: rest, date_arg)).
Proof.
  unfold main.date_flag.
  change (mem ?x ("/generate" :: words)) with (mem x words).
  destruct (mem "--date" words && mem "today" words); [|reflexivity].
  change (remove "--date" ("/generate" :: words))
    with (and_then (remove "--date" words)
                   (fun l => Return ("/generate" :: l))).
  destruct (remove "--date" words) as [l|e]; [|reflexivity]. cbn [and_then].
  change (remove "today" ("/generate" :: l))
    with (and_then (remove "today" l) (fun l => Return ("/generate" :: l))).
  by destruct (remove "today" l).
Qed.

Lemma handle_update_shape (update : value) (today : string)
    (actions : list action) :
  app.handle_update update today = Return actions ->
  actions = []
  \/ (exists chat_id r,
        actions = [SendMessage chat_id r]
        /\ (r = Welcome \/ r = UnknownCommand))
  \/ exists chat_id r topics date_arg,
       actions = [SendMessage chat_id r;
                  StartWorkflow chat_id topics date_arg]
       /\ topics <> []
       /\ (date_arg = None \/ date_arg = Some today).
Proof.
  unfold app.handle_update.
  repeat match goal with
         | |- context [and_then ?r _] =>
             destruct r as [?|?] eqn:?; cbn [and_then]; [|discriminate]
         | |- context [if negb ?b then _ else _] => destruct b; cbn [negb]
         | |- context [if String.eqb ?a ?b then _ else _] =>
             destruct (String.eqb a b)
         | |- (let '(_, _) := ?p in _) = _ -> _ => destruct p
         | |- context [if textwrap.nonempty ?l then _ else _] =>
             destruct l eqn:?; cbn [textwrap.nonempty]
         end;
    intros [= <-]; auto.
  - right. left. eauto.
  - right. right. eexists _, _, _, _. split; [reflexivity|].
    split; [discriminate|]. by eapply date_flag_date.
  - right. right. eexists _, _, _, _. split; [reflexivity|].
    split; [discriminate|]. by eapply date_flag_date.
  - right. left. eauto.
Qed.

End webhook_facts.

(** X13.  A [/generate] message is parsed as the command line is: for an
    update that carries a text and a chat id, whose text in lower case
    begins with the word [/generate], the webhook sends one message and
    starts one workflow, with the topics and the date filter the script
    computes from the words after the command.  Letter case is lost:
    the topics are words of the text in lower case. *)
Theorem generate_message_parsed_like_command_line
    (update_members message_members chat_members : list (string * value))
    (text : string) (chat_id : value) (words : list string) (today : string)
    (Hmessage : builtins.lookup "message" update_members
                = Some (VDict message_members))
    (Htext : builtins.lookup "text" message_members = Some (VStr text))
    (Hchat : builtins.lookup "chat" message_members
             = Some (VDict chat_members))
    (Hid : builtins.lookup "id" chat_members = Some chat_id)
    (Hwords : builtins.split (builtins.lower text) = "/generate" :: words) :
  exists topics date_arg sent,
    main.arguments words today = Return (topics, date_arg)
    /\ app.telegram_webhook true (VDict update_members) today
       = (true, [SendMessage chat_id sent;
                 StartWorkflow chat_id topics date_arg])
    /\ (sent = Searching topics
        \/ (sent = DefaultTopics main.default_topics
            /\ topics = main.default_topics)).
Proof.
  unfold app.telegram_webhook, app.handle_update. cbn [negb].
  unfold builtins.contains, builtins.getitem.
  rewrite Hmessage. rewrite bool_decide_eq_true_2 by done.
  cbn [and_then negb]. rewrite Htext, Hchat.
  rewrite bool_decide_eq_true_2 by done.
  cbn [and_then negb]. rewrite Hid. cbn [and_then app.lower_of].
  rewrite Hwords. cbn [app.command_of and_then].
  change (String.eqb "/generate" "/start") with false.
  change (String.eqb "/generate" "/generate") with true. cbv iota.
  rewrite webhook_facts.date_flag_generate.
  unfold main.arguments.
  destruct (cli_facts.date_flag_spec words today)
    as [(_ & _ & rest & -> & _) | (_ & ->)]; cbn [and_then tail].
  - destruct rest as [|t ts]; cbn [textwrap.nonempty];
      eexists _, _, _; (split; [reflexivity|]); (split; [reflexivity|]);
      [right | left]; done.
  - destruct words as [|t ts]; cbn [textwrap.nonempty];
      eexists _, _, _; (split; [reflexivity|]); (split; [reflexivity|]);
      [right | left]; done.
Qed.

Lemma generate_message_parsed_like_command_line_witness :
  app.telegram_webhook true
    (VDict [("update_id", VInt 7);
            ("message",
             VDict [("chat", VDict [("id", VInt 42)]);
                    ("text", VStr "/Generate AI  --date Chips today")])])
    "2025-01-31"
  = (true, [SendMessage (VInt 42) (Searching ["ai"; "chips"]);
            StartWorkflow (VInt 42) ["ai"; "chips"] (Some "2025-01-31")]).
Proof.
  destruct (generate_message_parsed_like_command_line
              [("update_id", VInt 7);
               ("message",
                VDict [("chat", VDict [("id", VInt 42)]);
                       ("text", VStr "/Generate AI  --date Chips today")])]
              [("chat", VDict [("id", VInt 42)]);
               ("text", VStr "/Generate AI  --date Chips today")]
              [("id", VInt 42)]
              "/Generate AI  --date Chips today" (VInt 42)
              ["ai"; "--date"; "chips"; "today"] "2025-01-31"
              eq_refl eq_refl eq_refl eq_refl eq_refl)
    as (topics & date_arg & sent & _ & H & _).
  reflexivity.
Defined.

(** X14.  Which update gets which answer.  Without a bot the answer is
    [{"ok": False}] and nothing is done.  With one the answer is
    [{"ok": True}] whatever the update holds.  An update, a JSON object,
    without a message, with a message without text, or with a text but
    no chat, is dropped without a reply.  For a message with a text and
    a chat id the first word of the text in lower case decides: no word
    at all, no reply; [/start], the welcome and nothing else;
    [/generate], one reply and one workflow, on the words after the
    command less the date flag, or on the default topics when no word is
    left (the reply then names them); any other word, the reply that the
    command is not understood.  In every case at most one message is
    sent and at most one workflow is started, always with at least one
    topic and a date filter that is absent or today's. *)
Theorem webhook_answers_every_update
    (update_members : list (string * value)) (today : string) :
  let update := VDict update_members in
  let answer := app.telegram_webhook true update today in
  app.telegram_webhook false update today = (false, [])
  /\ answer.1 = true
  /\ (builtins.lookup "message" update_members = None -> answer.2 = [])
  /\ (forall message_members,
        builtins.lookup "message" update_members
        = Some (VDict message_members) ->
        (builtins.lookup "text" message_members = None -> answer.2 = [])
        /\ forall text,
             builtins.lookup "text" message_members = Some (VStr text) ->
             (builtins.lookup "chat" message_members = None ->
              answer.2 = [])
             /\ forall chat_members chat_id,
                  builtins.lookup "chat" message_members
                  = Some (VDict chat_members) ->
                  builtins.lookup "id" chat_members = Some chat_id ->
                  answer.2
                  = match builtins.split (builtins.lower text) with
                    | [] => []
                    | command :: words =>
                        if String.eqb command "/start"
                        then [SendMessage chat_id Welcome]
                        else if String.eqb command "/generate"
                        then
                          match main.date_flag words today with
                          | Return ([], date_arg) =>
                              [SendMessage chat_id
                                 (DefaultTopics main.default_topics);
                               StartWorkflow chat_id main.default_topics
                                             date_arg]
                          | Return (user_topics, date_arg) =>
                              [SendMessage chat_id (Searching user_topics);
                               StartWorkflow chat_id user_topics date_arg]
                          | Throw _ => []
                          end
                        else [SendMessage chat_id UnknownCommand]
                    end)
  /\ (answer.2 = []
      \/ (exists chat_id sent,
            answer.2 = [SendMessage chat_id sent]
            /\ (sent = Welcome \/ sent = UnknownCommand))
      \/ exists chat_id sent topics date_arg,
           answer.2 = [SendMessage chat_id sent;
                       StartWorkflow chat_id topics date_arg]
           /\ topics <> []
           /\ (date_arg = None \/ date_arg = Some today)).
Proof.
  intros update answer. subst answer update.
  split; [reflexivity|]. unfold app.telegram_webhook. cbn [negb].
  split; [by destruct (app.handle_update _ _)|].
  split; [|split].
  - intros Hm. unfold app.handle_update, builtins.contains.
    rewrite Hm. rewrite bool_decide_eq_false_2 by (by intros [? ?]).
    reflexivity.
  - intros message_members Hm.
    split; [|intros text Ht; split].
    + intros Ht. unfold app.handle_update, builtins.contains,
        builtins.getitem.
      rewrite Hm. rewrite bool_decide_eq_true_2 by done.
      cbn [and_then negb]. rewrite Ht.
      rewrite bool_decide_eq_false_2 by (by intros [? ?]). reflexivity.
    + intros Hc. unfold app.handle_update, builtins.contains,
        builtins.getitem.
      rewrite Hm. rewrite bool_decide_eq_true_2 by done.
      cbn [and_then negb]. rewrite Ht, Hc.
      rewrite bool_decide_eq_true_2 by done. reflexivity.
    + intros chat_members chat_id Hc Hid.
      unfold app.handle_update, builtins.contains, builtins.getitem.
      rewrite Hm. rewrite bool_decide_eq_true_2 by done.
      cbn [and_then negb]. rewrite Ht, Hc.
      rewrite bool_decide_eq_true_2 by done.
      cbn [and_then negb]. rewrite Hid. cbn [and_then app.lower_of].
      destruct (builtins.split (builtins.lower text)) as [|command words];
        [reflexivity|].
      cbn [app.command_of and_then].
      destruct (String.eqb command "/start"); [reflexivity|].
      destruct (String.eqb command "/generate") eqn:Eg; [|reflexivity].
      apply String.eqb_eq in Eg. subst command.
      rewrite webhook_facts.date_flag_generate.
      destruct (main.date_flag words today) as [[rest date_arg]|e];
        [|reflexivity].
      cbn [and_then tail]. by destruct rest.
  - destruct (app.handle_update (VDict update_members) today)
      as [actions|e] eqn:E; cbn [fst snd]; [|by left].
    by apply (webhook_facts.handle_update_shape (VDict update_members) today).
Qed.

Lemma webhook_answers_every_update_witness :
  let update text :=
    [("message", VDict [("text", VStr text);
                        ("chat", VDict [("id", VInt 1)])])] in
  (app.telegram_webhook true (VDict (update "   ")) "2025-01-31").2 = []
  /\ (app.telegram_webhook true (VDict (update "/Start now"))
                           "2025-01-31").2
     = [SendMessage (VInt 1) Welcome]
  /\ (app.telegram_webhook true (VDict (update "hello")) "2025-01-31").2
     = [SendMessage (VInt 1) UnknownCommand]
  /\ (app.telegram_webhook true (VDict (update "/generate --date today"))
                           "2025-01-31").2
     = [SendMessage (VInt 1) (DefaultTopics main.default_topics);
        StartWorkflow (VInt 1) main.default_topics (Some "2025-01-31")].
Proof.
  intros update.
  assert (H : forall text,
            (app.telegram_webhook true (VDict (update text))
                                  "2025-01-31").2
            = match builtins.split (builtins.lower text) with
              | [] => []
              | command :: words =>
                  if String.eqb command "/start"
                  then [SendMessage (VInt 1) Welcome]
                  else if String.eqb command "/generate"
                  then
                    match main.date_flag words "2025-01-31" with
                    | Return ([], date_arg) =>
                        [SendMessage (VInt 1)
                           (DefaultTopics main.default_topics);
                         StartWorkflow (VInt 1) main.default_topics date_arg]
                    | Return (user_topics, date_arg) =>
                        [SendMessage (VInt 1) (Searching user_topics);
                         StartWorkflow (VInt 1) user_topics date_arg]
                    | Throw _ => []
                    end
                  else [SendMessage (VInt 1) UnknownCommand]
              end).
  { intros text.
    destruct (webhook_answers_every_update (update text) "2025-01-31")
      as (_ & _ & _ & H & _).
    destruct (H [("text", VStr text); ("chat", VDict [("id", VInt 1)])]
                eq_refl) as (_ & H').
    destruct (H' text eq_refl) as (_ & H'').
    exact (H'' [("id", VInt 1)] (VInt 1) eq_refl eq_refl). }
  rewrite !H. repeat split; reflexivity.
Defined.

(** ** Fetching the headlines *)

Module news_facts.

Import builtins.

Lemma request_articles_run (topics : list string) (api_key : string)
    (date : option string) (st : machine) :
  let params :=
    news_api.params (String.concat " OR " topics) api_key date in
  news_api.request_articles topics api_key date st
  = (articles_of (requests_get (world_outside st) (List.length (calls st))
                               news_api.NEWS_API_BASE_URL params),
     with_call st (NewsRequest news_api.NEWS_API_BASE_URL params)).
Proof.
  intros params. subst params.
  unfold news_api.request_articles, articles_of, wbind, wtry, ask, wlift,
    wret, news_api.raise_for_status.
  destruct (requests_get _ _ _ _) as [response|e];
    [|by destruct (news_api.is_RequestException e)].
  destruct (_ && _); [reflexivity|]. cbn.
  destruct (json response) as [data|]; [|reflexivity]. cbn.
  destruct (get data _ _) as [found|]; [|reflexivity]. cbn.
  by destruct (truthy found).
Qed.

Lemma fetch_headlines_run (topics : list string) (api_key : string)
    (date : option string) (st : machine) :
  topics <> [] -> NEWS_API_KEY (world_outside st) = Some api_key ->
  api_key <> "" ->
  news_api.fetch_headlines topics date st
  = news_api.request_articles topics api_key date st.
Proof.
  intros Ht Hk Hne. unfold news_api.fetch_headlines.
  destruct topics as [|t ts]; [done|].
  unfold wbind, news_api.getenv_NEWS_API_KEY. rewrite Hk.
  apply String.eqb_neq in Hne. by rewrite Hne.
Qed.

Lemma fetch_headlines_idle (topics : list string) (date : option string)
    (st : machine) :
  topics = [] \/ Py.truthy (NEWS_API_KEY (world_outside st)) = false ->
  news_api.fetch_headlines topics date st = (Return (VList []), st).
Proof.
  intros [-> | Hkey]; [reflexivity|].
  unfold news_api.fetch_headlines. destruct topics as [|t ts]; [done|].
  unfold wbind, news_api.getenv_NEWS_API_KEY.
  destruct (NEWS_API_KEY (world_outside st)) as [key|]; [|done].
  simpl in Hkey. apply negb_false_iff in Hkey. by rewrite Hkey.
Qed.

(** The value returned is [[]] or truthy. *)
Lemma articles_of_truthy (answer : result response) (v : value) :
  articles_of answer = Return v -> v = VList [] \/ truthy v = true.
Proof.
  unfold articles_of. destruct answer as [response|e].
  - destruct (_ && _); [intros [= <-]; by left|].
    destruct (json response) as [data|]; [|done]. cbn.
    destruct (get data _ _) as [found|]; [|done]. cbn.
    destruct (truthy found) eqn:E; intros [= <-]; auto.
  - destruct (news_api.is_RequestException e); [|done].
    intros [= <-]. by left.
Qed.

End news_facts.

(** X15.  [fetch_headlines] calls NewsAPI only when it has a topic and an
    API key: with no topic, or with the key unset or empty, it returns
    [[]] and nothing has happened.  Otherwise it makes exactly one
    request, whatever the answer, and touches no file.  The request asks
    for the topics joined by [" OR "], in English, ten results; with a
    date that is not empty it asks for that day only ([from] = [to] =
    the date) sorted by popularity, and without one for no day in
    particular, sorted by relevancy. *)
Theorem fetch_headlines_request
    (topics : list string) (date : option string) (st : machine) :
  let r := news_api.fetch_headlines topics date st in
  (topics = [] \/ Py.truthy (NEWS_API_KEY (world_outside st)) = false ->
   r = (Return (VList []), st))
  /\ forall api_key,
       topics <> [] -> NEWS_API_KEY (world_outside st) = Some api_key ->
       api_key <> "" ->
       exists params,
         r.2 = with_call st (NewsRequest news_api.NEWS_API_BASE_URL params)
         /\ builtins.lookup "q" params
            = Some (VStr (String.concat " OR " topics))
         /\ builtins.lookup "language" params = Some (VStr "en")
         /\ builtins.lookup "pageSize" params = Some (VInt 10)
         /\ builtins.lookup "apiKey" params = Some (VStr api_key)
         /\ match date with
            | Some (String c d) =>
                builtins.lookup "from" params = Some (VStr (String c d))
                /\ builtins.lookup "to" params = Some (VStr (String c d))
                /\ builtins.lookup "sortBy" params = Some (VStr "popularity")
            | _ =>
                builtins.lookup "from" params = None
                /\ builtins.lookup "to" params = None
                /\ builtins.lookup "sortBy" params = Some (VStr "relevancy")
            end.
Proof.
  intros r. subst r. split; [apply news_facts.fetch_headlines_idle|].
  intros api_key Ht Hk Hne.
  rewrite (news_facts.fetch_headlines_run _ _ _ _ Ht Hk Hne),
    news_facts.request_articles_run. cbn [snd].
  eexists. split; [reflexivity|].
  unfold news_api.params. destruct date as [[|c d]|]; cbn; by repeat split.
Qed.

Lemma fetch_headlines_request_witness :
  news_api.fetch_headlines [] (Some "2025-01-31") demo_run.start
  = (Return (VList []), demo_run.start)
  /\ exists params,
       (news_api.fetch_headlines ["ai"; "chips"] (Some "2025-01-31")
          demo_run.start).2
       = with_call demo_run.start
           (NewsRequest news_api.NEWS_API_BASE_URL params)
       /\ builtins.lookup "q" params = Some (VStr "ai OR chips").
Proof.
  split.
  - apply (proj1 (fetch_headlines_request [] (Some "2025-01-31")
                    demo_run.start)). by left.
  - destruct (proj2 (fetch_headlines_request ["ai"; "chips"]
                       (Some "2025-01-31") demo_run.start)
                "key" ltac:(discriminate) eq_refl ltac:(discriminate))
      as (params & H1 & H2 & _).
    exists params. split; [exact H1 | exact H2].
Defined.

(** X16.  What [fetch_headlines] makes of the answer to its request.  A
    failure of the request itself ([RequestException]) and an answer with
    an HTTP error status (400 to 599) give [[]].  Past that point nothing
    is caught: an answer whose body is no JSON, or is JSON but no object,
    raises out of the function.  An object gives its [articles] member
    when that is truthy and [[]] otherwise, so the value returned is
    always [[]] or truthy. *)
Theorem fetch_headlines_outcome
    (topics : list string) (date : option string) (st : machine)
    (api_key : string)
    (Htopics : topics <> [])
    (Hkey : NEWS_API_KEY (world_outside st) = Some api_key)
    (Hne : api_key <> "") :
  let answer :=
    requests_get (world_outside st) (List.length (calls st))
      news_api.NEWS_API_BASE_URL
      (news_api.params (String.concat " OR " topics) api_key date) in
  let r := (news_api.fetch_headlines topics date st).1 in
  match answer with
  | Throw e =>
      r = if news_api.is_RequestException e then Return (VList [])
          else Throw e
  | Return response =>
      if (400 <=? status_code response) && (status_code response <? 600)
      then r = Return (VList [])
      else
        match json response with
        | Throw e => r = Throw e
        | Return (VDict members) =>
            r = Return
                  (match builtins.lookup "articles" members with
                   | Some articles =>
                       if builtins.truthy articles then articles
                       else VList []
                   | None => VList []
                   end)
        | Return _ => r = Throw AttributeError
        end
  end
  /\ forall v, r = Return v -> v = VList [] \/ builtins.truthy v = true.
Proof.
  intros answer r. subst answer r.
  rewrite (news_facts.fetch_headlines_run _ _ _ _ Htopics Hkey Hne),
    news_facts.request_articles_run. cbn [fst].
  split; [|apply news_facts.articles_of_truthy].
  unfold articles_of.
  destruct (requests_get _ _ _ _) as [response|e]; [|done].
  destruct (_ && _); [done|].
  destruct (json response) as [[| | | | | |members]|e]; try done. cbn.
  by destruct (builtins.lookup "articles" members).
Qed.

Lemma fetch_headlines_outcome_witness :
  (news_api.fetch_headlines ["ai"] None
     (demo_run.machine_with demo_run.bad_gateway)).1
  = Throw (OtherError "JSONDecodeError").
Proof.
  exact (proj1 (fetch_headlines_outcome ["ai"] None
                  (demo_run.machine_with demo_run.bad_gateway) "key"
                  ltac:(discriminate) eq_refl ltac:(discriminate))).
Defined.

(** ** Generating a background *)

Module imagen_facts.

Import builtins.

Lemma create_image_run (prompt : value) (filename : string) (st : machine) :
  imagen_api.create_image prompt filename st
  = if negb (imagen_model (world_outside st)) then (Return false, st)
    else
      match slice_to 50 prompt with
      | Throw e => (Throw e, st)
      | Return _ =>
          let asked := with_call st (ImagenRequest prompt) in
          match generate_images (world_outside st) (List.length (calls st))
                                prompt with
          | Return (image :: _) =>
              if raw_writable st filename
              then (Return true,
                    with_files asked (<[filename := image]> (files st))
                               (delete filename (texts st)))
              else (Return false, asked)
          | _ => (Return false, asked)
          end
      end.
Proof.
  unfold imagen_api.create_image.
  destruct (negb (imagen_model (world_outside st))); [reflexivity|].
  unfold wbind at 1, wlift at 1.
  destruct (slice_to 50 prompt) as [sliced|e]; [|reflexivity].
  unfold wtry, wbind, ask, wlift, wret, write_bytes. cbv zeta.
  destruct (generate_images _ _ _) as [[|image images]|e]; cbn;
    try reflexivity.
  by destruct (raw_writable st filename).
Qed.

End imagen_facts.



(** ** Asking for a strategy *)

Module strategist_facts.

Import builtins.

Lemma scrape_run (url : value) (st : machine) :
  strategist._scrape_article_content url st
  = (Return (scraped_text
               (page_paragraphs (world_outside st) (List.length (calls st))
                                url)),
     with_call st (PageRequest url)).
Proof.
  unfold strategist._scrape_article_content, wtry, wbind, ask, wret,
    scraped_text.
  by destruct (page_paragraphs _ _ _).
Qed.

Lemma once_run (article : value) (st : machine) :
  strategist.generate_content_strategy_once article st
  = if negb (gemini_model (world_outside st)) then (Return VNone, st)
    else
      match get article "title" (VStr "No Title"),
            get article "url" (VStr "") with
      | Return headline, Return url =>
          let st1 := with_call st (PageRequest url) in
          let scraped :=
            scraped_text (page_paragraphs (world_outside st)
                            (List.length (calls st)) url) in
          let article_content :=
            if String.eqb scraped "" then headline else VStr scraped in
          (Return (strategy_of
                     (generate_content (world_outside st)
                        (List.length (calls st1)) headline article_content)),
           with_call st1 (GeminiRequest headline article_content))
      | Throw e, _ => (Throw e, st)
      | Return _, Throw e => (Throw e, st)
      end.
Proof.
  unfold strategist.generate_content_strategy_once.
  destruct (negb (gemini_model (world_outside st))); [reflexivity|].
  unfold wbind at 1, wlift at 1.
  destruct (get article "title" _) as [headline|e]; [|reflexivity].
  unfold wbind at 1, wlift at 1.
  destruct (get article "url" _) as [url|e]; [|reflexivity].
  unfold wbind at 1. rewrite scrape_run. cbv zeta.
  unfold wtry, ask, wret, strategy_of. cbn.
  by destruct (generate_content _ _ _ _).
Qed.

(** The body never raises [ResourceExhausted]. *)
Lemma once_not_exhausted (article : value) (st : machine) :
  (strategist.generate_content_strategy_once article st).1
  <> Throw ResourceExhausted.
Proof.
  rewrite once_run.
  destruct (negb _); [done|].
  destruct article; cbn; try done.
Qed.

Lemma retry_inert {A} (attempts : nat) (body : W A) (st : machine) :
  (body st).1 <> Throw ResourceExhausted ->
  strategist.retry (S attempts) body st = body st.
Proof.
  intros H. cbn [strategist.retry].
  destruct (body st) as [[a|e] st']; [done|].
  destruct e; try done.
Qed.

End strategist_facts.



(** ** Saving the caption *)

Module caption_facts.

Import builtins.

Lemma strings_error (items : list value) (e : error) :
  strings items = Throw e -> e = TypeError.
Proof.
  induction items as [|item rest IH]; [done|].
  destruct item; cbn; try congruence.
  destruct (strings rest); cbn; [done|]. intros [= <-]. by apply IH.
Qed.

Lemma join_error (sep : string) (v : value) (e : error) :
  join sep v = Throw e -> e = TypeError.
Proof.
  unfold join. destruct (iterate v) as [items|e'] eqn:Ei; cbn.
  - destruct (strings items) eqn:Es; cbn; [done|].
    intros [= <-]. exact (strings_error _ _ Es).
  - intros [= <-]. destruct v; cbn in Ei; congruence.
Qed.

Lemma save_caption_closed (folder : string) (post_number : Z)
    (strategy : value) (st : machine) :
  raw_writable st (posixpath.join folder [main.caption_name post_number])
  = false ->
  main.save_caption folder post_number strategy st = (Return tt, st).
Proof.
  intros H. unfold main.save_caption, wtry, wbind, open_w. by rewrite H.
Qed.

Lemma wbind_ok {A B} (m : W A) (k : A -> W B) st a st1 :
  m st = (Return a, st1) -> wbind m k st = k a st1.
Proof. intros E. unfold wbind. by rewrite E. Qed.

Lemma open_w_ok (path : string) (st : machine) :
  raw_writable st path = true ->
  open_w path st
  = (Return tt, with_files st (<[path := OtherFile]> (files st))
                           (<[path := ""]> (texts st))).
Proof. intros H. unfold open_w. by rewrite H. Qed.

(** A write to the file that holds [t]. *)
Lemma write_after (path s t : string) (st : machine) F T :
  write path (VStr s) (with_files st F (<[path := t]> T))
  = (Return tt, with_files st F (<[path := t +:+ s]> T)).
Proof.
  unfold write, with_files. cbn.
  by rewrite lookup_insert_eq, insert_insert_eq.
Qed.

(** With the file open: the file system after the call. *)
Lemma save_caption_open (folder : string) (post_number : Z)
    (members : list (string * value)) (st : machine) :
  let path := posixpath.join folder [main.caption_name post_number] in
  raw_writable st path = true ->
  main.save_caption folder post_number (VDict members) st
  = ((caption_written members).1,
     with_files st (<[path := OtherFile]> (files st))
                (<[path := (caption_written members).2]> (texts st))).
Proof.
  intros path Hw. unfold main.save_caption. fold path. unfold wtry.
  rewrite (wbind_ok _ _ _ _ _ (open_w_ok path st Hw)).
  rewrite (wbind_ok _ _ _ _ _ (write_after path _ "" st _ _)).
  change ("" +:+ main.caption_header) with main.caption_header.
  unfold wbind at 1, wlift at 1, get, caption_written.
  destruct (default (VStr "No caption generated.")
                    (lookup "post_caption" members)) as [| | | |c| |] eqn:Ec;
    try reflexivity.
  rewrite (wbind_ok _ _ _ _ _ (write_after path c _ st _ _)).
  rewrite (wbind_ok _ _ _ _ _ (write_after path main.hashtags_header _ st _ _)).
  unfold wbind at 1, wlift at 1. unfold wbind at 1, wlift at 1.
  rewrite <- !append_assoc.
  destruct (join " " _) as [hashtags|e] eqn:Ej.
  - rewrite write_after. by rewrite <- !append_assoc.
  - apply join_error in Ej. subst e. reflexivity.
Qed.

End caption_facts.



(** ** The workflow and the files *)

Module workflow_facts.

Import builtins.

Lemma tidy_refl folder st : tidy folder st st.
Proof. intros p. by left. Qed.

Lemma tidy_trans folder st0 st1 st2 :
  tidy folder st0 st1 -> tidy folder st1 st2 -> tidy folder st0 st2.
Proof.
  intros H1 H2 p.
  destruct (H2 p) as [[Ef Et] | [Hs | [Hc | Ht]]]; auto.
  destruct (H1 p) as [[Ef1 Et1] | [Hs | [[Hc [Hf Hx]] | [Ht Hn]]]]; auto.
  - left. split; congruence.
  - right. right. left. split; [done|]. split; congruence.
  - right. right. right. split; [done | congruence].
Qed.

(** A computation that changes no file. *)
Lemma keeps_files {A} folder (m : W A) :
  (forall st, files (m st).2 = files st /\ texts (m st).2 = texts st) ->
  keeps folder m.
Proof.
  intros H st p. left. destruct (H st) as [-> ->]. done.
Qed.

Lemma keeps_bind {A B} folder (m : W A) (k : A -> W B) :
  keeps folder m -> (forall a, keeps folder (k a)) ->
  keeps folder (wbind m k).
Proof.
  intros Hm Hk st. unfold wbind. specialize (Hm st).
  destruct (m st) as [[a|e] st1]; [|done].
  eapply tidy_trans; [exact Hm | apply Hk].
Qed.

Lemma keeps_ret {A} folder (a : A) : keeps folder (wret a).
Proof. by apply keeps_files. Qed.

Lemma keeps_lift {A} folder (r : result A) : keeps folder (wlift r).
Proof. by apply keeps_files. Qed.

Lemma keeps_for_each {A} folder (body : nat -> A -> W unit) start items :
  (forall i x, keeps folder (body i x)) ->
  keeps folder (for_each body start items).
Proof.
  intros Hb. revert start.
  induction items as [|x rest IH]; intros start; cbn [for_each].
  - apply keeps_ret.
  - apply keeps_bind; [apply Hb | intros _; apply IH].
Qed.

(** A computation that changes one file at most, a slide, and no text. *)
Lemma keeps_slide {A} folder (m : W A) post_num slide_index :
  1 <= post_num -> 1 <= slide_index ->
  (forall st,
     texts (m st).2 = texts st
     /\ forall p,
          p <> posixpath.join folder [main.slide_name post_num slide_index] ->
          files (m st).2 !! p = files st !! p) ->
  keeps folder m.
Proof.
  intros H1 H2 H st p. destruct (H st) as [Ht Hf].
  destruct (decide (p = posixpath.join folder
                          [main.slide_name post_num slide_index]))
    as [-> | Hne].
  - right. left. by exists post_num, slide_index.
  - left. split; [by apply Hf | by rewrite Ht].
Qed.

(** The file of the caption, once it could be opened, holds text however
    the writing ends. *)
Lemma save_caption_state folder post_number strategy (st : machine) :
  let path := posixpath.join folder [main.caption_name post_number] in
  raw_writable st path = true ->
  exists text,
    (main.save_caption folder post_number strategy st).2
    = with_files st (<[path := OtherFile]> (files st))
                 (<[path := text]> (texts st)).
Proof.
  intros path Hw.
  destruct strategy as [| | | | | |members].
  7: { rewrite (caption_facts.save_caption_open folder post_number members
                  st Hw). by eexists. }
  all: unfold main.save_caption; fold path; unfold wtry;
    rewrite (caption_facts.wbind_ok _ _ _ _ _
               (caption_facts.open_w_ok path st Hw));
    rewrite (caption_facts.wbind_ok _ _ _ _ _
               (caption_facts.write_after path _ "" st _ _));
    by eexists.
Qed.

Lemma keeps_save_caption folder post_number strategy :
  1 <= post_number ->
  keeps folder (main.save_caption folder post_number strategy).
Proof.
  intros Hn st.
  destruct (raw_writable st (posixpath.join folder
                               [main.caption_name post_number])) eqn:Hw.
  - destruct (save_caption_state folder post_number strategy st Hw)
      as [text ->].
    intros p. cbn [with_files files texts].
    destruct (decide (p = posixpath.join folder
                            [main.caption_name post_number])) as [-> | Hne].
    + right. right. left. split; [by exists post_number|].
      split; cbn [with_files files texts]; rewrite lookup_insert_eq;
        [done | by eexists].
    + left. by rewrite !lookup_insert_ne.
  - rewrite (caption_facts.save_caption_closed _ _ _ _ Hw). apply tidy_refl.
Qed.

(** *** The entry points of the compositor, on the machine *)

Lemma compositor_call_files (m : M bool) (st : machine) (output : string) :
  (exists image w',
     m (compositor_world st)
     = (Ok (saved (compositor_world st) output image).1, w')
     /\ fs w' = (saved (compositor_world st) output image).2) ->
  let r := compositor_call m st in
  (exists b, r.1 = Return b)
  /\ (forall p, p <> output -> files r.2 !! p = files st !! p)
  /\ (forall p, is_Some (files st !! p) -> is_Some (files r.2 !! p))
  /\ texts r.2 = texts st.
Proof.
  intros (image & w' & Hrun & Hfs) r. subst r.
  unfold compositor_call. rewrite Hrun. cbn [fst snd with_files files texts].
  rewrite Hfs. split; [by eexists|].
  destruct (saved_spec (compositor_world st) output image) as (_ & _ & H3).
  split; [exact H3|]. split; [|done].
  intros p Hp. destruct (decide (p = output)) as [-> | Hne].
  - unfold saved. destruct image as [im|]; [|done].
    destruct (writable _ _); [|done]. cbn. by rewrite lookup_insert_eq.
  - by rewrite (H3 p Hne).
Qed.

Lemma add_text_files image_path title text output (st : machine) :
  let r := main.add_text_to_image image_path title text output st in
  (exists b, r.1 = Return b)
  /\ (forall p, p <> output -> files r.2 !! p = files st !! p)
  /\ (forall p, is_Some (files st !! p) -> is_Some (files r.2 !! p))
  /\ texts r.2 = texts st.
Proof.
  unfold main.add_text_to_image.
  destruct title; try (by split; [by eexists|]).
  destruct text; try (by split; [by eexists|]).
  apply compositor_call_files.
  destruct (add_text_to_image_run image_path s s0 output
              (compositor_world st)) as (w' & H1 & H2 & _).
  by eexists _, w'.
Qed.

Lemma headline_files headline_text output (st : machine) :
  let r := main.create_branded_headline_slide headline_text output st in
  (exists b, r.1 = Return b)
  /\ (forall p, p <> output -> files r.2 !! p = files st !! p)
  /\ (forall p, is_Some (files st !! p) -> is_Some (files r.2 !! p))
  /\ texts r.2 = texts st.
Proof.
  unfold main.create_branded_headline_slide.
  destruct headline_text; try (by split; [by eexists|]).
  apply compositor_call_files.
  destruct (create_branded_headline_slide_run s output
              (compositor_world st)) as (w' & H1 & H2 & _).
  by eexists _, w'.
Qed.

(** *** One symbolic slide *)

Lemma create_image_files (prompt : value) (filename : string) (st : machine) :
  let r := imagen_api.create_image prompt filename st in
  match r.1 with
  | Return true =>
      exists image,
        files r.2 = <[filename := image]> (files st)
        /\ texts r.2 = delete filename (texts st)
  | _ => files r.2 = files st /\ texts r.2 = texts st
  end.
Proof.
  cbv zeta. rewrite imagen_facts.create_image_run.
  destruct (negb _); [done|].
  destruct (slice_to 50 prompt); [|done]. cbv zeta.
  destruct (generate_images _ _ _) as [[|image images]|e]; try done.
  destruct (raw_writable st filename); [|done]. by exists image.
Qed.

Lemma symbolic_slide_run folder post_num slide_num members (st : machine) :
  let slide_index := Z.of_nat slide_num + 2 in
  let temp := posixpath.join folder [main.temp_bg_name post_num slide_index] in
  let final := posixpath.join folder [main.slide_name post_num slide_index] in
  let prompt := default VNone (lookup "image_prompt" members) in
  let r := main.symbolic_slide folder post_num slide_num (VDict members) st in
  let made := imagen_api.create_image prompt temp st in
  match made.1 with
  | Throw e => r = (Throw e, made.2)
  | Return false => r = (Return tt, made.2)
  | Return true =>
      r.1 = Return tt
      /\ files r.2 !! temp = None
      /\ (forall p, p <> final -> p <> temp -> files r.2 !! p = files st !! p)
      /\ (forall p, p <> temp -> texts r.2 !! p = texts st !! p)
  end.
Proof.
  intros slide_index temp final prompt r made.
  set (title := default (VStr "") (lookup "slide_title" members)).
  set (text := default (VStr "") (lookup "slide_text" members)).
  assert (Hr : r = match made with
                   | (Return true, st1) =>
                       wbind (main.add_text_to_image temp title text final)
                             (fun _ => os_remove temp) st1
                   | (Return false, st1) => (Return tt, st1)
                   | (Throw e, st1) => (Throw e, st1)
                   end).
  { subst r made. unfold main.symbolic_slide, wbind, wlift, wret, get.
    by destruct (imagen_api.create_image _ _ st) as [[[|]|e] st1]. }
  pose proof (create_image_files prompt temp st) as Hmade.
  cbv zeta in Hmade. fold made in Hmade.
  destruct made as [[[|]|e] st1]; cbn [fst snd] in *; try exact Hr.
  destruct Hmade as (image & Hfiles & Htexts).
  destruct (add_text_files temp title text final st1)
    as ((b & Hb) & Hother & Hsome & Hsame).
  unfold wbind in Hr.
  destruct (main.add_text_to_image temp title text final st1)
    as [r2 st2] eqn:E2. cbn [fst snd] in *. subst r2.
  assert (Htemp : is_Some (files st2 !! temp)).
  { apply Hsome. rewrite Hfiles, lookup_insert_eq. by eexists. }
  unfold os_remove in Hr. destruct Htemp as [f Hf]. rewrite Hf in Hr.
  rewrite Hr. cbn [fst snd with_files files texts].
  split; [done|]. split; [apply lookup_delete_eq|]. split.
  - intros p Hp1 Hp2.
    rewrite lookup_delete_ne by done.
    rewrite (Hother p Hp1), Hfiles. by rewrite lookup_insert_ne.
  - intros p Hp. rewrite lookup_delete_ne by done.
    rewrite Hsame, Htexts. by rewrite lookup_delete_ne.
Qed.

Lemma keeps_symbolic_slide folder post_num slide_num slide_content :
  1 <= post_num ->
  keeps folder (main.symbolic_slide folder post_num slide_num slide_content).
Proof.
  intros Hn st.
  destruct slide_content as [| | | | | |members];
    try apply tidy_refl.
  pose proof (symbolic_slide_run folder post_num slide_num members st) as H.
  cbv zeta in H.
  pose proof (create_image_files
                (default VNone (lookup "image_prompt" members))
                (posixpath.join folder
                   [main.temp_bg_name post_num (Z.of_nat slide_num + 2)]) st)
    as Hsame.
  cbv zeta in Hsame.
  destruct (imagen_api.create_image _ _ st) as [[[|]|e] st1];
    cbn [fst snd] in *.
  - destruct H as (_ & Htemp & Hother & Htexts). intros p.
    destruct (decide (p = posixpath.join folder
                            [main.temp_bg_name post_num
                               (Z.of_nat slide_num + 2)])) as [-> | Hne2].
    { right. right. right. split; [by eexists _, _ | done]. }
    destruct (decide (p = posixpath.join folder
                            [main.slide_name post_num
                               (Z.of_nat slide_num + 2)])) as [-> | Hne1].
    { right. left. exists post_num, (Z.of_nat slide_num + 2).
      split; [done|]. split; [lia | done]. }
    left. split; [by apply Hother | by apply Htexts].
  - rewrite H. cbn [snd]. intros p. left. destruct Hsame as [-> ->]. done.
  - rewrite H. cbn [snd]. intros p. left. destruct Hsame as [-> ->]. done.
Qed.

(** *** The whole workflow *)

Lemma strategy_files (article : value) (st : machine) :
  files (strategist.generate_content_strategy article st).2 = files st
  /\ texts (strategist.generate_content_strategy article st).2 = texts st.
Proof.
  unfold strategist.generate_content_strategy.
  rewrite strategist_facts.retry_inert
    by apply strategist_facts.once_not_exhausted.
  rewrite strategist_facts.once_run.
  destruct (negb _); [done|].
  destruct (get article "title" _); [|done].
  by destruct (get article "url" _).
Qed.

Lemma fetch_files (topics : list string) (date : option string)
    (st : machine) :
  files (news_api.fetch_headlines topics date st).2 = files st
  /\ texts (news_api.fetch_headlines topics date st).2 = texts st.
Proof.
  destruct topics as [|t ts]; [done|].
  destruct (NEWS_API_KEY (world_outside st)) as [key|] eqn:Ek.
  - destruct (String.eqb key "") eqn:E.
    + rewrite news_facts.fetch_headlines_idle; [done|].
      right. rewrite Ek. cbn. by rewrite E.
    + apply String.eqb_neq in E.
      assert (Hne : t :: ts <> []) by discriminate.
      rewrite (news_facts.fetch_headlines_run _ _ _ _ Hne Ek E).
      by rewrite news_facts.request_articles_run.
  - rewrite news_facts.fetch_headlines_idle; [done|]. right. by rewrite Ek.
Qed.

Lemma keeps_headline folder headline_text post_num :
  1 <= post_num ->
  keeps folder
    (main.create_branded_headline_slide headline_text
       (posixpath.join folder [main.slide_name post_num 1])).
Proof.
  intros Hn. apply (keeps_slide _ _ post_num 1); [done | lia |].
  intros st.
  destruct (headline_files headline_text
              (posixpath.join folder [main.slide_name post_num 1]) st)
    as (_ & Hf & _ & Ht).
  split; [exact Ht | exact Hf].
Qed.

Lemma keeps_post folder (i : nat) (article : value) :
  keeps folder (main.post folder i article).
Proof.
  unfold main.post. destruct article; try apply keeps_ret.
  assert (Hn : 1 <= Z.of_nat i + 1) by lia.
  apply keeps_bind; [apply keeps_lift | intros title].
  apply keeps_bind; [apply keeps_lift | intros _].
  apply keeps_bind;
    [apply keeps_files; intros st; apply strategy_files | intros strategy].
  destruct (negb (truthy strategy)); [apply keeps_ret|].
  apply keeps_bind; [apply keeps_lift | intros headline_text].
  apply keeps_bind.
  { destruct (truthy headline_text); [|apply keeps_ret].
    apply keeps_bind; [|intros _; apply keeps_ret].
    by apply keeps_headline. }
  intros _.
  apply keeps_bind; [apply keeps_lift | intros symbolic_slides].
  apply keeps_bind; [apply keeps_lift | intros slides].
  apply keeps_bind; [|intros _; by apply keeps_save_caption].
  apply keeps_for_each. intros j x. by apply keeps_symbolic_slide.
Qed.

(** The folder is made once the articles are there; until then nothing
    is written. *)
Lemma run_workflow_tidy (topics : list string) (date_filter : option string)
    (st : machine) :
  let r := main.run_workflow topics date_filter st in
  exists t,
    tidy ("output_" +:+ strftime t) st r.2
    /\ (forall out, r.1 = Return (Some out) -> out = "output_" +:+ strftime t)
    /\ (r.1 = Return None -> files r.2 = files st /\ texts r.2 = texts st).
Proof.
  intros r. subst r.
  remember (main.run_workflow topics date_filter st) as r eqn:Hr.
  unfold main.run_workflow in Hr. unfold wbind at 1 in Hr.
  destruct (fetch_files topics date_filter st) as [Hf Ht].
  assert (Hsame : forall folder st1,
            files st1 = files st -> texts st1 = texts st ->
            tidy folder st st1).
  { intros folder st1 E1 E2 p. left. by rewrite E1, E2. }
  set (t0 := {| year := 0; month := 0; day := 0;
                hour := 0; minute := 0; second := 0 |}).
  destruct (news_api.fetch_headlines topics date_filter st)
    as [[articles|e] st1]; cbn [fst snd] in *.
  2: { exists t0. subst r. cbn [fst snd].
       split; [by apply Hsame | done]. }
  destruct (negb (truthy articles)).
  { exists t0. subst r. cbn [wret fst snd].
    split; [by apply Hsame | done]. }
  exists (now (world_outside st1) (List.length (calls st1))).
  set (folder := "output_" +:+ _).
  unfold wbind at 1, main.create_output_folder in Hr. fold folder in Hr.
  unfold wbind at 1, os_makedirs in Hr.
  destruct (dir_creatable st1 folder); cbn [wret] in Hr.
  2: { subst r. cbn [fst snd]. split; [by apply Hsame | done]. }
  unfold wbind at 1, wlift at 1 in Hr.
  destruct (iterate articles) as [items|e].
  2: { subst r. cbn [fst snd]. split; [by apply Hsame | done]. }
  pose proof (keeps_for_each folder (main.post folder) 0 items
                (keeps_post folder) st1) as Hk.
  assert (Hk' : tidy folder st (for_each (main.post folder) 0 items st1).2).
  { eapply tidy_trans; [by apply Hsame | exact Hk]. }
  clear Hk. unfold wbind in Hr.
  destruct (for_each (main.post folder) 0 items st1) as [[[]|e] st2];
    cbn [fst snd wret] in *; subst r; cbn [fst snd].
  - split; [exact Hk'|]. split; [by intros out [= <-] | done].
  - split; [exact Hk' | done].
Qed.

End workflow_facts.





(** ** The names of the package files *)

Module name_facts.

Import builtins.

Lemma chars_append (a b : string) :
  Py.chars (a +:+ b) = Py.chars a ++ Py.chars b.
Proof.
  unfold Py.chars. induction a as [|c a IH]; [done|].
  rewrite append_cons. cbn [list_ascii_of_string app]. by rewrite IH.
Qed.

Lemma str_chars (s : string) : Py.str (Py.chars s) = s.
Proof. apply string_of_list_ascii_of_string. Qed.

Lemma chars_inj (a b : string) : Py.chars a = Py.chars b -> a = b.
Proof. intros H. by rewrite <- (str_chars a), H, str_chars. Qed.

(** A digit is no white space, no sign, no underscore and no separator. *)
Lemma digit_other (c : ascii) :
  textwrap.digit c = true ->
  textwrap.whitespace c = false
  /\ Ascii.eqb c "-" = false /\ Ascii.eqb c "+" = false
  /\ Ascii.eqb c "_" = false /\ Ascii.eqb c posixpath.sep = false.
Proof.
  destruct c as [[] [] [] [] [] [] [] []]; intros H;
    try discriminate H; by vm_compute.
Qed.

Lemma uint_digits (d : Decimal.uint) :
  digits (Py.chars (NilEmpty.string_of_uint d)).
Proof. induction d; by constructor. Qed.

Lemma str_digits (n : Z) :
  0 <= n -> digits (Py.chars (str n)) /\ str n <> "".
Proof.
  intros Hn. unfold str. destruct n as [|p|p]; [| |lia].
  - split; [by repeat constructor | done].
  - cbn. unfold NilZero.string_of_uint.
    pose proof (uint_digits (Pos.to_uint p)) as H.
    pose proof (DecimalPos.Unsigned.to_uint_nonnil p) as Hnil.
    destruct (Pos.to_uint p); try done; split; try done.
Qed.

Lemma format_02d_digits (n : Z) :
  0 <= n -> digits (Py.chars (format_02d n)) /\ format_02d n <> "".
Proof.
  intros Hn. unfold format_02d. destruct (_ && _).
  - split; [|done]. constructor; [done|]. by apply str_digits.
  - by apply str_digits.
Qed.

Lemma skip_space_digits (l : list ascii) : digits l -> skip_space l = l.
Proof.
  intros H. destruct H as [|c l Hc _]; [done|]. cbn.
  by rewrite (proj1 (digit_other c Hc)).
Qed.

Lemma strip_digits (l : list ascii) : digits l -> strip l = l.
Proof.
  intros H. unfold strip. rewrite (skip_space_digits l H).
  rewrite skip_space_digits; [apply rev_involutive|].
  by apply List.Forall_rev.
Qed.

Lemma literal_digits_all (l : list ascii) (after_digit : bool) :
  digits l -> l <> [] -> literal_digits l after_digit = Some l.
Proof.
  intros H. revert after_digit.
  induction H as [|c l Hc Hl IH]; intros after_digit Hne; [done|].
  cbn. rewrite Hc. destruct l as [|c' l]; [done|].
  by rewrite IH.
Qed.

(** [int()] on a string of digits. *)
Lemma int_digits (s : string) (d : Decimal.uint) :
  digits (Py.chars s) -> s <> "" ->
  NilZero.uint_of_string s = Some d ->
  int s = Return (Z.of_uint d).
Proof.
  intros Hd Hne Hs. unfold int. rewrite (strip_digits _ Hd).
  assert (Hl : Py.chars s <> []) by (by destruct s).
  assert (Hsign : match Py.chars s with
                  | c :: rest =>
                      if Ascii.eqb c "-" then (true, rest)
                      else if Ascii.eqb c "+" then (false, rest)
                      else (false, Py.chars s)
                  | [] => (false, Py.chars s)
                  end = (false, Py.chars s)).
  { destruct Hd as [|c l Hc _]; [done|].
    destruct (digit_other c Hc) as (_ & -> & -> & _). done. }
  rewrite Hsign. rewrite (literal_digits_all _ _ Hd Hl).
  by rewrite str_chars, Hs.
Qed.

Lemma int_str (n : Z) : 0 <= n -> int (str n) = Return n.
Proof.
  intros Hn. destruct (str_digits n Hn) as [Hd Hne].
  rewrite <- (DecimalZ.of_to n) at 2.
  unfold str in *. destruct n as [|p|p]; [done| |lia].
  cbn [Z.to_int NilZero.string_of_int Z.of_int] in *.
  apply int_digits; [done | done |].
  apply NilZero.usu. apply DecimalPos.Unsigned.to_uint_nonnil.
Qed.

(** The number of a post, written with two digits, is read back. *)
Lemma int_format_02d (n : Z) : 0 <= n -> int (format_02d n) = Return n.
Proof.
  intros Hn. unfold format_02d.
  destruct ((0 <=? n) && (n <? 10)) eqn:E; [|by apply int_str].
  apply andb_prop in E as [_ E]. apply Z.ltb_lt in E.
  rewrite <- (Z2Nat.id n) by lia.
  assert (Hk : (Z.to_nat n < 10)%nat) by lia. revert Hk.
  generalize (Z.to_nat n). intros k Hk.
  do 10 (destruct k as [|k]; [reflexivity|]). lia.
Qed.

Lemma format_02d_inj (n m : Z) :
  0 <= n -> 0 <= m -> format_02d n = format_02d m -> n = m.
Proof.
  intros Hn Hm E. pose proof (int_format_02d n Hn) as H.
  rewrite E, (int_format_02d m Hm) in H. congruence.
Qed.

(** *** Splitting a name at its underscores *)

Lemma digits_no_char (c : ascii) (l : list ascii) :
  textwrap.digit c = false -> digits l -> no_char c l.
Proof.
  intros Hc Hl. eapply Forall_impl; [exact Hl|]. intros x Hx. cbv beta in *.
  destruct (Ascii.eqb x c) eqn:E; [|done].
  apply Ascii.eqb_eq in E. subst x. congruence.
Qed.

Lemma split_on_field (sep : ascii) (a b : list ascii) :
  no_char sep a ->
  split_on sep (a ++ sep :: b) = a :: split_on sep b.
Proof.
  induction 1 as [|x a Hx Ha IH]; cbn [app split_on].
  - by rewrite Ascii.eqb_refl.
  - by rewrite Hx, IH.
Qed.

Lemma post_field_name (n : Z) (tail : string) :
  0 <= n ->
  app.post_field ("post_" +:+ format_02d n +:+ String "_" tail)
  = Return (format_02d n).
Proof.
  intros Hn. unfold app.post_field.
  rewrite !chars_append.
  change (Py.chars "post_") with (Py.chars "post" ++ ["_"%char]).
  rewrite <- app_assoc. cbn [app].
  rewrite (split_on_field "_" (Py.chars "post")) by (by repeat constructor).
  change (Py.chars (String "_" tail)) with ("_"%char :: Py.chars tail).
  rewrite split_on_field.
  - by rewrite str_chars.
  - apply digits_no_char; [done | by apply format_02d_digits].
Qed.

Lemma post_field_caption (n : Z) :
  0 <= n -> app.post_field (main.caption_name n) = Return (format_02d n).
Proof. intros Hn. by apply (post_field_name n "caption.txt"). Qed.

Lemma post_field_slide (n k : Z) :
  0 <= n -> app.post_field (main.slide_name n k) = Return (format_02d n).
Proof.
  intros Hn. by apply (post_field_name n ("slide_" +:+ format_02d k +:+ ".png")).
Qed.

(** *** The pattern of the slides *)

Lemma strip_prefix_app (a b : list ascii) : strip_prefix a (a ++ b) = Some b.
Proof.
  induction a as [|c a IH]; [by destruct b|].
  cbn. by rewrite Ascii.eqb_refl.
Qed.

Lemma strip_prefix_Some (a s r : list ascii) :
  strip_prefix a s = Some r -> s = a ++ r.
Proof.
  revert s. induction a as [|c a IH]; intros s H.
  - destruct s; by injection H as <-.
  - destruct s as [|d s]; [done|]. cbn in H.
    destruct (Ascii.eqb c d) eqn:E; [|done].
    apply Ascii.eqb_eq in E. subst d. by rewrite (IH s H).
Qed.

(** A field, the underscore after it and what follows: the field is told
    by the first underscore. *)
Lemma field_unique (a b x y : list ascii) :
  no_char "_" a -> no_char "_" b ->
  a ++ "_"%char :: x = b ++ "_"%char :: y -> a = b /\ x = y.
Proof.
  intros Ha. revert b.
  induction Ha as [|c a Hc Ha IH]; intros b Hb E.
  - destruct Hb as [|d b Hd Hb]; cbn in E.
    + by injection E as <-.
    + injection E as <- _. by rewrite Ascii.eqb_refl in Hd.
  - destruct Hb as [|d b Hd Hb]; cbn in E.
    + injection E as -> _. by rewrite Ascii.eqb_refl in Hc.
    + injection E as <- E. destruct (IH b Hb E) as [-> ->]. done.
Qed.

Lemma endswith_app (suffix a : list ascii) : endswith suffix (a ++ suffix) = true.
Proof.
  unfold endswith. by rewrite rev_app_distr, strip_prefix_app.
Qed.

Lemma slide_pattern_slide (n m k : Z) :
  0 <= n -> 0 <= m ->
  app.slide_pattern (format_02d n) (main.slide_name m k)
  = bool_decide (n = m).
Proof.
  intros Hn Hm. unfold app.slide_pattern, main.slide_name.
  rewrite !chars_append.
  change (Py.chars "post_") with ("p" :: "o" :: "s" :: "t" :: ["_"])%char.
  cbn [app strip_prefix]. rewrite !Ascii.eqb_refl.
  destruct (decide (n = m)) as [<- | Hne].
  - rewrite bool_decide_eq_true_2 by done.
    rewrite app_assoc, strip_prefix_app. apply endswith_app.
  - rewrite bool_decide_eq_false_2 by done.
    destruct (strip_prefix _ _) as [rest|] eqn:E; [|done].
    apply strip_prefix_Some in E. rewrite <- app_assoc in E.
    change (Py.chars "_slide_") with ("_"%char :: Py.chars "slide_") in E.
    cbn [app] in E. symmetry in E.
    apply field_unique in E as [E _];
      [|apply digits_no_char; [done | by apply format_02d_digits]..].
    apply chars_inj, format_02d_inj in E; done.
Qed.

Lemma slide_pattern_caption (n m : Z) :
  0 <= n -> 0 <= m ->
  app.slide_pattern (format_02d n) (main.caption_name m) = false.
Proof.
  intros Hn Hm. unfold app.slide_pattern, main.caption_name.
  rewrite !chars_append.
  change (Py.chars "post_") with ("p" :: "o" :: "s" :: "t" :: ["_"])%char.
  cbn [app strip_prefix]. rewrite !Ascii.eqb_refl.
  destruct (strip_prefix _ _) as [rest|] eqn:E; [|done].
  apply strip_prefix_Some in E. rewrite <- app_assoc in E.
  change (Py.chars "_slide_") with ("_"%char :: Py.chars "slide_") in E.
  change (Py.chars "_caption.txt") with ("_"%char :: Py.chars "caption.txt")
    in E.
  symmetry in E.
  apply field_unique in E as [_ E];
    [|apply digits_no_char; [done | by apply format_02d_digits]..].
  discriminate E.
Qed.

End name_facts.

(** ** The listing of the output folder *)

Module listing_facts.

Import builtins name_facts.

Lemma append_nil_r (s : string) : s +:+ "" = s.
Proof. induction s as [|c s IH]; [done|]. by rewrite append_cons, IH. Qed.

Lemma append_inv_head (a b c : string) : a +:+ b = a +:+ c -> b = c.
Proof.
  induction a as [|x a IH]; [done|].
  rewrite !append_cons. intros [= E]. by apply IH.
Qed.

(** A name that does not begin with the separator is joined to a folder
    by writing it after the folder's prefix. *)
Lemma join_prefix (folder name : string) :
  posixpath.startswith_sep name = false ->
  posixpath.join folder [name] = directory_prefix folder +:+ name.
Proof.
  intros Hn. unfold directory_prefix, posixpath.join. cbn [fold_left].
  unfold posixpath.join2. rewrite Hn.
  change (posixpath.startswith_sep "") with false. cbv iota.
  destruct (String.eqb folder "" || posixpath.endswith_sep folder).
  - by rewrite append_nil_r.
  - by rewrite append_assoc.
Qed.

Lemma join_inj (folder a b : string) :
  posixpath.startswith_sep a = false -> posixpath.startswith_sep b = false ->
  posixpath.join folder [a] = posixpath.join folder [b] -> a = b.
Proof.
  intros Ha Hb. rewrite !join_prefix by done. apply append_inv_head.
Qed.

Lemma component_start (name : string) :
  component name -> posixpath.startswith_sep name = false.
Proof.
  intros [_ H]. destruct name as [|c name]; [done|].
  apply Forall_cons_1 in H as [H _]. exact H.
Qed.

Lemma first_component_all (l : list ascii) :
  no_char posixpath.sep l -> first_component l = l.
Proof.
  induction 1 as [|c l Hc Hl IH]; [done|]. cbn. by rewrite Hc, IH.
Qed.

Lemma entry_of_join (folder name : string) :
  component name -> entry_of folder (posixpath.join folder [name]) = Some name.
Proof.
  intros Hc. rewrite join_prefix by (by apply component_start).
  unfold entry_of. rewrite chars_append, strip_prefix_app.
  rewrite first_component_all by apply Hc.
  destruct Hc as [Hne _].
  destruct (Py.chars name) eqn:E.
  - destruct name; done.
  - by rewrite <- E, str_chars.
Qed.

(** A path in the folder under a name of one component: the path is the
    name joined to the folder, or it lies deeper. *)
Lemma entry_of_inv (folder p name : string) :
  entry_of folder p = Some name ->
  component name
  /\ exists rest,
       p = posixpath.join folder [name] +:+ rest
       /\ (rest = "" \/ posixpath.startswith_sep rest = true).
Proof.
  unfold entry_of. destruct (strip_prefix _ _) as [tail|] eqn:E; [|done].
  apply strip_prefix_Some in E.
  assert (H : exists rest,
            tail = first_component tail ++ rest
            /\ no_char posixpath.sep (first_component tail)
            /\ (rest = [] \/ exists r, rest = posixpath.sep :: r)).
  { clear. induction tail as [|c tail IH]; cbn.
    - exists []. split; [done|]. split; [constructor | by left].
    - destruct (Ascii.eqb c posixpath.sep) eqn:Ec.
      + apply Ascii.eqb_eq in Ec. subst c. exists (posixpath.sep :: tail).
        split; [done|]. split; [constructor | right; by eexists].
      + destruct IH as (rest & E & Hn & Hr). exists rest.
        split; [cbn; by rewrite <- E|]. split; [by constructor | done]. }
  destruct H as (rest & Ht & Hn & Hr).
  destruct (first_component tail) as [|c comp] eqn:Ef; [done|].
  intros [= <-].
  assert (Hc : component (Py.str (c :: comp))).
  { split; [done|]. by rewrite words_facts.chars_str. }
  split; [exact Hc|]. exists (Py.str rest). split.
  - rewrite join_prefix by (by apply component_start).
    apply chars_inj. rewrite !chars_append, !words_facts.chars_str, E, Ht.
    rewrite <- app_assoc. do 2 f_equal.
    symmetry. apply (words_facts.chars_str (c :: comp)).
  - destruct Hr as [-> | [r ->]]; [by left | by right].
Qed.

Lemma elem_of_listdir (folder name : string) (st : machine) :
  name ∈ os_listdir folder st
  <-> exists p, is_Some (files st !! p) /\ entry_of folder p = Some name.
Proof.
  unfold os_listdir. rewrite elem_of_remove_dups, list_elem_of_omap.
  split.
  - intros (p & Hp & E). exists p. split; [|done].
    apply list_elem_of_fmap in Hp as ([p' f] & -> & Hpf).
    apply elem_of_map_to_list in Hpf. by eexists.
  - intros (p & [f Hf] & E). exists p. split; [|done].
    apply list_elem_of_fmap. exists (p, f). split; [done|].
    by apply elem_of_map_to_list.
Qed.

Lemma NoDup_listdir (folder : string) (st : machine) :
  NoDup (os_listdir folder st).
Proof. apply NoDup_remove_dups. Qed.

End listing_facts.

(** ** Sorting *)

Module sort_facts.

Import builtins.

Lemma leb_trans (a b c : string) :
  String.leb a b = true -> String.leb b c = true -> String.leb a c = true.
Proof.
  unfold String.leb. intros Hab Hbc.
  destruct (String.compare a b) eqn:E1; [| |done].
  - apply String.compare_eq_iff in E1. by subst b.
  - destruct (String.compare b c) eqn:E2; [| |done].
    + apply String.compare_eq_iff in E2. subst c. by rewrite E1.
    + apply OrderedTypeEx.String_as_OT.cmp_lt in E1, E2.
      pose proof (OrderedTypeEx.String_as_OT.lt_trans _ _ _ E1 E2) as H.
      apply OrderedTypeEx.String_as_OT.cmp_lt in H.
      unfold OrderedTypeEx.String_as_OT.cmp in H. by rewrite H.
Qed.

Lemma leb_ltb (a b : string) :
  String.leb a b = true -> a <> b -> String.ltb a b = true.
Proof.
  unfold String.leb, String.ltb. intros H Hne.
  destruct (String.compare a b) eqn:E; [|done..].
  by apply String.compare_eq_iff in E.
Qed.

Lemma insert_sorted_perm (x : string) (l : list string) :
  insert_sorted x l ≡ₚ x :: l.
Proof.
  induction l as [|y l IH]; [done|]. cbn.
  destruct (String.leb x y); [done|].
  rewrite IH. apply Permutation_swap.
Qed.

Lemma sorted_perm (l : list string) : sorted l ≡ₚ l.
Proof.
  induction l as [|x l IH]; [done|]. cbn.
  by rewrite insert_sorted_perm, IH.
Qed.

Lemma elem_of_sorted (x : string) (l : list string) : x ∈ sorted l <-> x ∈ l.
Proof. by rewrite sorted_perm. Qed.

Lemma insert_sorted_sorted (x : string) (l : list string) :
  StronglySorted (fun a b => String.leb a b = true) l ->
  StronglySorted (fun a b => String.leb a b = true) (insert_sorted x l).
Proof.
  induction 1 as [|y l Hl IH Hy]; cbn.
  - repeat constructor.
  - destruct (String.leb x y) eqn:E.
    + constructor; [by constructor|]. constructor; [done|].
      eapply List.Forall_impl; [|exact Hy].
      intros z Hz. by eapply leb_trans.
    + constructor; [done|].
      assert (Hyx : String.leb y x = true).
      { destruct (String.leb_total x y) as [H | H]; congruence. }
      apply List.Forall_forall. intros z Hz.
      apply (Permutation_in _ (insert_sorted_perm x l)) in Hz.
      destruct Hz as [<- | Hz]; [done|].
      rewrite List.Forall_forall in Hy. by apply Hy.
Qed.

Lemma sorted_sorted (l : list string) :
  StronglySorted (fun a b => String.leb a b = true) (sorted l).
Proof.
  induction l as [|x l IH]; cbn; [constructor|].
  by apply insert_sorted_sorted.
Qed.

(** Sorting a list without duplicates puts it in ascending order. *)
Lemma sorted_ascending (l : list string) : NoDup l -> ascending (sorted l).
Proof.
  intros Hnd.
  assert (Hnd' : NoDup (sorted l)) by (by rewrite sorted_perm).
  pose proof (sorted_sorted l) as Hs. unfold ascending.
  induction Hs as [|x s Hs IH Hx]; [constructor|].
  apply NoDup_cons in Hnd' as [Hx' Hnd'].
  constructor; [by apply IH|].
  apply List.Forall_forall. intros y Hy.
  rewrite List.Forall_forall in Hx. apply leb_ltb; [by apply Hx|].
  intros ->. apply Hx'. by apply list_elem_of_In.
Qed.

End sort_facts.

(** ** The delivery of a folder of packages *)

Module delivery_facts.

Import builtins name_facts listing_facts sort_facts.

Lemma name_component (n : Z) (tail : string) :
  0 <= n -> no_char posixpath.sep (Py.chars tail) ->
  component ("post_" +:+ format_02d n +:+ tail).
Proof.
  intros Hn Ht. split; [done|]. unfold no_char.
  rewrite !chars_append, !Forall_app. split; [by repeat constructor|].
  split; [|exact Ht].
  apply digits_no_char; [done | by apply format_02d_digits].
Qed.

Lemma caption_component (n : Z) : 0 <= n -> component (main.caption_name n).
Proof.
  intros Hn. apply name_component; [done | by repeat constructor].
Qed.

Lemma slide_component (n k : Z) :
  0 <= n -> 0 <= k -> component (main.slide_name n k).
Proof.
  intros Hn Hk. apply name_component; [done|]. unfold no_char.
  rewrite !chars_append, !Forall_app. split; [by repeat constructor|].
  split; [|by repeat constructor].
  apply digits_no_char; [done | by apply format_02d_digits].
Qed.

Lemma post_of_component (name : string) (n : Z) :
  1 <= n -> post_of name n -> component name.
Proof.
  intros Hn [-> | (k & Hk & ->)];
    [apply caption_component | apply slide_component]; lia.
Qed.

Lemma post_of_field (name : string) (n : Z) :
  1 <= n -> post_of name n -> app.post_field name = Return (format_02d n).
Proof.
  intros Hn [-> | (k & Hk & ->)];
    [apply post_field_caption | apply post_field_slide]; lia.
Qed.

(** A name belongs to one post. *)
Lemma post_of_unique (name : string) (n m : Z) :
  1 <= n -> 1 <= m -> post_of name n -> post_of name m -> n = m.
Proof.
  intros Hn Hm H1 H2.
  pose proof (post_of_field name n Hn H1) as E1.
  rewrite (post_of_field name m Hm H2) in E1. injection E1 as E1.
  symmetry. apply format_02d_inj; [lia.. | done].
Qed.

Lemma caption_not_slide (n m k : Z) :
  0 <= n -> 0 <= m -> main.caption_name n <> main.slide_name m k.
Proof.
  intros Hn Hm E.
  pose proof (slide_pattern_caption m n Hm Hn) as H1.
  rewrite E, slide_pattern_slide in H1 by done.
  by rewrite bool_decide_eq_true_2 in H1.
Qed.

(** *** What a folder of packages lists *)

Section folder.

Context (folder : string) (st : machine).
Hypothesis Hfolder : package_folder folder st.

Lemma listed_package (name : string) :
  name ∈ os_listdir folder st ->
  is_Some (files st !! posixpath.join folder [name])
  /\ exists n, 1 <= n /\ post_of name n.
Proof.
  intros Hin. apply elem_of_listdir in Hin as (p & Hp & E).
  assert (Hb : below folder p) by (by exists name).
  assert (Hpn : exists pname n,
            p = posixpath.join folder [pname] /\ 1 <= n /\ post_of pname n).
  { destruct (Hfolder p Hp Hb) as [(n & k & Hn & Hk & ->)
                                  | [(n & Hn & ->) _]].
    - exists (main.slide_name n k), n. split; [done|]. split; [done|].
      right. by exists k.
    - exists (main.caption_name n), n. split; [done|]. split; [done|].
      by left. }
  destruct Hpn as (pname & n & -> & Hn & Hpost).
  rewrite entry_of_join in E by (by eapply post_of_component).
  injection E as <-. split; [done|]. by exists n.
Qed.

Lemma package_listed (name : string) :
  component name ->
  is_Some (files st !! posixpath.join folder [name]) ->
  name ∈ os_listdir folder st.
Proof.
  intros Hc Hp. apply elem_of_listdir. eexists. split; [exact Hp|].
  by apply entry_of_join.
Qed.

(** Nothing lies under the path of a package file. *)
Lemma package_no_directory (name : string) (n : Z) :
  1 <= n -> post_of name n ->
  os_listdir (posixpath.join folder [name]) st = [].
Proof.
  intros Hn Hpost.
  destruct (os_listdir _ st) as [|x l] eqn:E; [done|].
  exfalso.
  assert (Hx : x ∈ os_listdir (posixpath.join folder [name]) st)
    by (rewrite E; by left).
  apply elem_of_listdir in Hx as (q & Hq & Ex).
  apply entry_of_inv in Ex as (Hcx & rest & -> & _).
  pose proof (post_of_component name n Hn Hpost) as Hc.
  set (deep := name +:+ String posixpath.sep x +:+ rest).
  assert (Hdeep : posixpath.join (posixpath.join folder [name]) [x] +:+ rest
                  = directory_prefix folder +:+ deep).
  { subst deep.
    rewrite (join_prefix folder name) by (by apply component_start).
    unfold posixpath.join at 1. cbn [fold_left]. unfold posixpath.join2.
    rewrite (component_start x Hcx).
    assert (Hend : posixpath.endswith_sep (directory_prefix folder +:+ name)
                   = false).
    { destruct Hc as [Hne Hns]. clear -Hne Hns.
      induction (directory_prefix folder) as [|c d IH].
      - cbn. induction name as [|c name IH]; [done|].
        apply Forall_cons_1 in Hns as [Hc Hns].
        destruct name as [|c' name]; [exact Hc|].
        cbn [posixpath.endswith_sep]. apply IH; [done | exact Hns].
      - rewrite append_cons. cbn [posixpath.endswith_sep]. rewrite IH.
        by destruct (d +:+ name) eqn:E; [destruct d, name|]. }
    rewrite Hend.
    assert (Hnil : String.eqb (directory_prefix folder +:+ name) "" = false).
    { destruct Hc as [Hne _].
      destruct (directory_prefix folder); [by destruct name | done]. }
    rewrite Hnil. cbn [orb]. by rewrite !append_assoc. }
  rewrite Hdeep in Hq.
  assert (Hb : below folder (directory_prefix folder +:+ deep)).
  { exists name. unfold entry_of. rewrite chars_append, strip_prefix_app.
    subst deep. rewrite chars_append.
    change (Py.chars (String posixpath.sep x +:+ rest))
      with (posixpath.sep :: Py.chars (x +:+ rest)).
    assert (Hfc : forall head r, no_char posixpath.sep head ->
                    first_component (head ++ posixpath.sep :: r) = head).
    { intros head r. induction 1 as [|c head Hcl Hl IH]; cbn; [done|].
      by rewrite Hcl, IH. }
    rewrite Hfc by apply Hc.
    destruct Hc as [Hne _]. destruct (Py.chars name) eqn:En.
    - by destruct name.
    - by rewrite <- En, str_chars. }
  assert (Hpn : exists pname, component pname
            /\ directory_prefix folder +:+ deep
               = directory_prefix folder +:+ pname).
  { destruct (Hfolder _ Hq Hb) as [(m & k & Hm & Hk & E')
                                  | [(m & Hm & E') _]].
    - exists (main.slide_name m k). split; [apply slide_component; lia|].
      rewrite E'. apply join_prefix.
      apply component_start, slide_component; lia.
    - exists (main.caption_name m). split; [apply caption_component; lia|].
      rewrite E'. apply join_prefix.
      apply component_start, caption_component; lia. }
  destruct Hpn as (pname & [_ Hns] & Epn).
  apply append_inv_head in Epn. subst pname deep.
  rewrite chars_append in Hns. apply Forall_app in Hns as [_ Hns].
  apply Forall_cons_1 in Hns as [Hs _]. by rewrite Ascii.eqb_refl in Hs.
Qed.

(** *** The slides of a post *)

Lemma elem_of_glob_slides (n : Z) (p : string) :
  1 <= n ->
  p ∈ app.glob_slides folder (format_02d n) st <-> slide_of folder st n p.
Proof.
  intros Hn. unfold app.glob_slides.
  rewrite list_elem_of_In, in_map_iff. split.
  - intros (name & <- & Hin). apply filter_In in Hin as [Hin Hpat].
    apply list_elem_of_In, listed_package in Hin as (Hp & m & Hm & Hpost).
    split; [exact Hp|].
    destruct Hpost as [-> | (k & Hk & ->)].
    + rewrite slide_pattern_caption in Hpat by lia. done.
    + rewrite slide_pattern_slide in Hpat by lia.
      apply bool_decide_eq_true_1 in Hpat. subst m. by exists k.
  - intros (Hp & k & Hk & ->). exists (main.slide_name n k).
    split; [done|]. apply filter_In. split.
    + apply list_elem_of_In, package_listed; [|done].
      apply slide_component; lia.
    + rewrite slide_pattern_slide by lia. by apply bool_decide_eq_true_2.
Qed.

Lemma NoDup_glob_slides (n : Z) :
  1 <= n -> NoDup (app.glob_slides folder (format_02d n) st).
Proof.
  intros Hn. unfold app.glob_slides.
  change (map ?f ?l) with (f <$> l).
  apply NoDup_fmap_2_strong.
  - intros a b Ha Hb.
    apply list_elem_of_In, filter_In in Ha as [Ha _].
    apply list_elem_of_In, filter_In in Hb as [Hb _].
    apply list_elem_of_In, listed_package in Ha as (_ & na & Hna & Hpa).
    apply list_elem_of_In, listed_package in Hb as (_ & nb & Hnb & Hpb).
    apply join_inj; apply component_start;
      [by apply (post_of_component a na) | by apply (post_of_component b nb)].
  - apply NoDup_ListNoDup, List.NoDup_filter, NoDup_ListNoDup, NoDup_listdir.
Qed.

Lemma slides_for_spec (n : Z) :
  1 <= n ->
  ascending (slides_for folder st n)
  /\ forall p, p ∈ slides_for folder st n <-> slide_of folder st n p.
Proof.
  intros Hn. split.
  - apply sorted_ascending. by apply NoDup_glob_slides.
  - intros p. unfold slides_for.
    by rewrite elem_of_sorted, elem_of_glob_slides.
Qed.

(** *** One post *)

Lemma photos_sent (chat_id : value) (paths : list string) :
  (forall p, p ∈ paths -> is_Some (files st !! p)) ->
  flat_map (fun p => app.send_telegram_photo chat_id p st) paths
  = map (SendPhoto chat_id) paths.
Proof.
  induction paths as [|p paths IH]; intros H; [done|]. cbn.
  rewrite IH by (intros q Hq; apply H; by right).
  unfold app.send_telegram_photo.
  destruct (H p) as [f ->]; [by left | done].
Qed.

Lemma deliver_post_package (chat_id : value) (n : Z) :
  1 <= n ->
  app.deliver_post chat_id folder (format_02d n) st
  = (package_messages chat_id n (caption_of folder st n) (slides_for folder st n),
     None).
Proof.
  intros Hn. unfold app.deliver_post.
  rewrite int_format_02d by lia.
  change ("post_" +:+ format_02d n +:+ "_caption.txt")
    with (main.caption_name n).
  fold (slides_for folder st n).
  rewrite photos_sent.
  2: { intros p Hp. apply slides_for_spec in Hp; [apply Hp | done]. }
  set (c := posixpath.join folder [main.caption_name n]).
  unfold os_path_exists, caption_of, package_messages. fold c.
  destruct (files st !! c) as [f|] eqn:Ef.
  - assert (Hb : below folder c).
    { exists (main.caption_name n). apply entry_of_join.
      apply caption_component. lia. }
    assert (Hs : is_Some (files st !! c)) by (by eexists).
    destruct (Hfolder c Hs Hb) as [(m & k & Hm & Hk & E) | [_ [Hf [t Ht]]]].
    + exfalso. apply join_inj in E.
      * by apply caption_not_slide in E; lia.
      * apply component_start, caption_component. lia.
      * apply component_start, slide_component; lia.
    + unfold read_text. by rewrite Hf, Ht.
  - subst c.
    rewrite (package_no_directory (main.caption_name n) n Hn); [done|].
    by left.
Qed.

(** *** All the posts *)

Lemma deliver_posts_packages (chat_id : value) (ns : list Z) :
  Forall (fun n => 1 <= n) ns ->
  app.deliver_posts chat_id folder (map format_02d ns) st
  = (flat_map (fun n => package_messages chat_id n (caption_of folder st n)
                                         (slides_for folder st n)) ns,
     None).
Proof.
  induction 1 as [|n ns Hn Hns IH]; [done|].
  cbn [map app.deliver_posts flat_map].
  by rewrite deliver_post_package, IH.
Qed.

Lemma each_Return {A B} (f : A -> result B) (g : A -> B) (l : list A) :
  (forall x, x ∈ l -> f x = Return (g x)) ->
  each f l = Return (map g l).
Proof.
  induction l as [|x l IH]; intros H; [done|]. cbn.
  rewrite (H x) by (by left). cbn.
  rewrite IH by (intros y Hy; apply H; by right). done.
Qed.

Lemma number_of_post (name : string) (n : Z) :
  1 <= n -> post_of name n -> number_of name = n.
Proof.
  intros Hn Hp. unfold number_of. rewrite (post_of_field name n Hn Hp).
  cbn. by rewrite int_format_02d by lia.
Qed.

Lemma all_posts_packages :
  exists ns,
    app.all_posts folder st = Return (map format_02d ns)
    /\ ascending (map format_02d ns)
    /\ forall n, n ∈ ns <-> has_package folder st n.
Proof.
  set (names := os_listdir folder st).
  set (fields := sorted (distinct (map (fun name => format_02d (number_of name))
                                       names))).
  assert (Hnames : forall name, name ∈ names ->
            exists n, 1 <= n /\ post_of name n /\ number_of name = n
              /\ is_Some (files st !! posixpath.join folder [name])).
  { intros name Hin. apply listed_package in Hin as (Hp & n & Hn & Hpost).
    exists n. split; [done|]. split; [done|].
    split; [by apply number_of_post | done]. }
  assert (Hall : app.all_posts folder st = Return fields).
  { unfold app.all_posts. fold names.
    rewrite (each_Return _ (fun name => format_02d (number_of name))); [done|].
    intros name Hin. destruct (Hnames name Hin) as (n & Hn & Hpost & -> & _).
    by apply post_of_field. }
  assert (Hfield : forall f, f ∈ fields <->
            exists name, name ∈ names /\ f = format_02d (number_of name)).
  { intros f. subst fields. unfold distinct.
    rewrite elem_of_sorted, elem_of_remove_dups, list_elem_of_In, in_map_iff.
    split; intros (name & H1 & H2); exists name.
    - split; [by apply list_elem_of_In | done].
    - split; [done | by apply list_elem_of_In]. }
  exists (map (fun f => match int f with Return n => n | Throw _ => 0 end)
              fields).
  assert (Hback : map format_02d
                    (map (fun f => match int f with
                                   | Return n => n | Throw _ => 0 end) fields)
                  = fields).
  { rewrite map_map. rewrite <- (map_id fields) at 2.
    apply map_ext_in. intros f Hf.
    apply list_elem_of_In, Hfield in Hf as (name & Hin & ->).
    destruct (Hnames name Hin) as (n & Hn & _ & -> & _).
    by rewrite int_format_02d by lia. }
  rewrite Hback. split; [exact Hall|]. split.
  { subst fields. apply sorted_ascending. apply NoDup_remove_dups. }
  intros n. rewrite list_elem_of_In, in_map_iff. split.
  - intros (f & <- & Hf).
    apply list_elem_of_In, Hfield in Hf as (name & Hin & ->).
    destruct (Hnames name Hin) as (m & Hm & Hpost & -> & Hp).
    rewrite int_format_02d by lia. split; [done|].
    destruct Hpost as [-> | (k & Hk & ->)]; [by left | right].
    eexists. split; [exact Hp|]. by exists k.
  - intros (Hn & Hhas).
    assert (Hname : exists name, name ∈ names /\ post_of name n).
    { destruct Hhas as [Hc | (p & Hp & k & Hk & ->)].
      - exists (main.caption_name n). split; [|by left].
        apply package_listed; [apply caption_component; lia | done].
      - exists (main.slide_name n k). split; [|right; by exists k].
        apply package_listed; [apply slide_component; lia | done]. }
    destruct Hname as (name & Hin & Hpost).
    exists (format_02d n). split; [by rewrite int_format_02d by lia|].
    apply list_elem_of_In, Hfield. exists name. split; [done|].
    by rewrite (number_of_post name n).
Qed.

(** The delivery of a folder of packages. *)
Lemma deliver_packages (chat_id : value) :
  exists posts : list (Z * list string),
    app.deliver chat_id folder st
    = (match posts with
       | [] => [SendMessage chat_id NoPackages]
       | _ =>
           flat_map (fun post : Z * list string =>
                       package_messages chat_id post.1
                         (caption_of folder st post.1) post.2) posts
           ++ [SendMessage chat_id Delivered]
       end, None)
    /\ ascending (map (fun post : Z * list string => format_02d post.1) posts)
    /\ (forall n, n ∈ map fst posts <-> has_package folder st n)
    /\ forall n slides,
         (n, slides) ∈ posts ->
         ascending slides /\ forall p, p ∈ slides <-> slide_of folder st n p.
Proof.
  destruct all_posts_packages as (ns & Hall & Hasc & Hns).
  exists (map (fun n => (n, slides_for folder st n)) ns).
  assert (Hpos : Forall (fun n => 1 <= n) ns).
  { apply List.Forall_forall. intros n Hn.
    apply list_elem_of_In, Hns in Hn. apply Hn. }
  split; [|split; [|split]].
  - unfold app.deliver. rewrite Hall.
    destruct ns as [|n ns]; [done|].
    change (map format_02d (n :: ns))
      with (format_02d n :: map format_02d ns) at 1.
    cbv iota. rewrite (deliver_posts_packages chat_id (n :: ns) Hpos).
    change (map ?f (n :: ns)) with (f n :: map f ns). cbv iota.
    f_equal. f_equal.
    assert (Hfm : forall l,
              flat_map (fun m => package_messages chat_id m
                                   (caption_of folder st m)
                                   (slides_for folder st m)) l
              = flat_map (fun post : Z * list string =>
                            package_messages chat_id post.1
                              (caption_of folder st post.1) post.2)
                         (map (fun m => (m, slides_for folder st m)) l)).
    { induction l as [|m l IH]; [done|]. cbn. by rewrite IH. }
    exact (Hfm (n :: ns)).
  - by rewrite map_map.
  - intros n. rewrite map_map, map_id. apply Hns.
  - intros n slides Hin.
    apply list_elem_of_In, in_map_iff in Hin as (m & [= <- <-] & Hm).
    apply slides_for_spec. rewrite List.Forall_forall in Hpos. by apply Hpos.
Qed.

End folder.

End delivery_facts.

(** ** A run, then the delivery *)

Module reply_facts.

Import builtins name_facts listing_facts delivery_facts.

Lemma below_output (stamp p : string) :
  below ("output_" +:+ stamp) p -> exists rest, p = "output_" +:+ rest.
Proof.
  intros [name E]. apply entry_of_inv in E as (Hc & rest & -> & _).
  rewrite join_prefix by (by apply component_start).
  unfold directory_prefix, posixpath.join. cbn [fold_left].
  unfold posixpath.join2.
  change (posixpath.startswith_sep "") with false. cbv iota.
  destruct (_ || _); rewrite !append_assoc; by eexists.
Qed.

(** A run in a directory without output folders leaves a folder of
    packages. *)
Lemma tidy_package_folder (stamp : string) (st st' : machine) :
  (forall rest, files st !! ("output_" +:+ rest) = None) ->
  tidy ("output_" +:+ stamp) st st' ->
  package_folder ("output_" +:+ stamp) st'.
Proof.
  intros Hfresh Htidy p Hp Hb.
  destruct (Htidy p) as [[Ef _] | [Hs | [Hc | [_ Hn]]]].
  - apply below_output in Hb as [rest ->].
    rewrite Ef, Hfresh in Hp. by destruct Hp.
  - by left.
  - by right.
  - rewrite Hn in Hp. by destruct Hp.
Qed.


End reply_facts.

(** X22.  The file names [run_workflow] writes are read back by
    [run_workflow_and_reply] as they were meant.  For a post numbered
    [n >= 0]: the second field of the name of its caption and of each of
    its slides, split at the underscores, is the number as it was
    written, on two digits at least; [int()] of that field is [n]; the
    pattern of the slides of post [n] matches a slide of post [m]
    exactly when [m] is [n], whatever the slide's own number, and it
    matches no caption; and the caption the delivery looks for under
    that field is the caption [save_caption] writes. *)
Theorem package_names_read_back (n k : Z) (Hn : 0 <= n) :
  app.post_field (main.caption_name n) = Return (builtins.format_02d n)
  /\ app.post_field (main.slide_name n k) = Return (builtins.format_02d n)
  /\ builtins.int (builtins.format_02d n) = Return n
  /\ (forall m, 0 <= m ->
        app.slide_pattern (builtins.format_02d n) (main.slide_name m k)
        = bool_decide (n = m))
  /\ (forall m, 0 <= m ->
        app.slide_pattern (builtins.format_02d n) (main.caption_name m)
        = false)
  /\ "post_" +:+ builtins.format_02d n +:+ "_caption.txt"
     = main.caption_name n.
Proof.
  split; [by apply name_facts.post_field_caption|].
  split; [by apply name_facts.post_field_slide|].
  split; [by apply name_facts.int_format_02d|].
  split; [intros m Hm; by apply name_facts.slide_pattern_slide|].
  split; [intros m Hm; by apply name_facts.slide_pattern_caption|].
  reflexivity.
Qed.

Lemma package_names_read_back_witness :
  0 <= 123
  /\ app.post_field "post_123_slide_07.png" = Return "123"
  /\ builtins.int "123" = Return 123
  /\ app.slide_pattern "123" "post_12_slide_03.png" = false.
Proof.
  split; [lia|].
  destruct (package_names_read_back 123 7 ltac:(lia))
    as (_ & H1 & H2 & H3 & _).
  split; [exact H1|]. split; [exact H2|].
  exact (H3 12 ltac:(lia)).
Defined.

(** X23.  The delivery of a folder of packages.  When every file under
    the output folder is a slide [post_NN_slide_MM.png] or a caption
    [post_NN_caption.txt] that holds text (posts and slides numbered
    from one), the delivery stops on no exception.  For an empty folder
    it sends the message that no package was found.  Otherwise it sends,
    for each post of which the folder holds a file, once, and in the
    ascending order of the numbers as they are written in the names:
    the header with the number of the post, the text of its caption if
    the caption is there, and each of its slides that is there, once,
    in the ascending order of their paths; and after the last post the
    message that all was delivered.  Nothing else is sent. *)
Theorem package_folder_is_delivered
    (chat_id : value) (t : datetime) (st : machine)
    (Hfolder : package_folder ("output_" +:+ strftime t) st) :
  let folder := "output_" +:+ strftime t in
  exists posts : list (Z * list string),
    app.deliver chat_id folder st
    = (match posts with
       | [] => [SendMessage chat_id NoPackages]
       | _ =>
           flat_map (fun post : Z * list string =>
                       package_messages chat_id post.1
                         (caption_of folder st post.1) post.2) posts
           ++ [SendMessage chat_id Delivered]
       end, None)
    /\ ascending (map (fun post : Z * list string =>
                        builtins.format_02d post.1) posts)
    /\ (forall n, n ∈ map fst posts <-> has_package folder st n)
    /\ forall n slides,
         (n, slides) ∈ posts ->
         ascending slides /\ forall p, p ∈ slides <-> slide_of folder st n p.
Proof. by apply delivery_facts.deliver_packages. Qed.



Lemma package_folder_is_delivered_witness :
  let t := {| year := 2025; month := 1; day := 31;
              hour := 10; minute := 0; second := 0 |} in
  let st := (main.run_workflow ["rates"] None demo_run.start).2 in
  package_folder ("output_" +:+ strftime t) st
  /\ exists posts,
       (app.deliver (VInt 42) ("output_" +:+ strftime t) st).2 = None
       /\ (forall n, n ∈ map fst posts
                     <-> has_package ("output_" +:+ strftime t) st n)
       /\ (app.deliver (VInt 42) ("output_" +:+ strftime t) st).1
          = match posts with
            | [] => [SendMessage (VInt 42) NoPackages]
            | _ =>
                flat_map (fun post : Z * list string =>
                            package_messages (VInt 42) post.1
                              (caption_of ("output_" +:+ strftime t) st post.1)
                              post.2) posts
                ++ [SendMessage (VInt 42) Delivered]
            end.
Proof.
  intros t st.
  assert (Hfolder : package_folder ("output_" +:+ strftime t) st).
  { destruct (workflow_facts.run_workflow_tidy ["rates"] None demo_run.start)
      as (t' & Htidy & Hout & _).
    cbv zeta in Htidy, Hout.
    assert (E : (main.run_workflow ["rates"] None demo_run.start).1
                = Return (Some ("output_" +:+ strftime t)))
      by (vm_compute; reflexivity).
    rewrite <- (Hout _ E) in Htidy.
    apply (reply_facts.tidy_package_folder _ demo_run.start); [|exact Htidy].
    intros rest. cbn [files demo_run.start demo_run.machine_with].
    unfold demo.installed.
    rewrite !lookup_insert_ne by discriminate. apply lookup_empty. }
  split; [exact Hfolder|].
  pose proof (package_folder_is_delivered (VInt 42) t st Hfolder) as H.
  cbv zeta in H. destruct H as (posts & E & _ & Hposts & _).
  exists posts. split; [exact (f_equal snd E)|].
  split; [exact Hposts | exact (f_equal fst E)].
Defined.
